(** * multi-logfile-analysis: the log ingestion and filtering pipeline

    A shallow embedding of [app/utils.py] ([LogEntry], [parse_log_time]) and
    of [app/log_processor.py] ([LogProcessor]), together with the two
    patterns that [app/main_window.py] passes to the processor.

    Python [str] values are modelled as [string]: sequences of code points
    below 256.  The character tables ([isspace], [\d], [\w], [lower]) are
    the Unicode ones restricted to that range.  Exceptions are values of
    [exn] carried by the [result] monad; a [try]/[except] is a [match] on
    the result. *)

From Stdlib Require Import Bool Arith ZArith Lia List Ascii String.
From Stdlib Require Import Strings.Byte.
From Stdlib Require Import Sorting.Sorted Sorting.Permutation.
Import ListNotations.

Open Scope string_scope.
Open Scope list_scope.
Open Scope Z_scope.

(* ================================================================== *)
(** ** Exceptions *)

Inductive exn : Type :=
| ReError            (* re.error *)
| IndexError
| AttributeError
| TypeError
| ValueError
| UnboundLocalError
| ImportError.

Inductive result (A : Type) : Type :=
| Ok (a : A)
| Raise (e : exn).

Arguments Ok {A} a.
Arguments Raise {A} e.

Definition bind {A B : Type} (r : result A) (f : A -> result B) : result B :=
  match r with
  | Ok a => f a
  | Raise e => Raise e
  end.

Notation "x <- c ;; k" := (bind c (fun x => k))
  (at level 61, c at next level, right associativity).

(** [[f(x) for x in l]] where [f] may raise: the first exception wins. *)
Fixpoint mapM {A B : Type} (f : A -> result B) (l : list A) : result (list B) :=
  match l with
  | [] => Ok []
  | x :: l' => y <- f x ;; ys <- mapM f l' ;; Ok (y :: ys)
  end.

(** [any(f(x) for x in l)]: stops at the first true element. *)
Fixpoint anyM {A : Type} (f : A -> result bool) (l : list A) : result bool :=
  match l with
  | [] => Ok false
  | x :: l' => b <- f x ;; if b then Ok true else anyM f l'
  end.

Definition is_ok {A : Type} (r : result A) : bool :=
  match r with Ok _ => true | Raise _ => false end.

(* ================================================================== *)
(** ** Python [str] *)

Module PyStr.

Definition ord (c : ascii) : N := N_of_ascii c.

Definition between (lo hi : N) (c : ascii) : bool :=
  (N.leb lo (ord c) && N.leb (ord c) hi)%bool.

Definition LF : ascii := ascii_of_N 10.
Definition CR : ascii := ascii_of_N 13.

(** [str.isspace] on one character. *)
Definition isspace (c : ascii) : bool :=
  (between 9 13 c || between 28 32 c || N.eqb (ord c) 133 || N.eqb (ord c) 160)%bool.

(** Decimal digits, the category behind [\d] and [int]. *)
Definition isdecimal (c : ascii) : bool := between 48 57 c.

(** Alphanumerics, the category behind [\w] (without the underscore). *)
Definition isalnum (c : ascii) : bool :=
  (between 48 57 c || between 65 90 c || between 97 122 c
   || N.eqb (ord c) 170 || between 178 179 c || N.eqb (ord c) 181
   || between 185 186 c || between 188 190 c
   || between 192 214 c || between 216 246 c || between 248 255 c)%bool.

Definition lower_char (c : ascii) : ascii :=
  if (between 65 90 c || between 192 214 c || between 216 222 c)%bool
  then ascii_of_N (ord c + 32) else c.

(** Upper case, for the characters whose upper case is below 256. *)
Definition upper_char (c : ascii) : ascii :=
  if (between 97 122 c || between 224 246 c || between 248 254 c)%bool
  then ascii_of_N (ord c - 32) else c.

Fixpoint lower (s : string) : string :=
  match s with
  | EmptyString => EmptyString
  | String c r => String (lower_char c) (lower r)
  end.

Definition is_empty (s : string) : bool :=
  match s with EmptyString => true | String _ _ => false end.

Fixpoint lstrip (s : string) : string :=
  match s with
  | EmptyString => EmptyString
  | String c r => if isspace c then lstrip r else s
  end.

Fixpoint rstrip (s : string) : string :=
  match s with
  | EmptyString => EmptyString
  | String c r =>
      let r' := rstrip r in
      if (isspace c && is_empty r')%bool then EmptyString else String c r'
  end.

Definition strip (s : string) : string := rstrip (lstrip s).

(** [content.replace('\r\n', '\n')] *)
Fixpoint replace_crlf (s : string) : string :=
  match s with
  | EmptyString => EmptyString
  | String c r =>
      match r with
      | String d r2 =>
          if (Ascii.eqb c CR && Ascii.eqb d LF)%bool
          then String LF (replace_crlf r2)
          else String c (replace_crlf r)
      | EmptyString => String c EmptyString
      end
  end.

(** [k in s] *)
Fixpoint contains (k s : string) : bool :=
  if String.prefix k s then true
  else match s with
       | EmptyString => false
       | String _ r => contains k r
       end.

(** [sep.join(l)] *)
Definition join (sep : string) (l : list string) : string := String.concat sep l.

(** The first [n] characters, and what follows them. *)
Fixpoint take (n : nat) (s : string) : string :=
  match n, s with
  | S n', String c r => String c (take n' r)
  | _, _ => EmptyString
  end.

Fixpoint drop (n : nat) (s : string) : string :=
  match n, s with
  | S n', String _ r => drop n' r
  | _, _ => s
  end.

(** [int(s)] in base ten: surrounding white space, an optional sign, then
    digits in which single underscores may separate digits. *)
Fixpoint int_digits (acc : Z) (after_digit : bool) (s : string) : result Z :=
  match s with
  | EmptyString => if after_digit then Ok acc else Raise ValueError
  | String c r =>
      if isdecimal c then int_digits (10 * acc + Z.of_N (ord c - 48)) true r
      else if Ascii.eqb c "_"
           then (if after_digit then int_digits acc false r else Raise ValueError)
           else Raise ValueError
  end.

Definition int_of_str (s : string) : result Z :=
  match strip s with
  | String "+" r => int_digits 0 false r
  | String "-" r => n <- int_digits 0 false r ;; Ok (- n)
  | t => int_digits 0 false t
  end.

(** [int(x)] where [x] is a [str] or [None]. *)
Definition int (x : option string) : result Z :=
  match x with
  | Some s => int_of_str s
  | None => Raise TypeError
  end.

End PyStr.

(* ================================================================== *)
(** ** [datetime.datetime] *)

Module Datetime.

Record datetime : Type := mkDatetime {
  year : Z; month : Z; day : Z;
  hour : Z; minute : Z; second : Z; microsecond : Z
}.

Definition MINYEAR : Z := 1.
Definition MAXYEAR : Z := 9999.

Definition is_leap (y : Z) : bool :=
  ((y mod 4 =? 0) && (negb (y mod 100 =? 0) || (y mod 400 =? 0)))%bool.

Definition days_in_month (y m : Z) : Z :=
  if (m =? 2) then (if is_leap y then 29 else 28)
  else if ((m =? 4) || (m =? 6) || (m =? 9) || (m =? 11))%bool then 30
  else 31.

Definition in_range (lo x hi : Z) : bool := ((lo <=? x) && (x <=? hi))%bool.

(** The constructor's field checks; a field out of range is a [ValueError]. *)
Definition valid_fields (y m d h mi s us : Z) : bool :=
  (in_range MINYEAR y MAXYEAR && in_range 1 m 12
   && in_range 1 d (days_in_month y m)
   && in_range 0 h 23 && in_range 0 mi 59 && in_range 0 s 59
   && in_range 0 us 999999)%bool.

Definition new (y m d h mi s us : Z) : result datetime :=
  if valid_fields y m d h mi s us
  then Ok (mkDatetime y m d h mi s us)
  else Raise ValueError.

(** [datetime.datetime.min] *)
Definition min : datetime := mkDatetime 1 1 1 0 0 0 0.

Definition fields (t : datetime) : list Z :=
  [year t; month t; day t; hour t; minute t; second t; microsecond t].

(** Comparison is that of the field tuples. *)
Fixpoint cmp_fields (a b : list Z) : comparison :=
  match a, b with
  | x :: a', y :: b' =>
      match x ?= y with
      | Eq => cmp_fields a' b'
      | c => c
      end
  | [], [] => Eq
  | [], _ :: _ => Lt
  | _ :: _, [] => Gt
  end.

Definition cmp (a b : datetime) : comparison := cmp_fields (fields a) (fields b).

Definition ltb (a b : datetime) : bool :=
  match cmp a b with Lt => true | _ => false end.

Definition leb (a b : datetime) : bool := negb (ltb b a).

Definition eqb (a b : datetime) : bool :=
  match cmp a b with Eq => true | _ => false end.

(** Days before January 1st of year [y], before the first of month [m], and
    the proleptic ordinal of a date, as in [datetime._ymd2ord]. *)
Definition days_before_year (y : Z) : Z :=
  let p := y - 1 in p * 365 + p / 4 - p / 100 + p / 400.

Fixpoint days_before_month_nat (y : Z) (m : nat) : Z :=
  match m with
  | O => 0
  | S m' => days_before_month_nat y m' + days_in_month y (Z.of_nat m)
  end.

Definition days_before_month (y m : Z) : Z :=
  days_before_month_nat y (Z.to_nat (m - 1)).

Definition ymd2ord (y m d : Z) : Z :=
  days_before_year y + days_before_month y m + d.

(** Microseconds since the start of day 0: the number line on which
    [timedelta] arithmetic takes place. *)
Definition to_microseconds (t : datetime) : Z :=
  (((ymd2ord (year t) (month t) (day t) * 24 + hour t) * 60 + minute t) * 60
   + second t) * 1000000 + microsecond t.

Definition valid (t : datetime) : bool :=
  valid_fields (year t) (month t) (day t) (hour t) (minute t) (second t)
    (microsecond t).

End Datetime.

Abbreviation datetime := Datetime.datetime.

(* ================================================================== *)
(** ** The [re] module, as the processor uses it *)

Record re_flags : Type := mkFlags { DOTALL : bool; IGNORECASE : bool }.

Definition no_flags : re_flags := mkFlags false false.
Definition flag_DOTALL : re_flags := mkFlags true false.
Definition flag_IGNORECASE : re_flags := mkFlags false true.

(** A match object: its span, [group(0)] and the list behind [groups()],
    in which a group that took no part in the match is [None]. *)
Record re_match : Type := mkMatch {
  m_start : nat;
  m_end : nat;
  m_group0 : string;
  m_groups : list (option string)
}.

(** The part of [re] the processor calls.  [re_compile] is [None] where
    [re.compile] raises [re.error]. *)
Class ReModule : Type := {
  re_pattern : Type;
  re_compile : string -> re_flags -> option re_pattern;
  pattern_search : re_pattern -> string -> option re_match;
  pattern_finditer : re_pattern -> string -> list re_match
}.

(** [re.search(pattern, s)] with the pattern given as text. *)
Definition re_search `{ReModule} (pattern : string) (s : string)
  : result (option re_match) :=
  match re_compile pattern no_flags with
  | Some p => Ok (pattern_search p s)
  | None => Raise ReError
  end.

(** [match.group(1)] *)
Definition group1 (m : re_match) : result (option string) :=
  match m_groups m with
  | g :: _ => Ok g
  | [] => Raise IndexError
  end.

(** The [.strip()] method applied to a value that may be [None]. *)
Definition strip_method (x : option string) : result string :=
  match x with
  | Some s => Ok (PyStr.strip s)
  | None => Raise AttributeError
  end.

(* ================================================================== *)
(** ** A backtracking regular-expression engine

    An instance of [ReModule] that follows CPython's [re]: the parser
    follows [sre_parse] and the matcher tries alternatives in the order of
    the [sre] virtual machine (left branch first, greedy repeats longest
    first, lazy repeats shortest first).

    Supported syntax: literals, [.], [^], [$], the escapes [\d \D \s \S \w
    \W \A \Z \a \f \n \r \t \v] and escaped punctuation, character sets
    with ranges, negation and class escapes, capturing groups, [(?:...)],
    the lookaheads [(?=...)] and [(?!...)], alternation, and the repeats
    [* + ? {m} {m,} {,n} {m,n}] (bounds up to 9999) with their
    lazy forms.  Everything else (back-references, named groups,
    look-behind, inline flags, [\b], possessive repeats, numeric escapes)
    is outside the engine: [compile] answers [None] there. *)

Module Sre.

Inductive category : Type := Digit | Space | Word.

Inductive set_item : Type :=
| SChar (c : ascii)
| SRange (lo hi : ascii)
| SCategory (negate : bool) (k : category).

Inductive at_code : Type :=
| AT_BEGINNING           (* ^ *)
| AT_BEGINNING_STRING    (* \A *)
| AT_END                 (* $ *)
| AT_END_STRING.         (* \Z *)

Inductive regex : Type :=
| Empty
| Literal (c : ascii)
| AnyChar
| InSet (negate : bool) (items : list set_item)
| At (a : at_code)
| Seq (r1 r2 : regex)
| Branch (r1 r2 : regex)
| Repeat (lo : nat) (hi : option nat) (greedy : bool) (r : regex)
| Subpattern (group : nat) (r : regex)
| Assert (positive : bool) (r : regex).

(** *** Parsing *)

Definition is_ascii_alnum (c : ascii) : bool :=
  (PyStr.between 48 57 c || PyStr.between 65 90 c || PyStr.between 97 122 c)%bool.

Definition category_escape (c : ascii) : option set_item :=
  if Ascii.eqb c "d" then Some (SCategory false Digit)
  else if Ascii.eqb c "D" then Some (SCategory true Digit)
  else if Ascii.eqb c "s" then Some (SCategory false Space)
  else if Ascii.eqb c "S" then Some (SCategory true Space)
  else if Ascii.eqb c "w" then Some (SCategory false Word)
  else if Ascii.eqb c "W" then Some (SCategory true Word)
  else None.

(** The control-character escapes; [\b] is a backspace inside a set only. *)
Definition char_escape (in_set : bool) (c : ascii) : option ascii :=
  if Ascii.eqb c "a" then Some (ascii_of_N 7)
  else if (in_set && Ascii.eqb c "b")%bool then Some (ascii_of_N 8)
  else if Ascii.eqb c "f" then Some (ascii_of_N 12)
  else if Ascii.eqb c "n" then Some (ascii_of_N 10)
  else if Ascii.eqb c "r" then Some (ascii_of_N 13)
  else if Ascii.eqb c "t" then Some (ascii_of_N 9)
  else if Ascii.eqb c "v" then Some (ascii_of_N 11)
  else if is_ascii_alnum c then None
  else Some c.

(** [_class_escape]: the character after a backslash inside a set. *)
Definition class_escape (c : ascii) : option set_item :=
  match category_escape c with
  | Some i => Some i
  | None => option_map SChar (char_escape true c)
  end.

(** [_escape]: the character after a backslash outside a set. *)
Definition escape (c : ascii) : option regex :=
  match category_escape c with
  | Some i => Some (InSet false [i])
  | None =>
      if Ascii.eqb c "A" then Some (At AT_BEGINNING_STRING)
      else if Ascii.eqb c "Z" then Some (At AT_END_STRING)
      else option_map Literal (char_escape false c)
  end.

(** One member of a set: [None] is an error. *)
Definition set_member (s : string) : option (set_item * string) :=
  match s with
  | EmptyString => None
  | String "\" EmptyString => None
  | String "\" (String c r) => option_map (fun i => (i, r)) (class_escape c)
  | String c r => Some (SChar c, r)
  end.

(** The body of a set, after ["["] and an optional ["^"]. *)
Fixpoint p_set (fuel : nat) (s : string) (acc : list set_item)
  : option (list set_item * string) :=
  match fuel with
  | O => None
  | S fuel' =>
      match s, acc with
      | EmptyString, _ => None
      | String "]" r, _ :: _ => Some (rev acc, r)
      | _, _ =>
          match set_member s with
          | None => None
          | Some (code1, r1) =>
              match r1 with
              | String "-" EmptyString => None
              | String "-" (String "]" r3) =>
                  Some (rev (SChar "-" :: code1 :: acc), r3)
              | String "-" r2 =>
                  match set_member r2 with
                  | Some (SChar hi, r3) =>
                      match code1 with
                      | SChar lo =>
                          if N.leb (PyStr.ord lo) (PyStr.ord hi)
                          then p_set fuel' r3 (SRange lo hi :: acc)
                          else None
                      | _ => None
                      end
                  | _ => None
                  end
              | _ => p_set fuel' r1 (code1 :: acc)
              end
          end
      end
  end.

(** Decimal digits at the head of a string. *)
Fixpoint digits (s : string) : string * string :=
  match s with
  | String c r =>
      if PyStr.isdecimal c
      then let '(d, rest) := digits r in (String c d, rest)
      else (EmptyString, s)
  | EmptyString => (EmptyString, s)
  end.

Fixpoint N_of_digits (acc : N) (s : string) : N :=
  match s with
  | String c r => N_of_digits (10 * acc + (PyStr.ord c - 48))%N r
  | EmptyString => acc
  end.

(** The largest repeat bound the engine takes. *)
Definition max_bound : N := 9999.

Inductive brace : Type :=
| NotRepeat                                   (* the "{" is a literal *)
| BraceError
| Bounds (lo : nat) (hi : option nat) (rest : string).

(** What follows a ["{"]. *)
Definition p_brace (s : string) : brace :=
  match s with
  | String "}" _ => NotRepeat
  | _ =>
      let '(lo, r1) := digits s in
      let '(hi, has_hi, r2) :=
        match r1 with
        | String "," r => let '(h, r') := digits r in (h, negb (PyStr.is_empty h), r')
        | _ => (lo, negb (PyStr.is_empty lo), r1)
        end in
      match r2 with
      | String "}" r3 =>
          let m := N_of_digits 0 lo in
          let n := N_of_digits 0 hi in
          if (N.ltb max_bound m || N.ltb max_bound n)%bool then BraceError
          else if has_hi
               then (if N.ltb n m then BraceError
                     else Bounds (N.to_nat m) (Some (N.to_nat n)) r3)
               else Bounds (N.to_nat m) None r3
      | _ => NotRepeat
      end
  end.

Definition is_repeat_char (c : ascii) : bool :=
  (Ascii.eqb c "*" || Ascii.eqb c "+" || Ascii.eqb c "?")%bool.

(** Is a repeat operator next?  After a repeat this is "multiple repeat". *)
Definition repeat_follows (s : string) : bool :=
  match s with
  | String "{" r => match p_brace r with NotRepeat => false | _ => true end
  | String c _ => is_repeat_char c
  | EmptyString => false
  end.

(** The repeat operator after an item, if any. *)
Definition p_repeat (item : regex) (s : string) : option (regex * string) :=
  let bounds :=
    match s with
    | String "*" r => Bounds 0 None r
    | String "+" r => Bounds 1 None r
    | String "?" r => Bounds 0 (Some 1%nat) r
    | String "{" r => p_brace r
    | _ => NotRepeat
    end in
  match bounds with
  | NotRepeat => Some (item, s)
  | BraceError => None
  | Bounds lo hi r =>
      match item with
      | At _ => None                          (* nothing to repeat *)
      | _ =>
          let '(greedy, r') :=
            match r with
            | String "?" r' => (false, r')
            | _ => (true, r)
            end in
          if repeat_follows r' then None
          else Some (Repeat lo hi greedy item, r')
      end
  end.

Definition presult : Type := option (regex * string * nat).

Definition close_paren (wrap : regex -> regex) (p : presult) : presult :=
  match p with
  | Some (body, String ")" r, g) => Some (wrap body, r, g)
  | _ => None                     (* missing ), unterminated subpattern *)
  end.

Definition with_repeat (p : presult) : presult :=
  match p with
  | Some (item, r, g) =>
      match p_repeat item r with
      | Some (item', r') => Some (item', r', g)
      | None => None
      end
  | None => None
  end.

(** [_parse_sub] (alternatives), [_parse] (a sequence, up to ["|"], [")"]
    or the end) and one item with its repeat.  [g] counts the capturing
    groups opened so far. *)
Fixpoint p_sub (fuel : nat) (s : string) (g : nat) {struct fuel} : presult :=
  match fuel with
  | O => None
  | S fuel' =>
      match p_seq fuel' s g with
      | Some (r1, String "|" s2, g1) =>
          match p_sub fuel' s2 g1 with
          | Some (r2, s3, g2) => Some (Branch r1 r2, s3, g2)
          | None => None
          end
      | other => other
      end
  end
with p_seq (fuel : nat) (s : string) (g : nat) {struct fuel} : presult :=
  match fuel with
  | O => None
  | S fuel' =>
      match s with
      | EmptyString => Some (Empty, s, g)
      | String "|" _ => Some (Empty, s, g)
      | String ")" _ => Some (Empty, s, g)
      | _ =>
          match p_item fuel' s g with
          | Some (r1, s1, g1) =>
              match p_seq fuel' s1 g1 with
              | Some (r2, s2, g2) => Some (Seq r1 r2, s2, g2)
              | None => None
              end
          | None => None
          end
      end
  end
with p_item (fuel : nat) (s : string) (g : nat) {struct fuel} : presult :=
  match fuel with
  | O => None
  | S fuel' =>
      with_repeat
        match s with
        | EmptyString => None
        | String "\" EmptyString => None
        | String "\" (String c r) => option_map (fun a => (a, r, g)) (escape c)
        | String "[" (String "^" r) =>
            option_map (fun '(items, r') => (InSet true items, r', g))
                       (p_set (S (String.length r)) r [])
        | String "[" r =>
            option_map (fun '(items, r') => (InSet false items, r', g))
                       (p_set (S (String.length r)) r [])
        | String "{" r =>
            match p_brace r with
            | NotRepeat => Some (Literal "{", r, g)
            | _ => None                       (* nothing to repeat *)
            end
        | String "." r => Some (AnyChar, r, g)
        | String "^" r => Some (At AT_BEGINNING, r, g)
        | String "$" r => Some (At AT_END, r, g)
        | String "(" (String "?" (String ":" r)) =>
            close_paren (fun b => Seq b Empty) (p_sub fuel' r g)
        | String "(" (String "?" (String "=" r)) =>
            close_paren (Assert true) (p_sub fuel' r g)
        | String "(" (String "?" (String "!" r)) =>
            close_paren (Assert false) (p_sub fuel' r g)
        | String "(" (String "?" _) => None
        | String "(" r => close_paren (Subpattern (S g)) (p_sub fuel' r (S g))
        | String c r =>
            if is_repeat_char c then None     (* nothing to repeat *)
            else Some (Literal c, r, g)
        end
  end.

(** [sre_parse.parse]: text left over can only be an unbalanced [")"]. *)
Definition parse (s : string) : option (regex * nat) :=
  match p_sub (4 * String.length s + 8) s 0 with
  | Some (r, EmptyString, g) => Some (r, g)
  | _ => None
  end.

(** *** Matching *)

Definition in_category (k : category) (c : ascii) : bool :=
  match k with
  | Digit => PyStr.isdecimal c
  | Space => PyStr.isspace c
  | Word => (PyStr.isalnum c || Ascii.eqb c "_")%bool
  end.

Definition in_item (c : ascii) (i : set_item) : bool :=
  match i with
  | SChar d => Ascii.eqb c d
  | SRange lo hi => PyStr.between (PyStr.ord lo) (PyStr.ord hi) c
  | SCategory negate k => xorb negate (in_category k c)
  end.

Definition in_items (items : list set_item) (c : ascii) : bool :=
  existsb (in_item c) items.

(** Under [IGNORECASE] a character matches when it or one of its case
    variants does. *)
Definition literal_matches (fl : re_flags) (p c : ascii) : bool :=
  if IGNORECASE fl
  then Ascii.eqb (PyStr.lower_char p) (PyStr.lower_char c)
  else Ascii.eqb p c.

Definition set_matches (fl : re_flags) (negate : bool) (items : list set_item)
  (c : ascii) : bool :=
  xorb negate
    (if IGNORECASE fl
     then (in_items items c || in_items items (PyStr.lower_char c)
           || in_items items (PyStr.upper_char c))%bool
     else in_items items c).

Definition any_matches (fl : re_flags) (c : ascii) : bool :=
  (DOTALL fl || negb (Ascii.eqb c PyStr.LF))%bool.

(** The state of a match attempt: the text still ahead, the number of
    characters taken since the attempt began, and the groups closed so
    far, latest first. *)
Record mstate : Type := mkState {
  rest : string;
  pos : nat;
  caps : list (nat * string)
}.

Definition step_char (ok : ascii -> bool) (st : mstate)
  (k : mstate -> option mstate) : option mstate :=
  match rest st with
  | String c r => if ok c then k (mkState r (S (pos st)) (caps st)) else None
  | EmptyString => None
  end.

(** [origin] is the position in the whole text at which the attempt
    began. *)
Definition at_holds (origin : nat) (a : at_code) (st : mstate) : bool :=
  match a with
  | AT_BEGINNING | AT_BEGINNING_STRING => Nat.eqb (origin + pos st) 0
  | AT_END =>
      match rest st with
      | EmptyString => true
      | String c EmptyString => Ascii.eqb c PyStr.LF
      | _ => false
      end
  | AT_END_STRING => PyStr.is_empty (rest st)
  end.

Definition below (hi : option nat) (cnt : nat) : bool :=
  match hi with
  | Some h => Nat.ltb cnt h
  | None => true
  end.

Definition or_else (a : option mstate) (b : unit -> option mstate) : option mstate :=
  match a with
  | Some x => Some x
  | None => b tt
  end.

(** The loop of a repeat, given the matcher [body] of the repeated item.
    [cnt] iterations are done; further iterations are tried before or after
    stopping, as the repeat is greedy or lazy.  Once [lo] is reached, an
    iteration that takes no character ends the loop.  [fuel] bounds the
    iterations and is never exhausted from [lo + length + 1]. *)
Fixpoint repeat_loop (lo : nat) (hi : option nat) (greedy : bool)
  (body : mstate -> (mstate -> option mstate) -> option mstate)
  (k : mstate -> option mstate) (fuel cnt : nat) (st : mstate) {struct fuel}
  : option mstate :=
  match fuel with
  | O => None
  | S fuel' =>
      let again := fun _ : unit =>
        if below hi cnt
        then body st (fun st' =>
               if (Nat.leb lo (S cnt) && Nat.eqb (pos st') (pos st))%bool
               then k st'
               else repeat_loop lo hi greedy body k fuel' (S cnt) st')
        else None in
      let stop := fun _ : unit =>
        if Nat.leb lo cnt then k st else None in
      if greedy then or_else (again tt) stop else or_else (stop tt) again
  end.

(** [m fl origin r st k]: match [r] at [st] and hand every way of doing
    so, in priority order, to the continuation [k] until one is accepted. *)
Fixpoint m (fl : re_flags) (origin : nat) (r : regex) (st : mstate)
  (k : mstate -> option mstate) {struct r} : option mstate :=
  match r with
  | Empty => k st
  | Literal c => step_char (literal_matches fl c) st k
  | AnyChar => step_char (any_matches fl) st k
  | InSet negate items => step_char (set_matches fl negate items) st k
  | At a => if at_holds origin a st then k st else None
  | Seq r1 r2 => m fl origin r1 st (fun st' => m fl origin r2 st' k)
  | Branch r1 r2 => or_else (m fl origin r1 st k) (fun _ => m fl origin r2 st k)
  | Subpattern g r1 =>
      m fl origin r1 st (fun st' =>
        k (mkState (rest st') (pos st')
             ((g, PyStr.take (pos st' - pos st) (rest st)) :: caps st')))
  | Assert positive r1 =>
      match m fl origin r1 st Some with
      | Some st' => if positive then k (mkState (rest st) (pos st) (caps st')) else None
      | None => if positive then None else k st
      end
  | Repeat lo hi greedy r1 =>
      repeat_loop lo hi greedy (m fl origin r1) k
        (lo + String.length (rest st) + 1)%nat 0%nat st
  end.

(** A compiled pattern. *)
Record pattern : Type := mkPattern {
  p_regex : regex;
  p_groups : nat;
  p_flags : re_flags
}.

Definition compile (text : string) (fl : re_flags) : option pattern :=
  match parse text with
  | Some (r, g) => Some (mkPattern r g fl)
  | None => None
  end.

Fixpoint lookup (g : nat) (cs : list (nat * string)) : option string :=
  match cs with
  | [] => None
  | (g', s) :: cs' => if Nat.eqb g g' then Some s else lookup g cs'
  end.

Definition build_match (p : pattern) (s : string) (start : nat) (st : mstate)
  : re_match :=
  mkMatch start (pos st + start) (PyStr.take (pos st) s)
          (map (fun g => lookup g (caps st)) (seq 1 (p_groups p))).

(** One attempt at position [start], where [s] is the text from there on.
    [must_advance] refuses an empty match. *)
Definition match_at (p : pattern) (s : string) (start : nat) (must_advance : bool)
  : option re_match :=
  option_map (build_match p s start)
    (m (p_flags p) start (p_regex p) (mkState s 0 [])
       (fun st => if (must_advance && Nat.eqb (pos st) 0)%bool
                  then None else Some st)).

(** The leftmost match at or after [start]. *)
Fixpoint search_from (p : pattern) (s : string) (start : nat) (must_advance : bool)
  : option re_match :=
  match match_at p s start must_advance with
  | Some mt => Some mt
  | None =>
      match s with
      | EmptyString => None
      | String _ s' => search_from p s' (S start) false
      end
  end.

Definition search (p : pattern) (s : string) : option re_match :=
  search_from p s 0 false.

(** The successive non-overlapping matches; after an empty match the next
    one must advance. *)
Fixpoint finditer_from (fuel : nat) (p : pattern) (s : string) (start : nat)
  (must_advance : bool) : list re_match :=
  match fuel with
  | O => []
  | S fuel' =>
      match search_from p s start must_advance with
      | None => []
      | Some mt =>
          mt :: finditer_from fuel' p (PyStr.drop (m_end mt - start) s) (m_end mt)
                  (Nat.eqb (m_end mt) (m_start mt))
      end
  end.

Definition finditer (p : pattern) (s : string) : list re_match :=
  finditer_from (2 * String.length s + 2) p s 0 false.

End Sre.

#[export] Instance sre_module : ReModule := {
  re_pattern := Sre.pattern;
  re_compile := Sre.compile;
  pattern_search := Sre.search;
  pattern_finditer := Sre.finditer
}.

(* ================================================================== *)
(** ** [app/utils.py] *)

Record LogEntry : Type := mkLogEntry {
  content : string;
  timestamp : option datetime;
  source_file : string;
  time_str : string
}.

Definition month_map : list (string * Z) :=
  [("Jan", 1); ("Feb", 2); ("Mar", 3); ("Apr", 4); ("May", 5); ("Jun", 6);
   ("Jul", 7); ("Aug", 8); ("Sep", 9); ("Oct", 10); ("Nov", 11); ("Dec", 12)].

(** [d.get(key, default)] on a table with [str] keys; the key may be [None]. *)
Definition dict_get (d : list (string * Z)) (key : option string) (default : Z) : Z :=
  match key with
  | Some k =>
      match find (fun kv => String.eqb (fst kv) k) d with
      | Some kv => snd kv
      | None => default
      end
  | None => default
  end.

Section Utils.

Context `{RE : ReModule}.

(** The body of the [try] block of [parse_log_time]. *)
Definition parse_log_time_try (time_str time_regex_pattern : string)
  : result (option datetime) :=
  mt <- re_search time_regex_pattern time_str ;;
  match mt with
  | Some mt =>
      match m_groups mt with
      | [month_str; day; hour; minute; second; millisecond; year] =>
          let month := dict_get month_map month_str 1 in
          y <- PyStr.int year ;;
          d <- PyStr.int day ;;
          h <- PyStr.int hour ;;
          mi <- PyStr.int minute ;;
          s <- PyStr.int second ;;
          ms <- PyStr.int millisecond ;;
          dt <- Datetime.new y month d h mi s (ms * 1000) ;;
          Ok (Some dt)
      | _ => Raise ValueError      (* unpacking a tuple of another length *)
      end
  | None => Ok None
  end.

(** [except Exception: return None] *)
Definition parse_log_time (time_str time_regex_pattern : string) : option datetime :=
  match parse_log_time_try time_str time_regex_pattern with
  | Ok r => r
  | Raise _ => None
  end.

End Utils.

(* ================================================================== *)
(** ** [app/log_processor.py] *)

(** An [io.BytesIO]: open on its bytes, or closed, in which case [seek]
    raises. *)
Inductive BytesIO : Type :=
| BytesIO_open (raw : list byte)
| BytesIO_closed.

(** What the processor takes from the installation it runs on.
    [charset_normalizer_best raw] is [from_bytes(raw).best()] turned into
    text: [Raise] when the package is missing or detection fails, [Ok None]
    when there is no best match.  [chardet_decode raw] is [chardet.detect]
    followed by [raw.decode(enc, errors='replace')]: [Ok None] when no
    encoding is detected.  [bytes_decode enc raw] is the strict
    [raw.decode(enc)]: [None] on a [UnicodeDecodeError]. *)
Class Environment : Type := {
  os_cpu_count : option nat;
  charset_normalizer_best : list byte -> result (option string);
  chardet_decode : list byte -> result (option string);
  bytes_decode : string -> list byte -> option string
}.

Record LogProcessor : Type := mkLogProcessor {
  LOG_REGEX_PATTERN : string;
  TIME_REGEX_PATTERN : string
}.

(** [x or y] on strings. *)
Definition str_or (x y : string) : string :=
  if PyStr.is_empty x then y else x.

Definition is_nil {A : Type} (l : list A) : bool :=
  match l with [] => true | _ :: _ => false end.

Definition is_some {A : Type} (x : option A) : bool :=
  match x with Some _ => true | None => false end.

(** The sort key of [process_log_files]. *)
Definition sort_key (x : LogEntry) : datetime :=
  match timestamp x with
  | Some t => t
  | None => Datetime.min
  end.

(** [list.sort(key=...)] is a stable sort that compares keys with [<]
    only.  The stably sorted arrangement of a list is unique, so the
    insertion sort below returns what the library routine returns. *)
Section ListSort.

Context {A : Type} (key : A -> datetime).

Fixpoint insert_sorted (x : A) (l : list A) : list A :=
  match l with
  | [] => [x]
  | y :: l' =>
      if Datetime.ltb (key y) (key x) then y :: insert_sorted x l' else x :: l
  end.

Fixpoint list_sort (l : list A) : list A :=
  match l with
  | [] => []
  | x :: l' => insert_sorted x (list_sort l')
  end.

End ListSort.

Definition encodings : list string :=
  ["utf-8"; "gbk"; "gb2312"; "big5"; "utf-16"; "utf-16le"; "utf-16be"; "latin1"].

(** The batched accumulation of [filter_logs_by_keywords]: the loop state is
    the pair ([filtered_logs], [batch]). *)
Definition batch_step (batch_size : Z) (keep : LogEntry -> bool)
  (st : list LogEntry * list LogEntry) (log : LogEntry)
  : list LogEntry * list LogEntry :=
  let '(filtered_logs, batch) := st in
  let batch := if keep log then batch ++ [log] else batch in
  if batch_size <=? Z.of_nat (List.length batch)
  then (filtered_logs ++ batch, [])
  else (filtered_logs, batch).

Definition batched (batch_size : Z) (keep : LogEntry -> bool)
  (logs : list LogEntry) : list LogEntry :=
  let '(filtered_logs, batch) := fold_left (batch_step batch_size keep) logs ([], []) in
  filtered_logs ++ batch.

(** The reference accumulation: one pass that appends each matching entry
    directly to the one output list. *)
Definition single_pass (keep : LogEntry -> bool) (logs : list LogEntry)
  : list LogEntry :=
  fold_left (fun out log => if keep log then out ++ [log] else out) logs [].

Definition metachar_pattern : string := "[.*+?^${}()|[\]\\]".

Section Processor.

Context `{RE : ReModule} `{ENV : Environment}.

Variable self : LogProcessor.

Definition extract_log_info (log_entry source_file : string) : result LogEntry :=
  time_match <- re_search (TIME_REGEX_PATTERN self) log_entry ;;
  match time_match with
  | Some mt =>
      let time_str := m_group0 mt in
      let timestamp := parse_log_time time_str (TIME_REGEX_PATTERN self) in
      Ok (mkLogEntry log_entry timestamp source_file time_str)
  | None => Ok (mkLogEntry log_entry None source_file "")
  end.

(** [try: re.compile(text, flags) except re.error: re.compile(default, flags)] *)
Definition compile_or_default (text default : string) (fl : re_flags)
  : result re_pattern :=
  match re_compile text fl with
  | Some p => Ok p
  | None =>
      match re_compile default fl with
      | Some p => Ok p
      | None => Raise ReError
      end
  end.

(** The generator, run to its end.  The two arguments after [content] are
    the texts of the two pattern editors. *)
Definition parse_log_entries (content log_regex_edit time_regex_edit : string)
  : result (list string) :=
  let content := PyStr.replace_crlf content in
  log_pattern <-
    compile_or_default (str_or (PyStr.strip log_regex_edit) (LOG_REGEX_PATTERN self))
      (LOG_REGEX_PATTERN self) flag_DOTALL ;;
  time_pattern <-
    compile_or_default (str_or (PyStr.strip time_regex_edit) (TIME_REGEX_PATTERN self))
      (TIME_REGEX_PATTERN self) no_flags ;;
  entries <- mapM (fun mt => g <- group1 mt ;; strip_method g)
                  (pattern_finditer log_pattern content) ;;
  Ok (filter (fun entry => negb (PyStr.is_empty entry)) entries).

(** The three decoding stages of [process_file_content]. *)
Fixpoint decode_first (encs : list string) (raw : list byte) : option string :=
  match encs with
  | [] => None
  | encoding :: encs' =>
      match bytes_decode encoding raw with
      | Some text => Some text
      | None => decode_first encs' raw
      end
  end.

Definition decode_content (raw : list byte) : option string :=
  let detected :=
    match charset_normalizer_best raw with
    | Ok best => best
    | Raise _ =>
        match chardet_decode raw with
        | Ok text => text
        | Raise _ => None
        end
    end in
  match detected with
  | Some text => Some text
  | None => decode_first encodings raw
  end.

(** The loop over the entries of one file: an entry whose extraction
    raises is skipped. *)
Definition extract_all (entries : list string) (file_name : string) : list LogEntry :=
  flat_map (fun entry =>
              match extract_log_info entry file_name with
              | Ok log_info => [log_info]
              | Raise _ => []
              end) entries.

(** One worker task.  On a closed stream [seek] raises, [content] stays
    [None], and the error message then reads the local [encodings], which
    was never assigned: the task ends in that exception. *)
Definition process_file_content (file_obj : BytesIO) (file_name : string)
  (log_regex_edit time_regex_edit : string) : result (list LogEntry * string) :=
  match file_obj with
  | BytesIO_closed => Raise UnboundLocalError
  | BytesIO_open raw =>
      match decode_content raw with
      | None => Ok ([], file_name)
      | Some text =>
          entries <- parse_log_entries text log_regex_edit time_regex_edit ;;
          Ok (extract_all entries file_name, file_name)
      end
  end.

(** Collecting one future's result, in submission order. *)
Definition collect (acc : list LogEntry * list string)
  (future : result (list LogEntry * string)) : list LogEntry * list string :=
  let '(all_logs, failed_files) := acc in
  match future with
  | Ok (result_logs, file_name) =>
      if is_nil result_logs
      then (all_logs, failed_files ++ [file_name])
      else (all_logs ++ result_logs, failed_files)
  | Raise _ => acc
  end.

Definition max_workers (uploaded_files : list BytesIO) : nat :=
  Nat.min (match os_cpu_count with
           | Some (S n) => S n
           | _ => 1%nat
           end)
          (List.length uploaded_files).

(** [process_log_files] without a progress callback.  The executor refuses
    [max_workers = 0] with a [ValueError]. *)
Definition process_log_files (uploaded_files : list BytesIO)
  (file_names : list string) (log_regex_edit time_regex_edit : string)
  : result (list LogEntry * list string) :=
  if Nat.eqb (max_workers uploaded_files) 0 then Raise ValueError
  else
    let futures :=
      map (fun '(file_obj, file_name) =>
             process_file_content file_obj file_name log_regex_edit time_regex_edit)
          (combine uploaded_files file_names) in
    let '(all_logs, failed_files) := fold_left collect futures ([], []) in
    Ok (list_sort sort_key all_logs, failed_files).

Definition before (bound : option datetime) (t : datetime) : bool :=
  match bound with
  | Some b => Datetime.ltb t b
  | None => false
  end.

Definition after (bound : option datetime) (t : datetime) : bool :=
  match bound with
  | Some b => Datetime.ltb b t
  | None => false
  end.

Definition filter_logs_by_time_range (logs : list LogEntry)
  (start_time end_time : option datetime) : list LogEntry :=
  fold_left
    (fun result log =>
       match timestamp log with
       | None => result
       | Some t =>
           if before start_time t then result
           else if after end_time t then result
           else result ++ [log]
       end)
    logs [].

(** [filter_logs_by_keywords], with the way matches are accumulated left
    open. *)
Definition filter_logs_by_keywords_with
  (accumulate : (LogEntry -> bool) -> list LogEntry -> list LogEntry)
  (logs : list LogEntry) (keywords : list string) : result (list LogEntry) :=
  if is_nil keywords then Ok logs
  else
    let valid_keywords :=
      map PyStr.strip (filter (fun k => negb (PyStr.is_empty (PyStr.strip k))) keywords) in
    if is_nil valid_keywords then Ok logs
    else
      has_regex_chars <-
        anyM (fun k => mt <- re_search metachar_pattern k ;; Ok (is_some mt))
             valid_keywords ;;
      if has_regex_chars
      then
        match re_compile (PyStr.join "|" valid_keywords) flag_IGNORECASE with
        | Some combined_pattern =>
            Ok (accumulate
                  (fun log => is_some (pattern_search combined_pattern (content log)))
                  logs)
        | None =>
            patterns <-
              mapM (fun k => match re_compile k flag_IGNORECASE with
                             | Some p => Ok p
                             | None => Raise ReError
                             end) valid_keywords ;;
            Ok (accumulate
                  (fun log =>
                     existsb (fun p => is_some (pattern_search p (content log))) patterns)
                  logs)
        end
      else
        let lowercase_keywords := map PyStr.lower valid_keywords in
        Ok (accumulate
              (fun log =>
                 existsb (fun keyword => PyStr.contains keyword (PyStr.lower (content log)))
                         lowercase_keywords)
              logs).

Definition batch_size : Z := 10000.

Definition filter_logs_by_keywords : list LogEntry -> list string -> result (list LogEntry) :=
  filter_logs_by_keywords_with (batched batch_size).

(** The single-pass reference of the keyword filter. *)
Definition filter_logs_by_keywords_reference
  : list LogEntry -> list string -> result (list LogEntry) :=
  filter_logs_by_keywords_with single_pass.

End Processor.

(* ================================================================== *)
(** ** [app/main_window.py]: the built-in patterns *)

Module LogAnalyzerApp.

Definition LOG_REGEX_PATTERN : string := "(%@\d+%[\s\S]*?(?=%@\d+%|\Z))".

Definition TIME_REGEX_PATTERN : string :=
  "(\w+)\s+(\d{1,2})\s+(\d{1,2}):(\d{1,2}):(\d{1,2}):(\d{1,3})\s+(\d{4})".

Definition log_processor : LogProcessor :=
  mkLogProcessor LOG_REGEX_PATTERN TIME_REGEX_PATTERN.

End LogAnalyzerApp.

(** An installation without [charset_normalizer] and [chardet], on four
    processors, for files made of ASCII bytes: there [utf-8], the first
    encoding of the list, decodes every byte to its own code point. *)
Definition is_ascii_byte (b : byte) : bool := N.ltb (Byte.to_N b) 128.

Definition text_of_bytes (raw : list byte) : string := string_of_list_byte raw.

#[export] Instance ascii_installation : Environment := {
  os_cpu_count := Some 4%nat;
  charset_normalizer_best := fun _ => Raise ImportError;
  chardet_decode := fun _ => Raise ImportError;
  bytes_decode := fun encoding raw =>
    if String.eqb encoding "latin1" then Some (text_of_bytes raw)
    else if (String.eqb encoding "utf-8" && forallb is_ascii_byte raw)%bool
         then Some (text_of_bytes raw)
         else None
}.

Definition bytes_of_text (s : string) : list byte := list_byte_of_string s.

(** A line feed, for writing texts. *)
Definition nl : string := String PyStr.LF EmptyString.

(* ================================================================== *)
(** ** Vocabulary of the statements *)

(** Ascending order under a key: the second element's key is not smaller
    than the first's.  [same_key key t l] is what [l] holds under the key
    [t], in the order of [l]. *)
Definition le_by {A : Type} (key : A -> datetime) (a b : A) : Prop :=
  Datetime.ltb (key b) (key a) = false.

Definition same_key {A : Type} (key : A -> datetime) (t : datetime) (l : list A)
  : list A :=
  filter (fun e => Datetime.eqb (key e) t) l.

(** Ascending order of the sort keys: no later element has a smaller key. *)
Definition key_le (a b : LogEntry) : Prop :=
  Datetime.ltb (sort_key b) (sort_key a) = false.

(** Every entry without a timestamp stands before every entry with one. *)
Definition absent_first (l : list LogEntry) : Prop :=
  forall i j a b,
    nth_error l i = Some a -> nth_error l j = Some b ->
    timestamp a = None -> timestamp b <> None -> (i < j)%nat.

(** Every entry without a timestamp stands before every entry whose
    timestamp is later than [datetime.min]. *)
Definition absent_before_later (l : list LogEntry) : Prop :=
  forall i j a b t,
    nth_error l i = Some a -> nth_error l j = Some b ->
    timestamp a = None -> timestamp b = Some t ->
    Datetime.ltb Datetime.min t = true -> (i < j)%nat.

(** The entries of [l] whose sort key is [t], in the order of [l]. *)
Definition with_key (t : datetime) (l : list LogEntry) : list LogEntry :=
  filter (fun e => Datetime.eqb (sort_key e) t) l.

(** The entries in arrival order: the results of the tasks, collected in
    the order the files were submitted, before the final sort. *)
Definition arrival `{RE : ReModule} `{ENV : Environment} (self : LogProcessor)
  (uploaded_files : list BytesIO) (file_names : list string)
  (log_regex_edit time_regex_edit : string) : list LogEntry * list string :=
  fold_left collect
    (map (fun '(file_obj, file_name) =>
            process_file_content self file_obj file_name log_regex_edit time_regex_edit)
         (combine uploaded_files file_names))
    ([], []).

(** What one file contributes, and whether it is reported as failed. *)
Definition entries_of `{RE : ReModule} `{ENV : Environment} (self : LogProcessor)
  (log_regex_edit time_regex_edit : string) (file : BytesIO * string)
  : list LogEntry :=
  match process_file_content self (fst file) (snd file) log_regex_edit time_regex_edit with
  | Ok (result_logs, _) => result_logs
  | Raise _ => []
  end.

Definition reported `{RE : ReModule} `{ENV : Environment} (self : LogProcessor)
  (log_regex_edit time_regex_edit : string) (file : BytesIO * string)
  : list string :=
  match process_file_content self (fst file) (snd file) log_regex_edit time_regex_edit with
  | Ok ([], file_name) => [file_name]
  | _ => []
  end.

(** The test of the time-range filter: a timestamp within the bounds that
    are present. *)
Definition in_time_range (start_time end_time : option datetime) (log : LogEntry)
  : bool :=
  match timestamp log with
  | None => false
  | Some t =>
      (match start_time with Some s => Datetime.leb s t | None => true end
       && match end_time with Some e => Datetime.leb t e | None => true end)%bool
  end.

(** The characters that switch the keyword filter to regex mode. *)
Definition metachars : list ascii :=
  ["."; "*"; "+"; "?"; "^"; "$"; "{"; "}"; "("; ")"; "|"; "["; "]"; "\"]%char.

Definition is_metachar (c : ascii) : bool := existsb (Ascii.eqb c) metachars.

Fixpoint has_metachar (s : string) : bool :=
  match s with
  | EmptyString => false
  | String c r => (is_metachar c || has_metachar r)%bool
  end.

(** The keywords that remain after trimming. *)
Definition trimmed (keywords : list string) : list string :=
  map PyStr.strip (filter (fun k => negb (PyStr.is_empty (PyStr.strip k))) keywords).

(** [k] occurs in [s] when case is ignored. *)
Definition occurs_ignoring_case (k s : string) : Prop :=
  exists pre mid post : string,
    s = (pre ++ mid ++ post)%string /\ PyStr.lower mid = PyStr.lower k.

(** The test of the keyword filter on a list without metacharacters. *)
Definition mentions (keywords : list string) (log : LogEntry) : bool :=
  existsb (fun k => PyStr.contains (PyStr.lower k) (PyStr.lower (content log)))
          (trimmed keywords).

(* ================================================================== *)
(** ** The calendar with the leap-year test taken out *)

Definition leap_day (y : Z) : Z := if Datetime.is_leap y then 1 else 0.

Definition month_length (leap : bool) (m : Z) : Z :=
  if (m =? 2) then (if leap then 29 else 28)
  else if ((m =? 4) || (m =? 6) || (m =? 9) || (m =? 11))%bool then 30
  else 31.

Fixpoint days_before (leap : bool) (m : nat) : Z :=
  match m with
  | O => 0
  | S m' => days_before leap m' + month_length leap (Z.of_nat m)
  end.

(* ================================================================== *)
(** ** Sample inputs *)

(** A file of two entries: the first is stamped with [datetime.min], the
    second has no timestamp. *)
Definition epoch_file : BytesIO :=
  BytesIO_open
    (bytes_of_text ("%@1%Jan 1 00:00:00:000 0001 boot" ++ nl ++ "%@2%no time here" ++ nl)%string).

Definition epoch_entry : LogEntry :=
  mkLogEntry "%@1%Jan 1 00:00:00:000 0001 boot" (Some Datetime.min) "a.log"
             "Jan 1 00:00:00:000 0001".

Definition untimed_entry : LogEntry :=
  mkLogEntry "%@2%no time here" None "a.log" "".

(** An upper bound, an entry stamped exactly on it, and one stamped a
    millisecond later. *)
Definition sample_bound : datetime := Datetime.mkDatetime 2025 5 31 23 59 0 0.

Definition on_the_bound : LogEntry :=
  mkLogEntry "%@7%May 31 23:59:00:000 2025 last" (Some sample_bound) "a.log"
             "May 31 23:59:00:000 2025".

Definition past_the_bound : LogEntry :=
  mkLogEntry "%@8%May 31 23:59:00:001 2025 late"
             (Some (Datetime.mkDatetime 2025 5 31 23 59 0 1000)) "a.log"
             "May 31 23:59:00:001 2025".

(** The built-in time pattern, compiled, and its match on a text whose day
    field is 32. *)
Definition day32_text : string := "May 32 10:20:30:123 2025".

Definition compiled_time_pattern : option Sre.pattern :=
  Eval vm_compute in Sre.compile LogAnalyzerApp.TIME_REGEX_PATTERN no_flags.

Definition day32_match : option re_match :=
  Eval vm_compute in
    match compiled_time_pattern with
    | Some p => Sre.search p day32_text
    | None => None
    end.

Definition day32_groups : list (option string) :=
  [Some "May"; Some "32"; Some "10"; Some "20"; Some "30"; Some "123"; Some "2025"].

(** An entry whose time text has that day field. *)
Definition day32_entry_text : string := "%@5%May 32 10:20:30:123 2025 boot".

(** A time text whose month name is not in the table, and its groups. *)
Definition unknown_month_text : string := "Mai 3 10:20:30:123 2025".

Definition unknown_month_groups : list (option string) :=
  [Some "Mai"; Some "3"; Some "10"; Some "20"; Some "30"; Some "123"; Some "2025"].

(** The text of the segmentation example. *)
Definition two_frames : string := ("%@1%A" ++ nl ++ "%@2%B" ++ nl)%string.

(** A time pattern with dashes between the date fields, a file whose entry
    carries such a timestamp, and the entry as [process_log_files] returns
    it when the editor holds that pattern. *)
Definition dash_time_pattern : string :=
  "(\w+)-(\d{1,2})-(\d{1,2}):(\d{1,2}):(\d{1,2}):(\d{1,3})-(\d{4})".

Definition dash_text : string := "%@1%May-3-10:20:30:123-2025 started".

Definition dash_file : BytesIO := BytesIO_open (bytes_of_text dash_text).

Definition dash_entry_unstamped : LogEntry := mkLogEntry dash_text None "a.log" "".

Definition may_3 : datetime := Datetime.mkDatetime 2025 5 3 10 20 30 123000.

Definition dash_entry_stamped : LogEntry :=
  mkLogEntry dash_text (Some may_3) "a.log" "May-3-10:20:30:123-2025".

(** The pattern of the metacharacter test, compiled. *)
Definition compiled_metachar_pattern : option Sre.pattern :=
  Eval vm_compute in Sre.compile metachar_pattern no_flags.

(** Two entries for the keyword filter. *)
Definition error_entry : LogEntry := mkLogEntry "%@1%disk ERROR on sda" None "a.log" "".
Definition quiet_entry : LogEntry := mkLogEntry "%@2%all quiet" None "a.log" "".

(** The time text of the extraction example, and its groups. *)
Definition may_3_text : string := "May 3 10:20:30:123 2025".

Definition may_3_groups : list (option string) :=
  [Some "May"; Some "3"; Some "10"; Some "20"; Some "30"; Some "123"; Some "2025"].

(** An entry in which a word character stands right before that text. *)
Definition glued_entry : LogEntry :=
  mkLogEntry "xMay 3 10:20:30:123 2025"
             (Some (Datetime.mkDatetime 2025 1 3 10 20 30 123000)) "a.log"
             "xMay 3 10:20:30:123 2025".

(** No white space in a text; a text that does not end in a word
    character. *)
Fixpoint no_space (s : string) : bool :=
  match s with
  | EmptyString => true
  | String c r => (negb (PyStr.isspace c) && no_space r)%bool
  end.

Fixpoint ends_outside_word (s : string) : bool :=
  match s with
  | EmptyString => true
  | String c EmptyString => negb (Sre.in_category Sre.Word c)
  | String _ r => ends_outside_word r
  end.

(* ================================================================== *)
(** ** Tactics *)

(** The twelve cases of a month number known to lie between 1 and 12. *)
Ltac month_cases m :=
  let H := fresh in
  assert (m = 1 \/ m = 2 \/ m = 3 \/ m = 4 \/ m = 5 \/ m = 6 \/ m = 7 \/ m = 8
          \/ m = 9 \/ m = 10 \/ m = 11 \/ m = 12) as H by lia;
  repeat (destruct H as [H|H]; [subst m|]); [..|subst m].

(** Evaluate the calendar tables at the constants in the goal. *)
Ltac tables :=
  repeat match goal with
         | |- context [days_before ?l (Z.to_nat ?m)] =>
             let v := eval vm_compute in (days_before l (Z.to_nat m)) in
             change (days_before l (Z.to_nat m)) with v
         | |- context [month_length ?l ?m] =>
             let v := eval vm_compute in (month_length l m) in
             change (month_length l m) with v
         end.

(* ================================================================== *)
(** ** Further vocabulary *)

(** A text with every line feed turned into carriage return, line feed;
    a text without carriage returns. *)
Fixpoint to_crlf (s : string) : string :=
  match s with
  | EmptyString => EmptyString
  | String c r =>
      if Ascii.eqb c PyStr.LF
      then String PyStr.CR (String PyStr.LF (to_crlf r))
      else String c (to_crlf r)
  end.

Fixpoint no_cr (s : string) : bool :=
  match s with
  | EmptyString => true
  | String c r => (negb (Ascii.eqb c PyStr.CR) && no_cr r)%bool
  end.

(** [sub] stands somewhere in [s]. *)
Definition occurs (sub s : string) : Prop :=
  exists pre post : string, s = (pre ++ sub ++ post)%string.

(* ================================================================== *)
(** ** [app/main_window.py]: keyword highlighting in [_load_page] *)

(** The index of the first occurrence of [sub] in [s]. *)
Fixpoint find_first (sub s : string) : option nat :=
  if String.prefix sub s then Some 0%nat
  else match s with
       | EmptyString => None
       | String _ r => option_map S (find_first sub r)
       end.

(** [s.find(sub, start)] for a start that is not negative; [None] is the
    answer -1. *)
Definition str_find (s sub : string) (start : nat) : option nat :=
  if Nat.ltb (String.length s) start then None
  else option_map (Nat.add start) (find_first sub (PyStr.drop start s)).

(** The [while True] loop over one keyword: [klen] is [len(keyword)], and
    the state is [start_pos].  Every round moves [start_pos] forward by
    [klen], at least one: [fuel] rounds are enough when [fuel] exceeds the
    length of the content. *)
Fixpoint find_all (fuel : nat) (content_lower keyword_lower : string)
  (klen start_pos : nat) : list (nat * nat) :=
  match fuel with
  | O => []
  | S fuel' =>
      match str_find content_lower keyword_lower start_pos with
      | None => []
      | Some pos =>
          (pos, pos + klen)%nat
          :: find_all fuel' content_lower keyword_lower klen (pos + klen)%nat
      end
  end.

(** The spans of one keyword; an empty keyword is skipped. *)
Definition keyword_spans (content_lower keyword : string) : list (nat * nat) :=
  if PyStr.is_empty keyword then []
  else find_all (S (String.length content_lower)) content_lower
         (PyStr.lower keyword) (String.length keyword) 0.

(** [highlight_data.sort(key=lambda x: x[0])]: a stable sort on the start
    offsets. *)
Fixpoint insert_span (x : nat * nat) (l : list (nat * nat)) : list (nat * nat) :=
  match l with
  | [] => [x]
  | y :: l' => if Nat.ltb (fst y) (fst x) then y :: insert_span x l' else x :: l
  end.

Fixpoint sort_spans (l : list (nat * nat)) : list (nat * nat) :=
  match l with
  | [] => []
  | x :: l' => insert_span x (sort_spans l')
  end.

(** The highlight data of one item: the spans of all keywords, sorted by
    start.  The character format that the code stores with each span is
    the same for all and is left out. *)
Definition highlight_spans (content : string) (highlight_keywords : list string)
  : list (nat * nat) :=
  let content_lower := PyStr.lower content in
  sort_spans (flat_map (keyword_spans content_lower) highlight_keywords).

(** The piece of a text from offset [a] up to offset [b]. *)
Definition slice (a b : nat) (s : string) : string :=
  PyStr.take (b - a) (PyStr.drop a s).

(** *** The same loop over any alphabet

    [str.lower] does not work character by character on all of Unicode:
    U+0130 lowers to two code points, and a capital sigma lowers by its
    place in the word.  The loop of [_load_page] is therefore also written
    for texts over any alphabet and for any [lower]; the offsets of its
    spans are offsets into the lowered content, as they are in the code. *)
Module Text.

Section Loop.

Context {char : Type} (eqb : char -> char -> bool) (lower : list char -> list char).

Fixpoint prefix (sub s : list char) : bool :=
  match sub, s with
  | [], _ => true
  | _ :: _, [] => false
  | c :: sub', d :: s' => (eqb c d && prefix sub' s')%bool
  end.

(** The index of the first occurrence of [sub] in [s]. *)
Fixpoint find_first (sub s : list char) : option nat :=
  if prefix sub s then Some 0%nat
  else match s with
       | [] => None
       | _ :: r => option_map S (find_first sub r)
       end.

(** [s.find(sub, start)] for a start that is not negative; [None] is the
    answer -1. *)
Definition find (s sub : list char) (start : nat) : option nat :=
  if Nat.ltb (List.length s) start then None
  else option_map (Nat.add start) (find_first sub (skipn start s)).

(** The [while True] loop over one keyword, [fuel] rounds of it. *)
Fixpoint find_all (fuel : nat) (content_lower keyword_lower : list char)
  (klen start_pos : nat) : list (nat * nat) :=
  match fuel with
  | O => []
  | S fuel' =>
      match find content_lower keyword_lower start_pos with
      | None => []
      | Some pos =>
          (pos, pos + klen)%nat
          :: find_all fuel' content_lower keyword_lower klen (pos + klen)%nat
      end
  end.

(** The spans of one keyword; an empty keyword is skipped. *)
Definition keyword_spans (content_lower keyword : list char) : list (nat * nat) :=
  if is_nil keyword then []
  else find_all (S (List.length content_lower)) content_lower
         (lower keyword) (List.length keyword) 0.

(** The highlight data of one item: the spans of all keywords, sorted by
    start. *)
Definition highlight_data (content : list char) (highlight_keywords : list (list char))
  : list (nat * nat) :=
  let content_lower := lower content in
  sort_spans (flat_map (keyword_spans content_lower) highlight_keywords).

End Loop.

(** [sub] stands in [s] at offset [i]. *)
Definition stands_at {char : Type} (sub s : list char) (i : nat) : Prop :=
  exists pre post : list char, s = pre ++ sub ++ post /\ List.length pre = i.

(** The piece of a text from offset [a] up to offset [b]. *)
Definition piece {char : Type} (a b : nat) (s : list char) : list char :=
  firstn (b - a) (skipn a s).

(** Texts as lists of code points, and [str.lower] on the code points of
    the examples: a capital ASCII letter lowers to its small letter, and
    U+0130, the capital I with a dot, to the two code points U+0069 and
    U+0307. *)
Definition codes (s : string) : list N := map N_of_ascii (list_ascii_of_string s).

Definition code_lower (s : list N) : list N :=
  flat_map (fun c => if N.eqb c 304 then [105; 775]
                     else if (N.leb 65 c && N.leb c 90)%bool then [c + 32]
                     else [c])%N s.

(** The text made of U+0130 and the letter x. *)
Definition dotted_x : list N := (304 :: codes "x")%N.

End Text.

(* ================================================================== *)
(** ** [app/main_window.py]: the window

    The part of [LogAnalyzerApp] that holds data: the lists of streams and
    names, the entries of the last analysis, the entries on display with
    their pages and their two id dictionaries, and the watched entries.
    Widgets are left out, except for the items of the entry list, which
    are the rows of one page.  An id is the index that the code stores as
    the text [str(idx)]. *)

(** A [dict], as the list of its items; only lookups and stores are used. *)
Section Dict.

Context {K V : Type} (eqb : K -> K -> bool).

Fixpoint dict_lookup (k : K) (d : list (K * V)) : option V :=
  match d with
  | [] => None
  | (k', v) :: d' => if eqb k k' then Some v else dict_lookup k d'
  end.

Fixpoint dict_store (k : K) (v : V) (d : list (K * V)) : list (K * V) :=
  match d with
  | [] => [(k, v)]
  | (k', v') :: d' =>
      if eqb k k' then (k', v) :: d' else (k', v') :: dict_store k v d'
  end.

End Dict.

(** One row of the entry list: its id, its entry, its check mark and its
    highlight data. *)
Record Item : Type := mkItem {
  item_id : nat;
  item_log : LogEntry;
  item_checked : bool;
  item_spans : list (nat * nat)
}.

Record Window : Type := mkWindow {
  uploaded_files : list BytesIO;
  file_names : list string;
  all_logs : list LogEntry;
  current_logs : list LogEntry;
  watched_logs : list LogEntry;
  total_pages : nat;
  current_page : nat;
  log_id_map : list (nat * LogEntry);
  entry_to_id_map : list (LogEntry * nat);
  log_display : list Item;
  analysis_started : bool
}.

Definition page_size : nat := 1000.

(** Equality of entries, field by field as for the named tuples. *)
Definition option_datetime_eqb (a b : option datetime) : bool :=
  match a, b with
  | Some x, Some y => Datetime.eqb x y
  | None, None => true
  | _, _ => false
  end.

Definition LogEntry_eqb (a b : LogEntry) : bool :=
  (String.eqb (content a) (content b)
   && option_datetime_eqb (timestamp a) (timestamp b)
   && String.eqb (source_file a) (source_file b)
   && String.eqb (time_str a) (time_str b))%bool.

(** [x in l] *)
Definition log_in (x : LogEntry) (l : list LogEntry) : bool :=
  existsb (LogEntry_eqb x) l.

Definition str_in (x : string) (l : list string) : bool :=
  existsb (String.eqb x) l.

(** [s.split("\n")] *)
Fixpoint split_lf (s : string) : list string :=
  match s with
  | EmptyString => [EmptyString]
  | String c r =>
      if Ascii.eqb c PyStr.LF then EmptyString :: split_lf r
      else match split_lf r with
           | piece :: pieces => String c piece :: pieces
           | [] => [String c EmptyString]
           end
  end.

(** The keywords read from the search box:
    [[kw.strip() for kw in text.split("\n") if kw.strip()]]. *)
Definition search_keywords (text : string) : list string :=
  map PyStr.strip
      (filter (fun kw => negb (PyStr.is_empty (PyStr.strip kw))) (split_lf text)).

(** [range(a, b)] and [enumerate(l)] *)
Definition range (a b : nat) : list nat := seq a (b - a).

Definition enumerate {A : Type} (l : list A) : list (nat * A) :=
  combine (seq 0 (List.length l)) l.

(** [_load_page]: the rows of one page.  [highlight_keywords] is [[]] for
    an absent or empty list.  The index is within [current_logs] by the
    bound on [end_idx]. *)
Definition page_items (w : Window) (page_number : nat)
  (highlight_keywords : list string) : list Item :=
  let start_idx := (page_number * page_size)%nat in
  let end_idx := Nat.min (start_idx + page_size) (List.length (current_logs w)) in
  flat_map
    (fun idx =>
       match nth_error (current_logs w) idx with
       | Some log =>
           [mkItem idx log (log_in log (watched_logs w))
              (if is_nil highlight_keywords then []
               else highlight_spans (content log) highlight_keywords)]
       | None => []
       end)
    (range start_idx end_idx).

Definition load_page (w : Window) (page_number : nat)
  (highlight_keywords : list string) : Window :=
  if is_nil (current_logs w) then w
  else
    mkWindow (uploaded_files w) (file_names w) (all_logs w) (current_logs w)
      (watched_logs w) (total_pages w) page_number (log_id_map w)
      (entry_to_id_map w) (page_items w page_number highlight_keywords)
      (analysis_started w).

(** The two dictionaries that [display_logs] fills in one loop. *)
Definition id_maps (sorted_logs : list LogEntry)
  : list (nat * LogEntry) * list (LogEntry * nat) :=
  fold_left
    (fun maps '(idx, log) =>
       (dict_store Nat.eqb idx log (fst maps),
        dict_store LogEntry_eqb log idx (snd maps)))
    (enumerate sorted_logs) ([], []).

(** [display_logs]: sort, count the pages, fill the dictionaries, show the
    first page. *)
Definition display_logs (w : Window) (logs : list LogEntry)
  (highlight_keywords : list string) : Window :=
  let sorted_logs := list_sort sort_key logs in
  load_page
    (mkWindow (uploaded_files w) (file_names w) (all_logs w) sorted_logs
       (watched_logs w)
       ((List.length sorted_logs + page_size - 1) / page_size)%nat 0
       (fst (id_maps sorted_logs)) (snd (id_maps sorted_logs)) []
       (analysis_started w))
    0 highlight_keywords.

(** [refresh_file_list], as far as the data go: the watched entries are
    dropped and the analysis is marked as not started. *)
Definition refresh_file_list (w : Window) : Window :=
  mkWindow (uploaded_files w) (file_names w) (all_logs w) (current_logs w)
    [] (total_pages w) (current_page w) (log_id_map w) (entry_to_id_map w)
    (log_display w) false.

(** [del l[i]] for an index within the list. *)
Fixpoint remove_nth {A : Type} (i : nat) (l : list A) : list A :=
  match i, l with
  | _, [] => []
  | O, _ :: l' => l'
  | S i', x :: l' => x :: remove_nth i' l'
  end.

Definition with_files (w : Window) (streams : list BytesIO) (names : list string)
  : Window :=
  mkWindow streams names (all_logs w) (current_logs w) (watched_logs w)
    (total_pages w) (current_page w) (log_id_map w) (entry_to_id_map w)
    (log_display w) (analysis_started w).

(** [delete_file_item].  When the list of streams is too short for the
    index, the deletion from it raises after the name is gone; the handler
    shows a message and the window is left in that state. *)
Definition delete_file_item (w : Window) (idx : Z) : Window :=
  if ((idx <? 0) || (Z.of_nat (List.length (file_names w)) <=? idx))%bool then w
  else
    let i := Z.to_nat idx in
    let names := remove_nth i (file_names w) in
    if Nat.ltb i (List.length (uploaded_files w))
    then refresh_file_list (with_files w (remove_nth i (uploaded_files w)) names)
    else with_files w (uploaded_files w) names.

(** The controls that [process_files] reads: the time range when its box
    is checked, the text of the search box, the mode, and the texts of the
    two pattern editors. *)
Record Controls : Type := mkControls {
  time_range : option (datetime * datetime);
  search_text : string;
  filter_mode : bool;
  log_regex_text : string;
  time_regex_text : string
}.

(** The removal of the failed files in [process_files].  The second
    comprehension runs over the names that are already filtered and reads
    the streams by their new positions. *)
Definition kept_names (names failed_files : list string) : list string :=
  filter (fun f => negb (str_in f failed_files)) names.

Definition kept_streams (streams : list BytesIO) (new_names failed_files : list string)
  : result (list BytesIO) :=
  mapM (fun i => match nth_error streams i with
                 | Some stream => Ok stream
                 | None => Raise IndexError
                 end)
       (map fst (filter (fun '(i, f) => negb (str_in f failed_files))
                        (enumerate new_names))).

Definition with_all_logs (w : Window) (logs : list LogEntry) : Window :=
  mkWindow (uploaded_files w) (file_names w) logs (current_logs w) (watched_logs w)
    (total_pages w) (current_page w) (log_id_map w) (entry_to_id_map w)
    (log_display w) (analysis_started w).

Definition started (w : Window) : Window :=
  mkWindow (uploaded_files w) (file_names w) (all_logs w) (current_logs w)
    (watched_logs w) (total_pages w) (current_page w) (log_id_map w)
    (entry_to_id_map w) (log_display w) true.

Section MainWindow.

Context `{RE : ReModule} `{ENV : Environment}.

(** [process_files]: the whole analysis.  An exception anywhere is caught
    by the handler of the method, which shows a message: the window keeps
    what was assigned before the exception. *)
Definition process_files (w : Window) (c : Controls) : Window :=
  if is_nil (uploaded_files w) then w
  else
    let start_datetime := option_map fst (time_range c) in
    let end_datetime := option_map snd (time_range c) in
    let keywords := search_keywords (search_text c) in
    match process_log_files LogAnalyzerApp.log_processor (uploaded_files w)
            (file_names w) (log_regex_text c) (time_regex_text c) with
    | Raise _ => w
    | Ok (logs, failed_files) =>
        let w1 := with_all_logs w logs in
        let removal :=
          if is_nil failed_files then Ok w1
          else
            let names := kept_names (file_names w1) failed_files in
            match kept_streams (uploaded_files w1) names failed_files with
            | Ok streams => Ok (refresh_file_list (with_files w1 streams names))
            | Raise _ => Raise IndexError
            end in
        match removal with
        | Raise _ =>
            with_files w1 (uploaded_files w1) (kept_names (file_names w1) failed_files)
        | Ok w3 =>
            let filtered_logs :=
              filter_logs_by_time_range (all_logs w3) start_datetime end_datetime in
            let shown :=
              if filter_mode c
              then match filter_logs_by_keywords filtered_logs keywords with
                   | Ok filtered_logs2 => Ok (display_logs w3 filtered_logs2 [])
                   | Raise e => Raise e
                   end
              else Ok (display_logs w3 filtered_logs keywords) in
            match shown with
            | Ok w4 => started w4
            | Raise _ => w3
            end
        end
    end.

End MainWindow.

(** [on_log_item_changed]: the check mark of the row with id [log_id] was
    set to [checked].  [l.remove(x)] takes out the first element equal to
    [x]. *)
Fixpoint list_remove (x : LogEntry) (l : list LogEntry) : list LogEntry :=
  match l with
  | [] => []
  | y :: l' => if LogEntry_eqb x y then l' else y :: list_remove x l'
  end.

Definition with_watched (w : Window) (watched : list LogEntry) : Window :=
  mkWindow (uploaded_files w) (file_names w) (all_logs w) (current_logs w) watched
    (total_pages w) (current_page w) (log_id_map w) (entry_to_id_map w)
    (log_display w) (analysis_started w).

Definition on_log_item_changed (w : Window) (log_id : nat) (checked : bool)
  (highlight_mode : bool) (search_box : string) : Window :=
  match dict_lookup Nat.eqb log_id (log_id_map w) with
  | None => w
  | Some log_data =>
      let watched :=
        if checked
        then (if log_in log_data (watched_logs w) then watched_logs w
              else watched_logs w ++ [log_data])
        else (if log_in log_data (watched_logs w)
              then list_remove log_data (watched_logs w)
              else watched_logs w) in
      let highlight_keywords :=
        if highlight_mode then search_keywords search_box else [] in
      load_page (with_watched w watched) (current_page w) highlight_keywords
  end.

(** [update_watched_logs_display]: the rows of the watched list, each with
    its id.  The key of a watched entry that is not on display is [None]. *)
Definition option_nat_eqb (a b : option nat) : bool :=
  match a, b with
  | Some x, Some y => Nat.eqb x y
  | None, None => true
  | _, _ => false
  end.

Definition watched_rows (w : Window) : list (nat * LogEntry) :=
  let id_order := range 0 (List.length (current_logs w)) in
  let id_to_log :=
    fold_left
      (fun d log =>
         dict_store option_nat_eqb (dict_lookup LogEntry_eqb log (entry_to_id_map w))
           log d)
      (watched_logs w) [] in
  let watched_logs_sorted :=
    flat_map (fun log_id =>
                match dict_lookup option_nat_eqb (Some log_id) id_to_log with
                | Some log => [log]
                | None => []
                end) id_order in
  flat_map (fun log =>
              match dict_lookup LogEntry_eqb log (entry_to_id_map w) with
              | Some log_id => [(log_id, log)]
              | None => []
              end) watched_logs_sorted.

(** [delete_watched_item], for the row of the watched list with id
    [log_id]: the entries with that id leave the watched list and the
    rows of the page with that id lose their check mark. *)
Definition delete_watched_item (w : Window) (log_id : nat) : Window :=
  let watched :=
    filter (fun log =>
              negb (option_nat_eqb (dict_lookup LogEntry_eqb log (entry_to_id_map w))
                                   (Some log_id)))
           (watched_logs w) in
  mkWindow (uploaded_files w) (file_names w) (all_logs w) (current_logs w) watched
    (total_pages w) (current_page w) (log_id_map w) (entry_to_id_map w)
    (map (fun it => if Nat.eqb (item_id it) log_id
                    then mkItem (item_id it) (item_log it) false (item_spans it)
                    else it) (log_display w))
    (analysis_started w).

(** A window in which nothing has been loaded, and one holding an empty
    file and the two-entry file under their names. *)
Definition empty_window : Window := mkWindow [] [] [] [] [] 0 0 [] [] [] false.

Definition two_file_window : Window :=
  mkWindow [BytesIO_open []; epoch_file] ["empty.log"; "a.log"] [] [] [] 0 0 [] [] []
           false.

Definition plain_controls : Controls := mkControls None "" false "" "".

(** The last position of an entry in a list, and the windows whose two id
    dictionaries are those of the entries on display. *)
Fixpoint last_index (x : LogEntry) (l : list LogEntry) : option nat :=
  match l with
  | [] => None
  | y :: l' =>
      match last_index x l' with
      | Some j => Some (S j)
      | None => if LogEntry_eqb x y then Some O else None
      end
  end.

(** One turn of the loop of [display_logs] that fills the dictionaries. *)
Definition id_maps_step (maps : list (nat * LogEntry) * list (LogEntry * nat))
  (row : nat * LogEntry) : list (nat * LogEntry) * list (LogEntry * nat) :=
  let '(idx, log) := row in
  (dict_store Nat.eqb idx log (fst maps), dict_store LogEntry_eqb log idx (snd maps)).

Definition indexed (w : Window) : Prop :=
  log_id_map w = fst (id_maps (current_logs w))
  /\ entry_to_id_map w = snd (id_maps (current_logs w)).

(** The rows of the page are entries on display under their indices, with
    a check mark exactly on the watched ones. *)
Definition marks_agree (w : Window) : Prop :=
  forall it, In it (log_display w) ->
             nth_error (current_logs w) (item_id it) = Some (item_log it)
             /\ item_checked it = log_in (item_log it) (watched_logs w).

(** The window after the second of the two sample entries is checked. *)
Definition one_watched_window : Window :=
  on_log_item_changed
    (display_logs empty_window [epoch_entry; untimed_entry] []) 1 true false "".

(** The window after the two entries of the sample file are displayed. *)
Definition two_entry_window : Window :=
  display_logs empty_window [epoch_entry; untimed_entry] [].

(** A text without a line feed. *)
Fixpoint no_lf (s : string) : bool :=
  match s with
  | EmptyString => true
  | String c r => (negb (Ascii.eqb c PyStr.LF) && no_lf r)%bool
  end.

(** ** The exports

    [export_logs] and [export_displayed_logs] pair each entry with its id,
    leave out the entries without one, sort the pairs by [int(id)] and
    write them to the chosen file.  The model gives the calls of [f.write]
    for a file that opens and takes every write; the line that names the
    source is kept as one piece, its label being outside the characters of
    [string]. *)
Fixpoint insert_by_id {A : Type} (x : nat * A) (l : list (nat * A)) : list (nat * A) :=
  match l with
  | [] => [x]
  | y :: l' => if Nat.ltb (fst y) (fst x) then y :: insert_by_id x l' else x :: l
  end.

Fixpoint sort_by_id {A : Type} (l : list (nat * A)) : list (nat * A) :=
  match l with
  | [] => []
  | x :: l' => insert_by_id x (sort_by_id l')
  end.

(** [s.split('/')[-1]] *)
Fixpoint last_segment (s : string) : string :=
  match s with
  | EmptyString => EmptyString
  | String c r =>
      if Ascii.eqb c "/" then last_segment r
      else if PyStr.contains "/" r then last_segment r
           else s
  end.

Inductive Written : Type :=
  | SourceLine (file_name : string)
  | Text (s : string).

Definition logs_with_id (w : Window) (logs : list LogEntry) : list (nat * LogEntry) :=
  sort_by_id
    (flat_map (fun log =>
                 match dict_lookup LogEntry_eqb log (entry_to_id_map w) with
                 | Some log_id => [(log_id, log)]
                 | None => []
                 end) logs).

Definition export_writes (rows : list (nat * LogEntry)) (source_checked : bool)
  : list Written :=
  flat_map (fun '(log_id, log) =>
              (if source_checked then [SourceLine (last_segment (source_file log))]
               else [])
              ++ [Text (content log); Text (String PyStr.LF (String PyStr.LF ""))])
           rows.

Definition export_logs (w : Window) (file_path : string) (source_checked : bool)
  : list Written :=
  if is_nil (watched_logs w) then []
  else if PyStr.is_empty file_path then []
       else export_writes (logs_with_id w (watched_logs w)) source_checked.

Definition export_displayed_logs (w : Window) (file_path : string)
  (source_checked : bool) : list Written :=
  if is_nil (current_logs w) then []
  else if PyStr.is_empty file_path then []
       else export_writes (logs_with_id w (current_logs w)) source_checked.

(** Ascending ids, with and without repetition. *)
Definition id_le {A : Type} (a b : nat * A) : Prop := (fst a <= fst b)%nat.
Definition id_lt {A : Type} (a b : nat * A) : Prop := (fst a < fst b)%nat.

(** ** Loading files

    [handle_file_upload], for the paths that the dialog returns.  [fs]
    stands for the files on disk: the bytes of a path that can be opened and
    read, or nothing when reading it raises. *)
Definition handle_file_upload (fs : string -> option (list byte)) (w : Window)
  (files : list string) : Window :=
  if is_nil files then w
  else
    let new_files := filter (fun f => negb (str_in f (file_names w))) files in
    mkWindow
      (uploaded_files w
       ++ flat_map (fun file_path =>
                      match fs file_path with
                      | Some content => [BytesIO_open content]
                      | None => []
                      end) new_files)
      (file_names w ++ new_files)
      (all_logs w) (current_logs w) [] (total_pages w) (current_page w)
      (log_id_map w) (entry_to_id_map w) (log_display w) false.

(** The paths among [files] that are not in the list yet and cannot be
    read. *)
Definition unreadable (fs : string -> option (list byte)) (w : Window)
  (files : list string) : list string :=
  filter (fun f => (negb (str_in f (file_names w))
                    && match fs f with Some _ => false | None => true end)%bool)
         files.

(** Disks for the examples: one on which every path holds the sample file,
    and one on which [bad.log] cannot be read. *)
Definition sample_disk (path : string) : option (list byte) :=
  Some (bytes_of_text ("%@1%Jan 1 00:00:00:000 0001 boot" ++ nl)%string).

Definition faulty_disk (path : string) : option (list byte) :=
  if String.eqb path "bad.log" then None else sample_disk path.

(* ================================================================== *)
(** ** [app/highlight_delegate.py]: the text that [paint] draws

    Of [HighlightDelegate.paint] the model keeps the text: for every line of
    the item's text, the pieces passed to [painter.drawText], in order, each
    with a mark that tells whether it is drawn in the highlight format.
    Rectangles, fonts and colours are left out. *)

(** The line boundaries of [str.splitlines] below code point 256. *)
Definition line_boundary (c : ascii) : bool :=
  (PyStr.between 10 13 c || PyStr.between 28 30 c || N.eqb (PyStr.ord c) 133)%bool.

(** [s.splitlines()] *)
Fixpoint splitlines (s : string) : list string :=
  match s with
  | EmptyString => []
  | String c r =>
      if Ascii.eqb c PyStr.CR
      then match r with
           | String d r2 =>
               if Ascii.eqb d PyStr.LF then EmptyString :: splitlines r2
               else EmptyString :: splitlines r
           | EmptyString => [EmptyString]
           end
      else if line_boundary c then EmptyString :: splitlines r
           else match splitlines r with
                | piece :: pieces => String c piece :: pieces
                | [] => [String c EmptyString]
                end
  end.

(** The loop over the highlights of one line and the text that remains
    after it; the state is [cursor]. *)
Fixpoint paint_spans (line : string) (line_start cursor : nat)
  (line_highlights : list (nat * nat)) : list (bool * string) :=
  match line_highlights with
  | [] =>
      if Nat.ltb cursor (String.length line)
      then [(false, PyStr.drop cursor line)] else []
  | (h_start, h_end) :: rest =>
      let rel_start := (h_start - line_start)%nat in
      let rel_end := (h_end - line_start)%nat in
      let normal_text := slice cursor rel_start line in
      let highlight_text := slice rel_start rel_end line in
      (if PyStr.is_empty normal_text then [] else [(false, normal_text)])
      ++ (if PyStr.is_empty highlight_text then [] else [(true, highlight_text)])
      ++ paint_spans line line_start rel_end rest
  end.

(** [sum(len(l)+1 for l in lines[:line_idx])] *)
Definition line_offset (lines : list string) (line_idx : nat) : nat :=
  fold_left Nat.add (map (fun l => (String.length l + 1)%nat) (firstn line_idx lines))
            0%nat.

Definition paint_line (lines : list string) (highlight_data : list (nat * nat))
  (line_idx : nat) (line : string) : list (bool * string) :=
  if is_nil highlight_data then [(false, line)]
  else
    let line_start := line_offset lines line_idx in
    let line_end := (line_start + String.length line)%nat in
    let line_highlights :=
      filter (fun '(h_start, h_end) =>
                (Nat.leb line_start h_start && Nat.leb h_end line_end)%bool)
             highlight_data in
    paint_spans line line_start 0 line_highlights.

Definition paint (text : string) (highlight_data : list (nat * nat))
  : list (list (bool * string)) :=
  let lines := if PyStr.is_empty text then [] else splitlines text in
  map (fun '(line_idx, line) => paint_line lines highlight_data line_idx line)
      (enumerate lines).

(** The text of the pieces of one line, and the pieces in highlight format. *)
Definition drawn (pieces : list (bool * string)) : string :=
  String.concat "" (map snd pieces).

Definition highlighted (pieces : list (bool * string)) : list string :=
  map snd (filter fst pieces).

(** Spans that follow each other without overlap. *)
Definition apart (spans : list (nat * nat)) : Prop :=
  StronglySorted (fun x y => (snd x <= fst y)%nat) spans
  /\ Forall (fun x => (fst x <= snd x)%nat) spans.

(** A text without a carriage return that is followed by a line feed, the
    one line boundary of two characters. *)
Fixpoint no_crlf (s : string) : bool :=
  match s with
  | EmptyString => true
  | String c r =>
      match r with
      | String d _ =>
          (negb (Ascii.eqb c PyStr.CR && Ascii.eqb d PyStr.LF) && no_crlf r)%bool
      | EmptyString => true
      end
  end.

(** The spans that [paint] takes for the line [line] at index [line_idx]. *)
Definition on_line (lines : list string) (line_idx : nat) (line : string)
  (span : nat * nat) : bool :=
  (Nat.leb (line_offset lines line_idx) (fst span)
   && Nat.leb (snd span) (line_offset lines line_idx + String.length line))%bool.

(* ================================================================== *)
(** ** The built-in frame pattern on the engine of this file *)

Definition compiled_frame_pattern : option Sre.pattern :=
  Eval vm_compute in Sre.compile LogAnalyzerApp.LOG_REGEX_PATTERN flag_DOTALL.

Fixpoint all_chars (ok : ascii -> bool) (s : string) : bool :=
  match s with
  | EmptyString => true
  | String c r => (ok c && all_chars ok r)%bool
  end.

(** An entry that begins with a marker: ["%@"], one or more decimal digits,
    ["%"]. *)
Definition begins_with_marker (entry : string) : Prop :=
  exists digits tail : string,
    entry = ("%@" ++ digits ++ "%" ++ tail)%string
    /\ digits <> "" /\ all_chars PyStr.isdecimal digits = true.

(** *** The frames of a text

    A reference for what the built-in frame pattern cuts out: walking the
    text, a frame begins at every marker that does not begin inside the
    marker of the frame in hand, and runs up to the next such marker or to
    the end.  [cut] gives the text before the first frame and the frames. *)
Fixpoint count_digits (s : string) : nat :=
  match s with
  | String c r => if PyStr.isdecimal c then S (count_digits r) else O
  | EmptyString => O
  end.

(** The length of the marker that [s] begins with, if it begins with one. *)
Definition marker_len (s : string) : option nat :=
  match s with
  | String a (String b r) =>
      if (Ascii.eqb a "%" && Ascii.eqb b "@")%bool
      then
        let n := count_digits r in
        if (Nat.ltb 0 n && String.prefix "%" (PyStr.drop n r))%bool
        then Some (n + 3)%nat else None
      else None
  | _ => None
  end.

Fixpoint cut (skip : nat) (s : string) : string * list string :=
  match s with
  | EmptyString => (EmptyString, [])
  | String c r =>
      match skip, marker_len s with
      | O, Some n =>
          let '(h, fs) := cut (n - 1) r in (EmptyString, String c h :: fs)
      | _, _ =>
          let '(h, fs) := cut (skip - 1) r in (String c h, fs)
      end
  end.

Definition frames (s : string) : list string := snd (cut 0 s).

(** Where the lazy body of a frame stops: at a marker or at the end. *)
Definition ahead (s : string) : bool :=
  (is_some (marker_len s) || PyStr.is_empty s)%bool.

Fixpoint body_len (s : string) : nat :=
  if ahead s then O
  else match s with
       | String _ r => S (body_len r)
       | EmptyString => O
       end.

(** A state of the matcher moved forward by [n] characters. *)
Definition advance (n : nat) (st : Sre.mstate) : Sre.mstate :=
  Sre.mkState (PyStr.drop n (Sre.rest st)) (Sre.pos st + n) (Sre.caps st).

(** The texts of the frame editor under which the built-in frame pattern
    cuts the text: a blank text, and the built-in pattern itself, which is
    the text the editor is created with. *)
Definition built_in_frames (log_regex_edit : string) : Prop :=
  PyStr.strip log_regex_edit = ""
  \/ PyStr.strip log_regex_edit = LogAnalyzerApp.LOG_REGEX_PATTERN.

(** The stripped frames of the text that a stream decodes to; a closed
    stream and bytes that cannot be decoded give none. *)
Definition stripped_frames `{ENV : Environment} (stream : BytesIO) : list string :=
  match stream with
  | BytesIO_open raw =>
      match decode_content raw with
      | Some text => map PyStr.strip (frames (PyStr.replace_crlf text))
      | None => []
      end
  | BytesIO_closed => []
  end.

(** The streams whose task returns without an entry. *)
Definition yields_nothing `{ENV : Environment} (stream : BytesIO) : bool :=
  match stream with
  | BytesIO_open _ => is_nil (stripped_frames stream)
  | BytesIO_closed => false
  end.

(* ================================================================== *)
(** ** The order on [datetime] *)

Module DatetimeFacts.

Import Datetime.

Lemma cmp_fields_refl (a : list Z) : cmp_fields a a = Eq.
Proof.
  induction a as [|x a IH]; simpl; [reflexivity|].
  now rewrite Z.compare_refl.
Qed.

Lemma cmp_fields_opp (a : list Z) :
  forall b, List.length a = List.length b ->
            cmp_fields b a = CompOpp (cmp_fields a b).
Proof.
  induction a as [|x a IH]; intros [|y b] Hlen; simpl in *; try discriminate;
    [reflexivity|].
  rewrite (Z.compare_antisym x y).
  destruct (x ?= y); simpl; auto.
Qed.

Lemma cmp_fields_eq (a : list Z) :
  forall b, cmp_fields a b = Eq -> a = b.
Proof.
  induction a as [|x a IH]; intros [|y b]; simpl; try discriminate; auto.
  destruct (x ?= y) eqn:E; try discriminate.
  apply Z.compare_eq in E. intros H. f_equal; auto.
Qed.

(** Transitivity, in the form "not greater". *)
Lemma cmp_fields_trans (a : list Z) :
  forall b c,
    cmp_fields a b <> Gt -> cmp_fields b c <> Gt -> cmp_fields a c <> Gt.
Proof.
  induction a as [|x a IH]; intros [|y b] [|z c]; simpl; try congruence.
  destruct (x ?= y) eqn:Exy; destruct (y ?= z) eqn:Eyz; try congruence.
  - apply Z.compare_eq in Exy, Eyz. subst. rewrite Z.compare_refl. apply IH.
  - apply Z.compare_eq in Exy. subst. now rewrite Eyz.
  - apply Z.compare_eq in Eyz. subst. now rewrite Exy.
  - intros _ _. rewrite Z.compare_lt_iff in Exy, Eyz.
    assert (x < z) as H by lia. apply Z.compare_lt_iff in H. now rewrite H.
Qed.

Lemma fields_inj (a b : datetime) : fields a = fields b -> a = b.
Proof.
  destruct a, b. unfold fields. simpl. intros H. now inversion H.
Qed.

Lemma cmp_opp (a b : datetime) : cmp b a = CompOpp (cmp a b).
Proof. unfold cmp. now apply cmp_fields_opp. Qed.

Lemma ltb_irrefl (a : datetime) : ltb a a = false.
Proof. unfold ltb, cmp. now rewrite cmp_fields_refl. Qed.

Lemma leb_refl (a : datetime) : leb a a = true.
Proof. unfold leb. now rewrite ltb_irrefl. Qed.

Lemma eqb_eq (a b : datetime) : eqb a b = true <-> a = b.
Proof.
  unfold eqb, cmp. split.
  - destruct (cmp_fields (fields a) (fields b)) eqn:E; try discriminate.
    intros _. now apply fields_inj, cmp_fields_eq.
  - intros ->. now rewrite cmp_fields_refl.
Qed.

Lemma ltb_asym (a b : datetime) : ltb a b = true -> ltb b a = false.
Proof.
  unfold ltb. rewrite (cmp_opp a b). destruct (cmp a b); simpl; congruence.
Qed.

(** [not (b < a)] and [not (c < b)] give [not (c < a)]. *)
Lemma not_ltb_trans (a b c : datetime) :
  ltb b a = false -> ltb c b = false -> ltb c a = false.
Proof.
  unfold ltb. rewrite (cmp_opp a b), (cmp_opp b c), (cmp_opp a c).
  pose proof (cmp_fields_trans (fields a) (fields b) (fields c)) as T.
  fold (cmp a b) (cmp b c) (cmp a c) in T.
  destruct (cmp a b), (cmp b c), (cmp a c); simpl; try congruence;
    intros; exfalso; apply T; congruence.
Qed.

Lemma ltb_trans (a b c : datetime) :
  ltb a b = true -> ltb b c = true -> ltb a c = true.
Proof.
  intros Hab Hbc.
  destruct (ltb a c) eqn:E; [reflexivity|].
  (* not (a < c) and not (b < a) give not (b < c) *)
  pose proof (not_ltb_trans c a b) as T.
  rewrite (ltb_asym _ _ Hab) in T. rewrite Hbc in T. specialize (T E eq_refl).
  discriminate.
Qed.

(** Two keys that are not ordered either way are equal. *)
Lemma not_ltb_antisym (a b : datetime) :
  ltb a b = false -> ltb b a = false -> a = b.
Proof.
  unfold ltb. rewrite (cmp_opp a b).
  destruct (cmp a b) eqn:E; simpl; try discriminate.
  intros _ _. apply eqb_eq. unfold eqb. now rewrite E.
Qed.

Lemma eqb_refl (a : datetime) : eqb a a = true.
Proof. now apply eqb_eq. Qed.

Lemma eqb_false_iff (a b : datetime) : eqb a b = false <-> a <> b.
Proof.
  split.
  - intros H E. apply eqb_eq in E. congruence.
  - intros H. destruct (eqb a b) eqn:E; [|reflexivity].
    apply eqb_eq in E. contradiction.
Qed.

End DatetimeFacts.

(* ================================================================== *)
(** ** The calendar: the order of [datetime] is that of the time line *)

Module CalendarFacts.

Import Datetime.

Lemma days_before_year_succ (y : Z) :
  days_before_year (y + 1) = days_before_year y + 365 + leap_day y.
Proof.
  unfold days_before_year, leap_day, is_leap.
  replace (y + 1 - 1) with y by lia.
  destruct (y mod 4 =? 0) eqn:E4; destruct (y mod 100 =? 0) eqn:E100;
    destruct (y mod 400 =? 0) eqn:E400; simpl;
    rewrite ?Z.eqb_eq, ?Z.eqb_neq in *;
    Z.to_euclidean_division_equations; lia.
Qed.

Lemma days_before_year_mono (y1 y2 : Z) :
  y1 <= y2 -> days_before_year y1 <= days_before_year y2.
Proof.
  unfold days_before_year. intros H.
  Z.to_euclidean_division_equations. lia.
Qed.

Lemma days_in_month_length (y m : Z) :
  days_in_month y m = month_length (is_leap y) m.
Proof. reflexivity. Qed.

Lemma days_before_month_length (y m : Z) :
  days_before_month y m = days_before (is_leap y) (Z.to_nat (m - 1)).
Proof.
  unfold days_before_month.
  induction (Z.to_nat (m - 1)) as [|n IH]; [reflexivity|].
  simpl. now rewrite IH.
Qed.

(** The day of the year stays within the year. *)
Lemma day_of_year_bounds (y m d : Z) :
  1 <= m <= 12 -> 1 <= d <= days_in_month y m ->
  1 <= days_before_month y m + d <= 365 + leap_day y.
Proof.
  intros Hm. unfold leap_day.
  rewrite days_in_month_length, days_before_month_length.
  destruct (is_leap y); month_cases m; tables; lia.
Qed.

(** A day of an earlier month comes before the first day of a later one. *)
Lemma month_order (y m1 m2 d : Z) :
  1 <= m1 -> m1 < m2 -> m2 <= 12 -> d <= days_in_month y m1 ->
  days_before_month y m1 + d <= days_before_month y m2.
Proof.
  intros H1 H12 H2.
  rewrite days_in_month_length, !days_before_month_length.
  destruct (is_leap y); month_cases m1; month_cases m2; try lia; tables; lia.
Qed.

Lemma valid_bounds (t : datetime) :
  valid t = true ->
  1 <= year t <= 9999 /\ 1 <= month t <= 12
  /\ 1 <= day t <= days_in_month (year t) (month t)
  /\ 0 <= hour t <= 23 /\ 0 <= minute t <= 59 /\ 0 <= second t <= 59
  /\ 0 <= microsecond t <= 999999.
Proof.
  unfold valid, valid_fields, in_range, MINYEAR, MAXYEAR.
  rewrite !andb_true_iff, !Z.leb_le. tauto.
Qed.

Lemma ordinal_order (y1 m1 d1 y2 m2 d2 : Z) :
  1 <= y1 -> 1 <= m1 <= 12 -> 1 <= d1 <= days_in_month y1 m1 ->
  1 <= m2 <= 12 -> 1 <= d2 <= days_in_month y2 m2 ->
  cmp_fields [y1; m1; d1] [y2; m2; d2] = Lt ->
  ymd2ord y1 m1 d1 < ymd2ord y2 m2 d2.
Proof.
  intros Hy1 Hm1 Hd1 Hm2 Hd2. unfold ymd2ord. simpl.
  destruct (Z.compare_spec y1 y2) as [->|Hy|Hy]; try discriminate.
  - destruct (Z.compare_spec m1 m2) as [->|Hm|Hm]; try discriminate.
    + destruct (Z.compare_spec d1 d2) as [->|Hd|Hd]; try discriminate. lia.
    + intros _.
      pose proof (month_order y2 m1 m2 d1). lia.
  - intros _.
    pose proof (day_of_year_bounds y1 m1 d1 Hm1 Hd1).
    pose proof (day_of_year_bounds y2 m2 d2 Hm2 Hd2).
    pose proof (days_before_year_succ y1).
    pose proof (days_before_year_mono (y1 + 1) y2).
    lia.
Qed.

Lemma cmp_fields_app_lt (a1 a2 b1 b2 : list Z) :
  List.length a1 = List.length a2 ->
  cmp_fields (a1 ++ b1) (a2 ++ b2)
  = match cmp_fields a1 a2 with
    | Eq => cmp_fields b1 b2
    | c => c
    end.
Proof.
  revert a2. induction a1 as [|x a1 IH]; intros [|y a2] Hlen; simpl in *;
    try discriminate; [reflexivity|].
  destruct (x ?= y); auto.
Qed.

(** An earlier [datetime] is an earlier instant. *)
Lemma to_microseconds_mono (a b : datetime) :
  valid a = true -> valid b = true -> cmp a b = Lt ->
  to_microseconds a < to_microseconds b.
Proof.
  intros Va Vb. apply valid_bounds in Va, Vb.
  destruct a as [y1 m1 d1 h1 mi1 s1 u1], b as [y2 m2 d2 h2 mi2 s2 u2].
  unfold cmp, fields, to_microseconds. simpl year in *. simpl month in *.
  simpl day in *. simpl hour in *. simpl minute in *. simpl second in *.
  simpl microsecond in *.
  change [y1; m1; d1; h1; mi1; s1; u1] with ([y1; m1; d1] ++ [h1; mi1; s1; u1]).
  change [y2; m2; d2; h2; mi2; s2; u2] with ([y2; m2; d2] ++ [h2; mi2; s2; u2]).
  rewrite cmp_fields_app_lt by reflexivity.
  destruct (cmp_fields [y1; m1; d1] [y2; m2; d2]) eqn:E; try discriminate.
  - apply DatetimeFacts.cmp_fields_eq in E. inversion E; subst. simpl.
    destruct (Z.compare_spec h1 h2) as [->|?|?]; try discriminate; [|lia].
    destruct (Z.compare_spec mi1 mi2) as [->|?|?]; try discriminate; [|lia].
    destruct (Z.compare_spec s1 s2) as [->|?|?]; try discriminate; [|lia].
    destruct (Z.compare_spec u1 u2) as [->|?|?]; try discriminate. lia.
  - intros _.
    assert (ymd2ord y1 m1 d1 < ymd2ord y2 m2 d2) by (apply ordinal_order; tauto).
    lia.
Qed.

(** The converse: a smaller instant is an earlier [datetime]. *)
Lemma to_microseconds_lt (a b : datetime) :
  valid a = true -> valid b = true ->
  to_microseconds a < to_microseconds b -> ltb a b = true.
Proof.
  intros Va Vb H. unfold ltb.
  destruct (cmp a b) eqn:E; [| reflexivity |].
  - assert (a = b) by (apply DatetimeFacts.eqb_eq; unfold eqb; now rewrite E).
    subst. lia.
  - assert (cmp b a = Lt) as E' by (rewrite DatetimeFacts.cmp_opp, E; reflexivity).
    pose proof (to_microseconds_mono b a Vb Va E'). lia.
Qed.

End CalendarFacts.

(* ================================================================== *)
(** ** The stable sort *)

Section ListSortFacts.

Context {A : Type} (key : A -> datetime).

Local Abbreviation le := (le_by key).
Local Abbreviation same := (same_key key).

Lemma insert_sorted_perm (x : A) (l : list A) :
  Permutation (insert_sorted key x l) (x :: l).
Proof.
  induction l as [|y l IH]; simpl; [reflexivity|].
  destruct (Datetime.ltb (key y) (key x)); [|reflexivity].
  rewrite IH. apply perm_swap.
Qed.

Lemma list_sort_perm (l : list A) : Permutation (list_sort key l) l.
Proof.
  induction l as [|x l IH]; simpl; [reflexivity|].
  rewrite insert_sorted_perm. now constructor.
Qed.

Lemma insert_sorted_sorted (x : A) (l : list A) :
  StronglySorted le l -> StronglySorted le (insert_sorted key x l).
Proof.
  induction 1 as [|y l Hs IH Hall]; simpl.
  - repeat constructor.
  - destruct (Datetime.ltb (key y) (key x)) eqn:E.
    + constructor; [exact IH|].
      apply Forall_forall. intros z Hz.
      apply (Permutation_in _ (insert_sorted_perm x l)) in Hz.
      destruct Hz as [<-|Hz].
      * apply DatetimeFacts.ltb_asym, E.
      * rewrite Forall_forall in Hall. now apply Hall.
    + constructor; [now constructor|].
      constructor; [exact E|].
      apply Forall_forall. intros z Hz.
      rewrite Forall_forall in Hall. specialize (Hall z Hz).
      unfold le in *. eapply DatetimeFacts.not_ltb_trans; eassumption.
Qed.

Lemma list_sort_sorted (l : list A) : StronglySorted le (list_sort key l).
Proof.
  induction l as [|x l IH]; simpl; [constructor|].
  now apply insert_sorted_sorted.
Qed.

(** Sorting a sorted list changes nothing. *)
Lemma list_sort_fixpoint (l : list A) :
  StronglySorted le l -> list_sort key l = l.
Proof.
  induction 1 as [|x l Hs IH Hall]; simpl; [reflexivity|].
  rewrite IH. destruct l as [|y l]; simpl; [reflexivity|].
  inversion Hall as [|? ? Hxy _]; subst. unfold le in Hxy. now rewrite Hxy.
Qed.

Lemma list_sort_idempotent (l : list A) :
  list_sort key (list_sort key l) = list_sort key l.
Proof. apply list_sort_fixpoint, list_sort_sorted. Qed.

(** Stability: the entries of one key keep their order. *)
Lemma insert_sorted_same (t : datetime) (x : A) (l : list A) :
  same t (insert_sorted key x l) = same t (x :: l).
Proof.
  induction l as [|y l IH]; [reflexivity|].
  simpl. destruct (Datetime.ltb (key y) (key x)) eqn:E; [|reflexivity].
  simpl. fold (same t (insert_sorted key x l)). rewrite IH. simpl.
  destruct (Datetime.eqb (key x) t) eqn:Ex; [|reflexivity].
  destruct (Datetime.eqb (key y) t) eqn:Ey; [|reflexivity].
  apply DatetimeFacts.eqb_eq in Ex, Ey. rewrite Ex, Ey in E.
  rewrite DatetimeFacts.ltb_irrefl in E. discriminate.
Qed.

Lemma list_sort_stable (t : datetime) (l : list A) :
  same t (list_sort key l) = same t l.
Proof.
  induction l as [|x l IH]; [reflexivity|].
  simpl list_sort. rewrite insert_sorted_same. simpl. fold (same t (list_sort key l)).
  fold (same t l). now rewrite IH.
Qed.

Lemma same_nil_of_later (t : datetime) (l : list A) :
  Forall (fun z => Datetime.ltb t (key z) = true) l -> same t l = [].
Proof.
  induction 1 as [|z l Hz _ IH]; [reflexivity|].
  simpl. fold (same t l). rewrite IH.
  destruct (Datetime.eqb (key z) t) eqn:E; [|reflexivity].
  apply DatetimeFacts.eqb_eq in E. rewrite E, DatetimeFacts.ltb_irrefl in Hz.
  discriminate.
Qed.

(** A sorted list is determined by its entries key by key: any stable
    sorting routine returns [list_sort]. *)
Lemma sorted_same_unique (l1 : list A) :
  forall l2,
    StronglySorted le l1 -> StronglySorted le l2 ->
    (forall t, same t l1 = same t l2) -> l1 = l2.
Proof.
  induction l1 as [|x l1 IH]; intros l2 H1 H2 Hsame.
  - destruct l2 as [|y l2]; [reflexivity|].
    specialize (Hsame (key y)). simpl in Hsame.
    rewrite DatetimeFacts.eqb_refl in Hsame. discriminate.
  - destruct l2 as [|y l2].
    { specialize (Hsame (key x)). simpl in Hsame.
      rewrite DatetimeFacts.eqb_refl in Hsame. discriminate. }
    inversion H1 as [|? ? H1s H1a]; subst.
    inversion H2 as [|? ? H2s H2a]; subst.
    assert (key x = key y) as Hk.
    { apply DatetimeFacts.not_ltb_antisym.
      - destruct (Datetime.ltb (key x) (key y)) eqn:E; [|reflexivity].
        exfalso. specialize (Hsame (key x)).
        assert (same (key x) (y :: l2) = []) as Hnil.
        { apply same_nil_of_later. constructor; [exact E|].
          apply Forall_forall. intros z Hz. rewrite Forall_forall in H2a.
          specialize (H2a z Hz). unfold le in H2a.
          destruct (Datetime.ltb (key x) (key z)) eqn:Ez; [reflexivity|].
          rewrite (DatetimeFacts.not_ltb_trans _ _ _ H2a Ez) in E. discriminate. }
        rewrite Hnil in Hsame. simpl in Hsame.
        rewrite DatetimeFacts.eqb_refl in Hsame. discriminate.
      - destruct (Datetime.ltb (key y) (key x)) eqn:E; [|reflexivity].
        exfalso. specialize (Hsame (key y)).
        assert (same (key y) (x :: l1) = []) as Hnil.
        { apply same_nil_of_later. constructor; [exact E|].
          apply Forall_forall. intros z Hz. rewrite Forall_forall in H1a.
          specialize (H1a z Hz). unfold le in H1a.
          destruct (Datetime.ltb (key y) (key z)) eqn:Ez; [reflexivity|].
          rewrite (DatetimeFacts.not_ltb_trans _ _ _ H1a Ez) in E. discriminate. }
        rewrite Hnil in Hsame. simpl in Hsame.
        rewrite DatetimeFacts.eqb_refl in Hsame. discriminate. }
    assert (x = y) as ->.
    { specialize (Hsame (key x)). simpl in Hsame.
      rewrite <- Hk, DatetimeFacts.eqb_refl in Hsame. now inversion Hsame. }
    f_equal. apply IH; auto.
    intros t. specialize (Hsame t). simpl in Hsame.
    destruct (Datetime.eqb (key y) t); [now inversion Hsame|exact Hsame].
Qed.

Lemma list_sort_unique (l l' : list A) :
  StronglySorted le l' -> (forall t, same t l' = same t l) ->
  l' = list_sort key l.
Proof.
  intros Hs Hsame. apply sorted_same_unique; auto.
  - apply list_sort_sorted.
  - intros t. now rewrite list_sort_stable.
Qed.

(** In a sorted list, an entry of smaller key never stands later. *)
Lemma sorted_nth_order (l : list A) :
  StronglySorted le l ->
  forall i j a b,
    nth_error l i = Some a -> nth_error l j = Some b ->
    Datetime.ltb (key a) (key b) = true -> (i < j)%nat.
Proof.
  induction 1 as [|x l Hs IH Hall]; intros i j a b Hi Hj Hlt.
  - destruct i; discriminate.
  - destruct i as [|i], j as [|j]; simpl in *.
    + inversion Hi; inversion Hj; subst.
      rewrite DatetimeFacts.ltb_irrefl in Hlt. discriminate.
    + lia.
    + inversion Hj; subst. apply nth_error_In in Hi.
      rewrite Forall_forall in Hall. specialize (Hall a Hi). unfold le in Hall.
      congruence.
    + apply -> Nat.succ_lt_mono. eapply IH; eauto.
Qed.

End ListSortFacts.

(* ================================================================== *)
(** ** Ingestion: [process_log_files] *)

Section Ingest.

Context `{RE : ReModule} `{ENV : Environment}.

Variable self : LogProcessor.
Variables log_regex_edit time_regex_edit : string.

Lemma max_workers_positive (uploaded_files : list BytesIO) :
  uploaded_files <> [] -> Nat.eqb (max_workers uploaded_files) 0 = false.
Proof.
  intros Hne. apply Nat.eqb_neq. unfold max_workers.
  destruct uploaded_files as [|f fs]; [contradiction|]. simpl List.length.
  destruct os_cpu_count as [[|n]|]; lia.
Qed.

Lemma process_log_files_arrival (uploaded_files : list BytesIO)
  (file_names : list string) :
  uploaded_files <> [] ->
  process_log_files self uploaded_files file_names log_regex_edit time_regex_edit
  = Ok (list_sort sort_key
          (fst (arrival self uploaded_files file_names log_regex_edit time_regex_edit)),
        snd (arrival self uploaded_files file_names log_regex_edit time_regex_edit)).
Proof.
  intros Hne. unfold process_log_files, arrival.
  rewrite (max_workers_positive _ Hne).
  now destruct (fold_left _ _ _).
Qed.

Lemma process_log_files_empty (file_names : list string) :
  process_log_files self [] file_names log_regex_edit time_regex_edit
  = Raise ValueError.
Proof.
  unfold process_log_files, max_workers. simpl. now rewrite Nat.min_0_r.
Qed.

(** The collection of the futures is a concatenation in submission order. *)
Lemma fold_collect (futures : list (result (list LogEntry * string))) :
  forall all_logs failed_files,
    fold_left collect futures (all_logs, failed_files)
    = (all_logs ++ flat_map (fun fu => match fu with
                                       | Ok (l, _) => l
                                       | Raise _ => []
                                       end) futures,
       failed_files ++ flat_map (fun fu => match fu with
                                           | Ok ([], n) => [n]
                                           | _ => []
                                           end) futures).
Proof.
  induction futures as [|fu futures IH]; intros all_logs failed_files; simpl.
  - now rewrite !app_nil_r.
  - destruct fu as [[[|e l] n]|e]; simpl; rewrite IH; simpl;
      now rewrite <- ?app_assoc, ?app_nil_r.
Qed.

Lemma arrival_spec (uploaded_files : list BytesIO) (file_names : list string) :
  arrival self uploaded_files file_names log_regex_edit time_regex_edit
  = (flat_map (entries_of self log_regex_edit time_regex_edit)
              (combine uploaded_files file_names),
     flat_map (reported self log_regex_edit time_regex_edit)
              (combine uploaded_files file_names)).
Proof.
  unfold arrival. rewrite fold_collect. simpl.
  induction (combine uploaded_files file_names) as [|[f n] l IH]; [reflexivity|].
  simpl. inversion IH as [[H1 H2]]. rewrite H1, H2.
  unfold entries_of, reported. simpl. reflexivity.
Qed.

End Ingest.

(* ================================================================== *)
(** ** The order of the ingested entries *)

Lemma absent_before_later_of_sorted (l : list LogEntry) :
  StronglySorted key_le l -> absent_before_later l.
Proof.
  intros Hs i j a b t Hi Hj Ha Hb Hlt.
  eapply (sorted_nth_order sort_key l Hs i j a b Hi Hj).
  unfold sort_key. now rewrite Ha, Hb.
Qed.

(** C1, as amended: for every non-empty list of files the call returns,
    and the returned entries are the arrival sequence sorted ascending by
    key, an absent timestamp counting as [datetime.min].  Every entry
    without a timestamp stands before every entry stamped later than
    [datetime.min]; entries of equal key keep their arrival order; sorting
    the output again returns it unchanged.  The output is a function of the
    files, the patterns and the installation, the results of the tasks
    being collected in submission order. *)
Theorem process_log_files_sorted `{RE : ReModule} `{ENV : Environment}
  (self : LogProcessor) (uploaded_files : list BytesIO) (file_names : list string)
  (log_regex_edit time_regex_edit : string) :
  uploaded_files <> [] ->
  exists logs failed_files,
    process_log_files self uploaded_files file_names log_regex_edit time_regex_edit
    = Ok (logs, failed_files)
    /\ logs = list_sort sort_key
                (fst (arrival self uploaded_files file_names log_regex_edit time_regex_edit))
    /\ StronglySorted key_le logs
    /\ absent_before_later logs
    /\ (forall t,
          with_key t logs
          = with_key t (fst (arrival self uploaded_files file_names
                               log_regex_edit time_regex_edit)))
    /\ Permutation logs
         (fst (arrival self uploaded_files file_names log_regex_edit time_regex_edit))
    /\ list_sort sort_key logs = logs.
Proof.
  intros Hne.
  set (arrived := fst (arrival self uploaded_files file_names log_regex_edit time_regex_edit)).
  exists (list_sort sort_key arrived).
  exists (snd (arrival self uploaded_files file_names log_regex_edit time_regex_edit)).
  assert (StronglySorted key_le (list_sort sort_key arrived)) as Hs
    by apply list_sort_sorted.
  repeat split.
  - now apply process_log_files_arrival.
  - exact Hs.
  - now apply absent_before_later_of_sorted.
  - intros t. apply list_sort_stable.
  - apply list_sort_perm.
  - apply list_sort_idempotent.
Qed.

Lemma process_log_files_sorted_witness :
  exists logs failed_files,
    process_log_files LogAnalyzerApp.log_processor [epoch_file] ["a.log"] "" ""
    = Ok (logs, failed_files)
    /\ logs = list_sort sort_key
                (fst (arrival LogAnalyzerApp.log_processor [epoch_file] ["a.log"] "" ""))
    /\ StronglySorted key_le logs
    /\ absent_before_later logs
    /\ (forall t,
          with_key t logs
          = with_key t (fst (arrival LogAnalyzerApp.log_processor [epoch_file]
                               ["a.log"] "" "")))
    /\ Permutation logs
         (fst (arrival LogAnalyzerApp.log_processor [epoch_file] ["a.log"] "" ""))
    /\ list_sort sort_key logs = logs.
Proof.
  apply (process_log_files_sorted LogAnalyzerApp.log_processor [epoch_file] ["a.log"] "" "").
  intro H. discriminate H.
Defined.

(** C1, as stated, fails: the built-in patterns read ["Jan 1 00:00:00:000
    0001"] as [datetime.min], the key of an entry without a timestamp, so
    the stamped entry that arrived first stays first. *)
Lemma absent_first_counterexample :
  process_log_files LogAnalyzerApp.log_processor [epoch_file] ["a.log"] "" ""
  = Ok ([epoch_entry; untimed_entry], [])
  /\ ~ absent_first [epoch_entry; untimed_entry].
Proof.
  split; [vm_compute; reflexivity|].
  intros H.
  specialize (H 1%nat 0%nat untimed_entry epoch_entry eq_refl eq_refl eq_refl).
  assert (1 < 0)%nat as Hlt by (apply H; discriminate).
  lia.
Qed.

(* ================================================================== *)
(** ** The time-range filter *)

Lemma fold_append_filter {A : Type} (p : A -> bool) (l : list A) :
  forall acc,
    fold_left (fun out x => if p x then out ++ [x] else out) l acc
    = acc ++ filter p l.
Proof.
  induction l as [|x l IH]; intros acc; simpl.
  - now rewrite app_nil_r.
  - rewrite IH. destruct (p x); [|reflexivity].
    now rewrite <- app_assoc.
Qed.

Lemma filter_logs_by_time_range_filter (logs : list LogEntry)
  (start_time end_time : option datetime) :
  filter_logs_by_time_range logs start_time end_time
  = filter (in_time_range start_time end_time) logs.
Proof.
  unfold filter_logs_by_time_range.
  set (step := fun (result : list LogEntry) (log : LogEntry) => _).
  enough (forall out, fold_left step logs out
                      = out ++ filter (in_time_range start_time end_time) logs)
    as H by apply (H []).
  subst step.
  induction logs as [|log logs IH]; intros out; simpl.
  - now rewrite app_nil_r.
  - rewrite IH. unfold in_time_range, before, after, Datetime.leb.
    destruct (timestamp log) as [t|]; [|reflexivity].
    destruct start_time as [s|], end_time as [e|]; simpl;
      repeat match goal with |- context [Datetime.ltb ?a ?b] =>
               destruct (Datetime.ltb a b) end;
      simpl; now rewrite <- ?app_assoc.
Qed.

(** C3: the time-range filter returns, in input order, exactly the entries
    that have a timestamp within the bounds that are present.  Both bounds
    are inclusive: an entry stamped exactly [end] passes the upper bound,
    one stamped a millisecond after [end] is dropped.  An absent bound
    constrains nothing, and an entry without a timestamp is dropped
    whatever the bounds, also when both are absent. *)
Theorem filter_logs_by_time_range_spec (logs : list LogEntry)
  (start_time end_time : option datetime) :
  filter_logs_by_time_range logs start_time end_time
  = filter (in_time_range start_time end_time) logs
  /\ (forall log t,
        timestamp log = Some t ->
        in_time_range None (Some t) log = true
        /\ in_time_range (Some t) None log = true
        /\ in_time_range start_time (Some t) log = in_time_range start_time None log)
  /\ (forall log t e,
        timestamp log = Some t ->
        Datetime.valid t = true -> Datetime.valid e = true ->
        Datetime.to_microseconds t = Datetime.to_microseconds e + 1000 ->
        in_time_range start_time (Some e) log = false)
  /\ (forall log t, timestamp log = Some t -> in_time_range None None log = true)
  /\ (forall log, timestamp log = None ->
                  in_time_range start_time end_time log = false).
Proof.
  split; [apply filter_logs_by_time_range_filter|].
  unfold in_time_range.
  split; [|split; [|split]].
  - intros log t ->. rewrite DatetimeFacts.leb_refl.
    now rewrite andb_true_r.
  - intros log t e -> Vt Ve Hms.
    unfold Datetime.leb at 2.
    rewrite (CalendarFacts.to_microseconds_lt e t Ve Vt) by lia.
    apply andb_false_r.
  - now intros log t ->.
  - now intros log ->.
Qed.

Lemma filter_logs_by_time_range_spec_witness :
  filter_logs_by_time_range [on_the_bound; past_the_bound; untimed_entry]
    None (Some sample_bound)
  = [on_the_bound].
Proof.
  destruct (filter_logs_by_time_range_spec
              [on_the_bound; past_the_bound; untimed_entry] None (Some sample_bound))
    as [Hfilter [Hincl [Hexcl [_ Habsent]]]].
  rewrite Hfilter. cbn [filter].
  destruct (Hincl on_the_bound sample_bound eq_refl) as [-> _].
  rewrite (Hexcl past_the_bound (Datetime.mkDatetime 2025 5 31 23 59 0 1000)
             sample_bound eq_refl eq_refl eq_refl eq_refl).
  rewrite (Habsent untimed_entry eq_refl).
  reflexivity.
Defined.

(* ================================================================== *)
(** ** The keyword filter: accumulation *)

Lemma single_pass_filter (keep : LogEntry -> bool) (logs : list LogEntry) :
  single_pass keep logs = filter keep logs.
Proof. unfold single_pass. now rewrite fold_append_filter. Qed.

(** The loop invariant of the batched accumulation: what has been flushed,
    followed by the batch in hand, is the filtered prefix read so far. *)
Lemma batch_step_invariant (size : Z) (keep : LogEntry -> bool) (logs : list LogEntry) :
  forall filtered_logs batch,
    (let '(f, b) := fold_left (batch_step size keep) logs (filtered_logs, batch) in
     f ++ b) = filtered_logs ++ batch ++ filter keep logs.
Proof.
  induction logs as [|log logs IH]; intros filtered_logs batch; simpl.
  - now rewrite app_nil_r.
  - destruct (keep log);
      match goal with |- context [Z.leb ?a ?b] => destruct (Z.leb a b) end;
      rewrite IH; simpl; now rewrite <- ?app_assoc, ?app_nil_r.
Qed.

Lemma batched_filter (size : Z) (keep : LogEntry -> bool) (logs : list LogEntry) :
  batched size keep logs = filter keep logs.
Proof.
  unfold batched. pose proof (batch_step_invariant size keep logs [] []) as H.
  now destruct (fold_left _ _ _).
Qed.

Section KeywordFilter.

Context `{RE : ReModule}.

(** The filter depends on the accumulation only through its results. *)
Lemma filter_logs_by_keywords_with_ext
  (acc1 acc2 : (LogEntry -> bool) -> list LogEntry -> list LogEntry) :
  (forall keep logs, acc1 keep logs = acc2 keep logs) ->
  forall logs keywords,
    filter_logs_by_keywords_with acc1 logs keywords
    = filter_logs_by_keywords_with acc2 logs keywords.
Proof.
  intros Hext logs keywords. unfold filter_logs_by_keywords_with.
  destruct (is_nil keywords); [reflexivity|].
  destruct (is_nil _); [reflexivity|].
  destruct (anyM _ _) as [[|]|e]; simpl; [| now rewrite Hext | reflexivity].
  destruct (re_compile _ _); [now rewrite Hext|].
  destruct (mapM _ _); simpl; [now rewrite Hext | reflexivity].
Qed.

End KeywordFilter.

(** C9: the batched accumulation is transparent.  For every entry list,
    keyword list and batch size, the batched filter and the single-pass
    reference give the same outcome: the same entries in the same order, or
    the same exception.  In particular this holds for the batch size
    10000 of [filter_logs_by_keywords]. *)
Theorem batching_transparent `{RE : ReModule} (size : Z)
  (logs : list LogEntry) (keywords : list string) :
  filter_logs_by_keywords_with (batched size) logs keywords
  = filter_logs_by_keywords_reference logs keywords
  /\ filter_logs_by_keywords logs keywords
     = filter_logs_by_keywords_reference logs keywords
  /\ forall keep, batched size keep logs = single_pass keep logs.
Proof.
  assert (forall n keep l, batched n keep l = single_pass keep l) as H.
  { intros n keep l. now rewrite batched_filter, single_pass_filter. }
  unfold filter_logs_by_keywords, filter_logs_by_keywords_reference.
  repeat split; auto using filter_logs_by_keywords_with_ext.
Qed.

(* ================================================================== *)
(** ** Partial failure isolation *)

Section Isolation.

Context `{RE : ReModule} `{ENV : Environment}.

Variable self : LogProcessor.
Variables log_regex_edit time_regex_edit : string.

(** A file whose bytes no stage decodes ends its task with no entries. *)
Lemma undecodable_outcome (raw : list byte) (file_name : string) :
  decode_content raw = None ->
  process_file_content self (BytesIO_open raw) file_name log_regex_edit time_regex_edit
  = Ok ([], file_name).
Proof. intros H. unfold process_file_content. now rewrite H. Qed.

(** So does a file whose text has no entry. *)
Lemma no_entries_outcome (raw : list byte) (text file_name : string) :
  decode_content raw = Some text ->
  parse_log_entries self text log_regex_edit time_regex_edit = Ok [] ->
  process_file_content self (BytesIO_open raw) file_name log_regex_edit time_regex_edit
  = Ok ([], file_name).
Proof. intros H1 H2. unfold process_file_content. now rewrite H1, H2. Qed.

(** A task that ends in an exception adds nothing and reports nothing. *)
Lemma raising_task_ignored (file : BytesIO * string) (e : exn) :
  process_file_content self (fst file) (snd file) log_regex_edit time_regex_edit
  = Raise e ->
  entries_of self log_regex_edit time_regex_edit file = []
  /\ reported self log_regex_edit time_regex_edit file = [].
Proof. intros H. unfold entries_of, reported. now rewrite H. Qed.

Lemma closed_stream_ignored (file_name : string) :
  entries_of self log_regex_edit time_regex_edit (BytesIO_closed, file_name) = []
  /\ reported self log_regex_edit time_regex_edit (BytesIO_closed, file_name) = [].
Proof. now apply raising_task_ignored with (e := UnboundLocalError). Qed.

End Isolation.

(** C6: for every non-empty list of files the call returns a result, even
    when tasks fail.  A file whose bytes cannot be decoded, or whose text
    yields no entry, is named in the failed list and contributes no entry;
    the entries of every file are all among the returned ones, and the
    returned entries are exactly those of the files, the failed list
    exactly the files whose task came back empty. *)
Theorem partial_failure_isolation `{RE : ReModule} `{ENV : Environment}
  (self : LogProcessor) (uploaded_files : list BytesIO) (file_names : list string)
  (log_regex_edit time_regex_edit : string) :
  uploaded_files <> [] ->
  exists logs failed_files,
    process_log_files self uploaded_files file_names log_regex_edit time_regex_edit
    = Ok (logs, failed_files)
    /\ (forall raw file_name,
          In (BytesIO_open raw, file_name) (combine uploaded_files file_names) ->
          decode_content raw = None ->
          In file_name failed_files
          /\ entries_of self log_regex_edit time_regex_edit
               (BytesIO_open raw, file_name) = [])
    /\ (forall raw text file_name,
          In (BytesIO_open raw, file_name) (combine uploaded_files file_names) ->
          decode_content raw = Some text ->
          parse_log_entries self text log_regex_edit time_regex_edit = Ok [] ->
          In file_name failed_files
          /\ entries_of self log_regex_edit time_regex_edit
               (BytesIO_open raw, file_name) = [])
    /\ (forall file,
          In file (combine uploaded_files file_names) ->
          incl (entries_of self log_regex_edit time_regex_edit file) logs)
    /\ Permutation logs
         (flat_map (entries_of self log_regex_edit time_regex_edit)
                   (combine uploaded_files file_names))
    /\ failed_files
       = flat_map (reported self log_regex_edit time_regex_edit)
                  (combine uploaded_files file_names).
Proof.
  intros Hne.
  pose proof (process_log_files_arrival self log_regex_edit time_regex_edit
                uploaded_files file_names Hne) as Hrun.
  rewrite arrival_spec in Hrun. simpl in Hrun.
  eexists. eexists. split; [exact Hrun|].
  assert (forall raw file_name,
             In (BytesIO_open raw, file_name) (combine uploaded_files file_names) ->
             process_file_content self (BytesIO_open raw) file_name
               log_regex_edit time_regex_edit = Ok ([], file_name) ->
             In file_name (flat_map (reported self log_regex_edit time_regex_edit)
                                    (combine uploaded_files file_names))
             /\ entries_of self log_regex_edit time_regex_edit
                  (BytesIO_open raw, file_name) = []) as Hempty.
  { intros raw file_name Hin Hout. split.
    - apply in_flat_map. exists (BytesIO_open raw, file_name). split; [exact Hin|].
      unfold reported. cbn [fst snd]. rewrite Hout. now left.
    - unfold entries_of. cbn [fst snd]. now rewrite Hout. }
  split; [|split; [|split; [|split]]].
  - intros raw file_name Hin Hdec.
    apply Hempty; [assumption|]. now apply undecodable_outcome.
  - intros raw text file_name Hin Hdec Hseg.
    apply Hempty; [assumption|]. eapply no_entries_outcome; eassumption.
  - intros file Hin e He.
    apply (Permutation_in _ (Permutation_sym (list_sort_perm sort_key _))).
    apply in_flat_map. eauto.
  - apply list_sort_perm.
  - reflexivity.
Qed.

Lemma partial_failure_isolation_witness :
  exists logs failed_files,
    process_log_files LogAnalyzerApp.log_processor
      [BytesIO_open []; epoch_file; BytesIO_closed] ["empty.log"; "a.log"; "gone.log"]
      "" ""
    = Ok (logs, failed_files)
    /\ In "empty.log" failed_files
    /\ incl [epoch_entry; untimed_entry] logs.
Proof.
  destruct (partial_failure_isolation LogAnalyzerApp.log_processor
              [BytesIO_open []; epoch_file; BytesIO_closed]
              ["empty.log"; "a.log"; "gone.log"] "" "")
    as [logs [failed_files [Hrun [_ [Hempty [Hincl _]]]]]].
  - intro H. discriminate H.
  - exists logs, failed_files. split; [exact Hrun|]. split.
    + apply (Hempty [] "" "empty.log"); [now left | reflexivity | reflexivity].
    + apply (Hincl (epoch_file, "a.log")). right. now left.
Defined.

(* ================================================================== *)
(** ** Timestamp construction *)

Lemma month_map_lookup (name : string) (n : Z) :
  In (name, n) month_map -> dict_get month_map (Some name) 1 = n.
Proof.
  unfold month_map. simpl.
  intros H. repeat (destruct H as [H|H]; [inversion H; subst; reflexivity|]).
  contradiction.
Qed.

Lemma dict_get_default (d : list (string * Z)) (key : option string) (default : Z) :
  (forall name n, In (name, n) d -> key <> Some name) ->
  dict_get d key default = default.
Proof.
  intros H. destruct key as [k|]; [|reflexivity]. simpl.
  destruct (find _ d) as [[name n]|] eqn:F; [|reflexivity].
  apply find_some in F. destruct F as [Hin Heq]. simpl in Heq.
  apply String.eqb_eq in Heq. subst. exfalso. now apply (H k n).
Qed.

Section Extraction.

Context `{RE : ReModule}.

Lemma extract_log_info_keeps (self : LogProcessor) (p : re_pattern)
  (entry file_name : string) :
  re_compile (TIME_REGEX_PATTERN self) no_flags = Some p ->
  exists log,
    extract_log_info self entry file_name = Ok log
    /\ content log = entry /\ source_file log = file_name.
Proof.
  intros Hc. unfold extract_log_info, re_search. rewrite Hc. simpl.
  destruct (pattern_search p entry); eexists; split; reflexivity || (split; reflexivity).
Qed.

Lemma extract_all_keeps (self : LogProcessor) (p : re_pattern)
  (entries : list string) (file_name : string) :
  re_compile (TIME_REGEX_PATTERN self) no_flags = Some p ->
  map content (extract_all self entries file_name) = entries.
Proof.
  intros Hc. unfold extract_all.
  induction entries as [|entry entries IH]; [reflexivity|].
  simpl. destruct (extract_log_info_keeps self p entry file_name Hc)
    as [log [-> [Hcontent _]]].
  simpl. now rewrite IH, Hcontent.
Qed.

End Extraction.

(** C8: when the time pattern matches the time text with seven groups,
    the month is looked up in the table: [Jan] is 1, [Feb] 2, [Mar] 3,
    [Apr] 4, [May] 5, [Jun] 6, [Jul] 7, [Aug] 8, [Sep] 9, [Oct] 10,
    [Nov] 11, [Dec] 12, and a month group that is none of these twelve
    names (or did not take part in the match) gives month 1.  If the six
    numeric fields convert and the constructor accepts them, the timestamp
    is built from them, the millisecond field times 1000 as microseconds;
    if a field does not convert or the constructor rejects the fields (a
    day 32, say), the result is absent and no exception leaves
    [parse_log_time].  An entry in which the time pattern finds that time
    text is returned by [extract_log_info] with its content, its file
    name, the time text, and as timestamp what [parse_log_time] gives for
    the time text: the built timestamp when the fields are accepted, and
    no timestamp when a field does not convert or the constructor rejects
    them.  A file keeps one entry per segment. *)
Theorem parse_log_time_construction `{RE : ReModule}
  (time_str pattern : string) (p : re_pattern) (mt : re_match)
  (month_str day hour minute second millisecond year : option string) :
  re_compile pattern no_flags = Some p ->
  pattern_search p time_str = Some mt ->
  m_groups mt = [month_str; day; hour; minute; second; millisecond; year] ->
  (forall name n,
      In (name, n) [("Jan", 1); ("Feb", 2); ("Mar", 3); ("Apr", 4); ("May", 5);
                    ("Jun", 6); ("Jul", 7); ("Aug", 8); ("Sep", 9); ("Oct", 10);
                    ("Nov", 11); ("Dec", 12)] ->
      month_str = Some name -> dict_get month_map month_str 1 = n)
  /\ ((forall name,
          In name ["Jan"; "Feb"; "Mar"; "Apr"; "May"; "Jun"; "Jul"; "Aug"; "Sep";
                   "Oct"; "Nov"; "Dec"] -> month_str <> Some name) ->
      dict_get month_map month_str 1 = 1)
  /\ (forall y d h mi s ms,
        PyStr.int year = Ok y -> PyStr.int day = Ok d -> PyStr.int hour = Ok h ->
        PyStr.int minute = Ok mi -> PyStr.int second = Ok s ->
        PyStr.int millisecond = Ok ms ->
        parse_log_time time_str pattern
        = if Datetime.valid_fields y (dict_get month_map month_str 1) d h mi s (ms * 1000)
          then Some (Datetime.mkDatetime y (dict_get month_map month_str 1) d h mi s
                       (ms * 1000))
          else None)
  /\ ((is_ok (PyStr.int year) && is_ok (PyStr.int day) && is_ok (PyStr.int hour)
       && is_ok (PyStr.int minute) && is_ok (PyStr.int second)
       && is_ok (PyStr.int millisecond))%bool = false ->
      parse_log_time time_str pattern = None)
  /\ (forall self entry file_name mt0,
        TIME_REGEX_PATTERN self = pattern ->
        pattern_search p entry = Some mt0 ->
        m_group0 mt0 = time_str ->
        extract_log_info self entry file_name
        = Ok (mkLogEntry entry (parse_log_time time_str pattern) file_name time_str)
        /\ (forall y d h mi s ms,
              PyStr.int year = Ok y -> PyStr.int day = Ok d -> PyStr.int hour = Ok h ->
              PyStr.int minute = Ok mi -> PyStr.int second = Ok s ->
              PyStr.int millisecond = Ok ms ->
              Datetime.valid_fields y (dict_get month_map month_str 1) d h mi s
                (ms * 1000) = true ->
              extract_log_info self entry file_name
              = Ok (mkLogEntry entry
                      (Some (Datetime.mkDatetime y (dict_get month_map month_str 1)
                               d h mi s (ms * 1000)))
                      file_name time_str))
        /\ (forall y d h mi s ms,
              PyStr.int year = Ok y -> PyStr.int day = Ok d -> PyStr.int hour = Ok h ->
              PyStr.int minute = Ok mi -> PyStr.int second = Ok s ->
              PyStr.int millisecond = Ok ms ->
              Datetime.valid_fields y (dict_get month_map month_str 1) d h mi s
                (ms * 1000) = false ->
              extract_log_info self entry file_name
              = Ok (mkLogEntry entry None file_name time_str))
        /\ ((is_ok (PyStr.int year) && is_ok (PyStr.int day) && is_ok (PyStr.int hour)
             && is_ok (PyStr.int minute) && is_ok (PyStr.int second)
             && is_ok (PyStr.int millisecond))%bool = false ->
            extract_log_info self entry file_name
            = Ok (mkLogEntry entry None file_name time_str)))
  /\ (forall self entry file_name,
        TIME_REGEX_PATTERN self = pattern ->
        exists log,
          extract_log_info self entry file_name = Ok log
          /\ content log = entry /\ source_file log = file_name)
  /\ (forall self entries file_name,
        TIME_REGEX_PATTERN self = pattern ->
        map content (extract_all self entries file_name) = entries).
Proof.
  intros Hc Hs Hg.
  assert (parse_log_time_try time_str pattern
          = (y <- PyStr.int year ;;
             d <- PyStr.int day ;;
             h <- PyStr.int hour ;;
             mi <- PyStr.int minute ;;
             s <- PyStr.int second ;;
             ms <- PyStr.int millisecond ;;
             dt <- Datetime.new y (dict_get month_map month_str 1) d h mi s (ms * 1000) ;;
             Ok (Some dt))) as Htry.
  { unfold parse_log_time_try, re_search. rewrite Hc. simpl. now rewrite Hs, Hg. }
  assert (forall y d h mi s ms,
             PyStr.int year = Ok y -> PyStr.int day = Ok d -> PyStr.int hour = Ok h ->
             PyStr.int minute = Ok mi -> PyStr.int second = Ok s ->
             PyStr.int millisecond = Ok ms ->
             parse_log_time time_str pattern
             = if Datetime.valid_fields y (dict_get month_map month_str 1) d h mi s
                    (ms * 1000)
               then Some (Datetime.mkDatetime y (dict_get month_map month_str 1) d h mi s
                            (ms * 1000))
               else None) as Hbuild.
  { intros y d h mi s ms Hy Hd Hh Hmi Hsec Hms.
    unfold parse_log_time. rewrite Htry, Hy, Hd, Hh, Hmi, Hsec, Hms. simpl.
    unfold Datetime.new. now destruct (Datetime.valid_fields _ _ _ _ _ _ _). }
  assert ((is_ok (PyStr.int year) && is_ok (PyStr.int day) && is_ok (PyStr.int hour)
           && is_ok (PyStr.int minute) && is_ok (PyStr.int second)
           && is_ok (PyStr.int millisecond))%bool = false ->
          parse_log_time time_str pattern = None) as Hfails.
  { intros Hfail. unfold parse_log_time. rewrite Htry.
    destruct (PyStr.int year); simpl in *; [|reflexivity].
    destruct (PyStr.int day); simpl in *; [|reflexivity].
    destruct (PyStr.int hour); simpl in *; [|reflexivity].
    destruct (PyStr.int minute); simpl in *; [|reflexivity].
    destruct (PyStr.int second); simpl in *; [|reflexivity].
    destruct (PyStr.int millisecond); simpl in *; [discriminate|reflexivity]. }
  split.
  { intros name n Hin ->. apply month_map_lookup. exact Hin. }
  split.
  { intros Hnone. apply dict_get_default. intros name n Hin.
    apply Hnone. apply (in_map fst) in Hin. exact Hin. }
  split; [exact Hbuild|]. split; [exact Hfails|].
  split; [|split].
  - intros self entry file_name mt0 Hpat Hs0 Hg0.
    assert (extract_log_info self entry file_name
            = Ok (mkLogEntry entry (parse_log_time time_str pattern) file_name time_str))
      as Hentry.
    { unfold extract_log_info, re_search. rewrite Hpat, Hc. cbn [bind].
      rewrite Hs0. now rewrite Hg0. }
    split; [exact Hentry|]. split; [|split].
    + intros y d h mi s ms Hy Hd Hh Hmi Hsec Hms Hvalid.
      rewrite Hentry, (Hbuild y d h mi s ms) by assumption. now rewrite Hvalid.
    + intros y d h mi s ms Hy Hd Hh Hmi Hsec Hms Hvalid.
      rewrite Hentry, (Hbuild y d h mi s ms) by assumption. now rewrite Hvalid.
    + intros Hfail. now rewrite Hentry, Hfails.
  - intros self entry file_name <-. eapply extract_log_info_keeps. exact Hc.
  - intros self entries file_name <-. eapply extract_all_keeps. exact Hc.
Qed.

Lemma parse_log_time_construction_witness :
  parse_log_time may_3_text LogAnalyzerApp.TIME_REGEX_PATTERN
  = Some (Datetime.mkDatetime 2025 5 3 10 20 30 123000)
  /\ parse_log_time unknown_month_text LogAnalyzerApp.TIME_REGEX_PATTERN
     = Some (Datetime.mkDatetime 2025 1 3 10 20 30 123000)
  /\ parse_log_time day32_text LogAnalyzerApp.TIME_REGEX_PATTERN = None
  /\ extract_log_info LogAnalyzerApp.log_processor day32_entry_text "a.log"
     = Ok (mkLogEntry day32_entry_text None "a.log" day32_text).
Proof.
  assert (exists p, compiled_time_pattern = Some p) as [p Hp]
    by (eexists; reflexivity).
  assert (re_compile LogAnalyzerApp.TIME_REGEX_PATTERN no_flags = Some p) as Hc.
  { rewrite <- Hp. vm_compute. reflexivity. }
  assert (exists mt, pattern_search p may_3_text = Some mt
                     /\ m_groups mt = may_3_groups) as [mt_may [Hs_may Hg_may]].
  { inversion Hp. eexists. split; vm_compute; reflexivity. }
  assert (exists mt, pattern_search p unknown_month_text = Some mt
                     /\ m_groups mt = unknown_month_groups)
    as [mt_unk [Hs_unk Hg_unk]].
  { inversion Hp. eexists. split; vm_compute; reflexivity. }
  assert (exists mt, pattern_search p day32_text = Some mt
                     /\ m_groups mt = day32_groups) as [mt_32 [Hs_32 Hg_32]].
  { inversion Hp. eexists. split; vm_compute; reflexivity. }
  assert (exists mt0, pattern_search p day32_entry_text = Some mt0
                      /\ m_group0 mt0 = day32_text) as [mt0 [Hs0 Hg0]].
  { inversion Hp. eexists. split; vm_compute; reflexivity. }
  split; [|split; [|split]].
  - destruct (parse_log_time_construction (RE := sre_module) may_3_text
                LogAnalyzerApp.TIME_REGEX_PATTERN p mt_may
                (Some "May") (Some "3") (Some "10") (Some "20") (Some "30")
                (Some "123") (Some "2025") Hc Hs_may Hg_may)
      as [Htable [_ [Hbuild _]]].
    rewrite (Hbuild 2025 3 10 20 30 123) by reflexivity.
    rewrite (Htable "May" 5) by (simpl; auto 10 || reflexivity).
    reflexivity.
  - destruct (parse_log_time_construction (RE := sre_module) unknown_month_text
                LogAnalyzerApp.TIME_REGEX_PATTERN p mt_unk
                (Some "Mai") (Some "3") (Some "10") (Some "20") (Some "30")
                (Some "123") (Some "2025") Hc Hs_unk Hg_unk)
      as [_ [Hdefault [Hbuild _]]].
    rewrite (Hbuild 2025 3 10 20 30 123) by reflexivity.
    rewrite Hdefault; [reflexivity|].
    intros name Hin. simpl in Hin.
    repeat (destruct Hin as [<-|Hin]; [discriminate|]). contradiction.
  - destruct (parse_log_time_construction (RE := sre_module) day32_text
                LogAnalyzerApp.TIME_REGEX_PATTERN p mt_32
                (Some "May") (Some "32") (Some "10") (Some "20") (Some "30")
                (Some "123") (Some "2025") Hc Hs_32 Hg_32)
      as [_ [_ [Hbuild _]]].
    rewrite (Hbuild 2025 32 10 20 30 123) by reflexivity. reflexivity.
  - destruct (parse_log_time_construction (RE := sre_module) day32_text
                LogAnalyzerApp.TIME_REGEX_PATTERN p mt_32
                (Some "May") (Some "32") (Some "10") (Some "20") (Some "30")
                (Some "123") (Some "2025") Hc Hs_32 Hg_32)
      as [_ [_ [_ [_ [Hentry _]]]]].
    destruct (Hentry LogAnalyzerApp.log_processor day32_entry_text "a.log" mt0
                eq_refl Hs0 Hg0) as [_ [_ [Hrejected _]]].
    apply (Hrejected 2025 32 10 20 30 123); reflexivity.
Defined.

(* ================================================================== *)
(** ** Segmentation and the pattern overrides *)

Section Overrides.

Context `{RE : ReModule}.

Variable self : LogProcessor.

Lemma compile_or_default_ok (text default : string) (fl : re_flags) (p : re_pattern) :
  re_compile default fl = Some p ->
  exists q, compile_or_default text default fl = Ok q.
Proof.
  intros Hd. unfold compile_or_default.
  destruct (re_compile text fl) as [q|]; [now exists q|].
  rewrite Hd. now exists p.
Qed.

(** The entries that a compiled frame pattern cuts out of a text. *)
Lemma parse_log_entries_frames (text log_regex_edit time_regex_edit : string)
  (t : re_pattern) :
  re_compile (TIME_REGEX_PATTERN self) no_flags = Some t ->
  parse_log_entries self text log_regex_edit time_regex_edit
  = (log_pattern <-
       compile_or_default
         (str_or (PyStr.strip log_regex_edit) (LOG_REGEX_PATTERN self))
         (LOG_REGEX_PATTERN self) flag_DOTALL ;;
     entries <- mapM (fun mt => g <- group1 mt ;; strip_method g)
                     (pattern_finditer log_pattern (PyStr.replace_crlf text)) ;;
     Ok (filter (fun entry => negb (PyStr.is_empty entry)) entries)).
Proof.
  intros Ht. unfold parse_log_entries.
  destruct (compile_or_default _ _ flag_DOTALL) as [lp|e]; [|reflexivity].
  simpl.
  destruct (compile_or_default_ok
              (str_or (PyStr.strip time_regex_edit) (TIME_REGEX_PATTERN self))
              (TIME_REGEX_PATTERN self) no_flags t Ht) as [q ->].
  reflexivity.
Qed.

(** The text of the time editor has no part in the result. *)
Lemma parse_log_entries_time_edit (text log_regex_edit te1 te2 : string)
  (t : re_pattern) :
  re_compile (TIME_REGEX_PATTERN self) no_flags = Some t ->
  parse_log_entries self text log_regex_edit te1
  = parse_log_entries self text log_regex_edit te2.
Proof.
  intros Ht.
  now rewrite (parse_log_entries_frames _ _ te1 t Ht),
              (parse_log_entries_frames _ _ te2 t Ht).
Qed.

(** A frame override that does not compile is replaced by the default. *)
Lemma frame_override_fallback (text log_regex_edit time_regex_edit : string) :
  re_compile (PyStr.strip log_regex_edit) flag_DOTALL = None ->
  parse_log_entries self text log_regex_edit time_regex_edit
  = parse_log_entries self text "" time_regex_edit.
Proof.
  intros Hc. unfold parse_log_entries.
  replace (compile_or_default
             (str_or (PyStr.strip log_regex_edit) (LOG_REGEX_PATTERN self))
             (LOG_REGEX_PATTERN self) flag_DOTALL)
    with (compile_or_default
            (str_or (PyStr.strip "") (LOG_REGEX_PATTERN self))
            (LOG_REGEX_PATTERN self) flag_DOTALL); [reflexivity|].
  change (str_or (PyStr.strip "") (LOG_REGEX_PATTERN self))
    with (LOG_REGEX_PATTERN self).
  unfold compile_or_default, str_or.
  destruct (PyStr.is_empty (PyStr.strip log_regex_edit)); [reflexivity|].
  rewrite Hc. now destruct (re_compile (LOG_REGEX_PATTERN self) flag_DOTALL).
Qed.

(** A frame override that compiles is the pattern that cuts the text. *)
Lemma frame_override_used (text log_regex_edit time_regex_edit : string)
  (p t : re_pattern) :
  PyStr.strip log_regex_edit <> "" ->
  re_compile (PyStr.strip log_regex_edit) flag_DOTALL = Some p ->
  re_compile (TIME_REGEX_PATTERN self) no_flags = Some t ->
  parse_log_entries self text log_regex_edit time_regex_edit
  = (entries <- mapM (fun mt => g <- group1 mt ;; strip_method g)
                     (pattern_finditer p (PyStr.replace_crlf text)) ;;
     Ok (filter (fun entry => negb (PyStr.is_empty entry)) entries)).
Proof.
  intros Hne Hc Ht. rewrite (parse_log_entries_frames _ _ _ t Ht).
  unfold compile_or_default, str_or.
  destruct (PyStr.strip log_regex_edit) as [|c r]; [contradiction|].
  simpl. now rewrite Hc.
Qed.

End Overrides.

Section OverridesIngest.

Context `{RE : ReModule} `{ENV : Environment}.

Lemma process_file_content_time_edit (self : LogProcessor) (file_obj : BytesIO)
  (file_name log_regex_edit te1 te2 : string) (t : re_pattern) :
  re_compile (TIME_REGEX_PATTERN self) no_flags = Some t ->
  process_file_content self file_obj file_name log_regex_edit te1
  = process_file_content self file_obj file_name log_regex_edit te2.
Proof.
  intros Ht. unfold process_file_content.
  destruct file_obj as [raw|]; [|reflexivity].
  destruct (decode_content raw) as [text|]; [|reflexivity].
  now rewrite (parse_log_entries_time_edit self text log_regex_edit te1 te2 t Ht).
Qed.

Lemma process_log_files_time_edit (self : LogProcessor)
  (uploaded_files : list BytesIO) (file_names : list string)
  (log_regex_edit te1 te2 : string) (t : re_pattern) :
  re_compile (TIME_REGEX_PATTERN self) no_flags = Some t ->
  process_log_files self uploaded_files file_names log_regex_edit te1
  = process_log_files self uploaded_files file_names log_regex_edit te2.
Proof.
  intros Ht. unfold process_log_files.
  destruct (Nat.eqb _ 0); [reflexivity|].
  replace (map (fun '(file_obj, file_name) =>
                  process_file_content self file_obj file_name log_regex_edit te1)
               (combine uploaded_files file_names))
    with (map (fun '(file_obj, file_name) =>
                 process_file_content self file_obj file_name log_regex_edit te2)
              (combine uploaded_files file_names)); [reflexivity|].
  apply map_ext. intros [file_obj file_name].
  apply (process_file_content_time_edit self file_obj file_name _ te2 te1 t Ht).
Qed.

End OverridesIngest.

Lemma built_in_time_pattern_compiles :
  re_compile LogAnalyzerApp.TIME_REGEX_PATTERN no_flags = compiled_time_pattern.
Proof. vm_compute. reflexivity. Qed.

Lemma built_in_time_pattern_some :
  exists t, re_compile LogAnalyzerApp.TIME_REGEX_PATTERN no_flags = Some t.
Proof. rewrite built_in_time_pattern_compiles. now eexists. Qed.



(** C5, on the code: the time override is compiled and then dropped.  The
    result of ingestion is the same whatever the time editor holds; with a
    dash-separated time pattern in the editor, which compiles and which
    would stamp the entry when used as the processor's pattern, the entry
    is returned without a timestamp. *)
Theorem time_override_unused :
  (forall uploaded_files file_names log_regex_edit te1 te2,
      process_log_files LogAnalyzerApp.log_processor uploaded_files file_names
        log_regex_edit te1
      = process_log_files LogAnalyzerApp.log_processor uploaded_files file_names
          log_regex_edit te2)
  /\ is_some (re_compile dash_time_pattern no_flags) = true
  /\ process_log_files LogAnalyzerApp.log_processor [dash_file] ["a.log"] ""
       dash_time_pattern
     = Ok ([dash_entry_unstamped], [])
  /\ process_log_files
       (mkLogProcessor LogAnalyzerApp.LOG_REGEX_PATTERN dash_time_pattern)
       [dash_file] ["a.log"] "" ""
     = Ok ([dash_entry_stamped], []).
Proof.
  split; [|split; [|split]].
  - destruct built_in_time_pattern_some as [t Ht].
    intros.
    now apply (process_log_files_time_edit LogAnalyzerApp.log_processor) with (t := t).
  - vm_compute. reflexivity.
  - vm_compute. reflexivity.
  - vm_compute. reflexivity.
Qed.

(* ================================================================== *)
(** ** The keyword filter: which entries match *)

Module StrFacts.

Lemma lower_length (s : string) : String.length (PyStr.lower s) = String.length s.
Proof. induction s; simpl; auto. Qed.

Lemma lower_app (a b : string) :
  PyStr.lower (a ++ b)%string = (PyStr.lower a ++ PyStr.lower b)%string.
Proof. induction a as [|c a IH]; simpl; [reflexivity|now rewrite IH]. Qed.

(** [k] is a prefix of [lower s] exactly when [s] starts with a text whose
    lower case is [k]. *)
Lemma prefix_lower (k : string) :
  forall s,
    String.prefix k (PyStr.lower s) = true
    <-> exists mid post, s = (mid ++ post)%string /\ PyStr.lower mid = k.
Proof.
  induction k as [|c k IH]; intros s.
  - split; [|now destruct (PyStr.lower s)].
    intros _. exists EmptyString, s. now split.
  - destruct s as [|d s]; simpl.
    + split; [discriminate|].
      intros [[|? ?] [post [H1 H2]]]; simpl in *; discriminate.
    + destruct (ascii_dec c (PyStr.lower_char d)) as [Heq|Hne].
      * rewrite IH. split.
        -- intros [mid [post [-> Hm]]]. exists (String d mid), post.
           simpl. subst. now split.
        -- intros [[|d' mid] [post [H1 H2]]]; simpl in *; [discriminate|].
           inversion H1; inversion H2; subst. now exists mid, post.
      * split; [discriminate|].
        intros [[|d' mid] [post [H1 H2]]]; simpl in *; [discriminate|].
        inversion H1; inversion H2; subst. contradiction.
Qed.

Lemma contains_unfold (k s : string) :
  PyStr.contains k s
  = if String.prefix k s then true
    else match s with
         | EmptyString => false
         | String _ r => PyStr.contains k r
         end.
Proof. now destruct s. Qed.

Lemma contains_lower (k : string) :
  forall s,
    PyStr.contains k (PyStr.lower s) = true
    <-> exists pre mid post, s = (pre ++ mid ++ post)%string /\ PyStr.lower mid = k.
Proof.
  induction s as [|d s IH]; rewrite contains_unfold.
  - destruct (String.prefix k (PyStr.lower EmptyString)) eqn:P.
    + split; [|reflexivity]. intros _.
      apply prefix_lower in P. destruct P as [mid [post [H1 H2]]].
      now exists EmptyString, mid, post.
    + split; [discriminate|]. intros [pre [mid [post [H1 H2]]]].
      destruct pre; [|discriminate]. simpl in H1.
      assert (String.prefix k (PyStr.lower EmptyString) = true) as P'
        by (apply prefix_lower; now exists mid, post).
      congruence.
  - destruct (String.prefix k (PyStr.lower (String d s))) eqn:P.
    + split; [|reflexivity]. intros _.
      apply prefix_lower in P. destruct P as [mid [post [H1 H2]]].
      now exists EmptyString, mid, post.
    + cbn [PyStr.lower]. rewrite IH. split.
      * intros [pre [mid [post [-> Hm]]]]. now exists (String d pre), mid, post.
      * intros [[|d' pre] [mid [post [H1 H2]]]].
        -- simpl in H1.
           assert (String.prefix k (PyStr.lower (String d s)) = true) as P'
             by (apply prefix_lower; now exists mid, post).
           congruence.
        -- simpl in H1. inversion H1; subst. now exists pre, mid, post.
Qed.

End StrFacts.

(** The test of the filter on the substring path, in words. *)
Lemma mentions_spec (keywords : list string) (log : LogEntry) :
  mentions keywords log = true
  <-> exists k, In k keywords /\ PyStr.strip k <> ""
                /\ occurs_ignoring_case (PyStr.strip k) (content log).
Proof.
  unfold mentions, trimmed, occurs_ignoring_case. rewrite existsb_exists. split.
  - intros [k' [Hin Hc]]. apply in_map_iff in Hin. destruct Hin as [k [<- Hin]].
    apply filter_In in Hin. destruct Hin as [Hin Hne].
    exists k. split; [exact Hin|]. split.
    + intros E. rewrite E in Hne. discriminate.
    + now apply StrFacts.contains_lower.
  - intros [k [Hin [Hne Hocc]]]. exists (PyStr.strip k). split.
    + apply in_map, filter_In. split; [exact Hin|].
      destruct (PyStr.strip k); [contradiction|reflexivity].
    + now apply StrFacts.contains_lower.
Qed.

Lemma trimmed_nil (keywords : list string) :
  (forall k, In k keywords -> PyStr.strip k = "") -> trimmed keywords = [].
Proof.
  unfold trimmed. induction keywords as [|k ks IH]; intros H; [reflexivity|].
  simpl. rewrite (H k) by now left. simpl. apply IH. intros; apply H; now right.
Qed.

Lemma trimmed_in (keywords : list string) (k : string) :
  In k (trimmed keywords) <-> exists k0, In k0 keywords /\ PyStr.strip k0 = k /\ k <> "".
Proof.
  unfold trimmed. rewrite in_map_iff. split.
  - intros [k0 [<- Hin]]. apply filter_In in Hin. destruct Hin as [Hin Hne].
    exists k0. repeat split; auto. intros E. rewrite E in Hne. discriminate.
  - intros [k0 [Hin [<- Hne]]]. exists k0. split; [reflexivity|].
    apply filter_In. split; [exact Hin|]. now destruct (PyStr.strip k0).
Qed.

(** *** The metacharacter test on the engine *)

Lemma metachar_pattern_compiles :
  re_compile metachar_pattern no_flags = compiled_metachar_pattern.
Proof. vm_compute. reflexivity. Qed.

Lemma metachar_set (c : ascii) :
  Sre.set_matches (mkFlags false false) false
    (map Sre.SChar metachars) c = is_metachar c.
Proof.
  unfold Sre.set_matches, Sre.in_items, is_metachar. cbn [IGNORECASE xorb].
  induction metachars as [|d l IH]; [reflexivity|].
  cbn [map existsb Sre.in_item]. now rewrite IH.
Qed.

Lemma metachar_search_from (p : Sre.pattern) (k : string) :
  compiled_metachar_pattern = Some p ->
  forall start,
    is_some (Sre.search_from p k start false) = has_metachar k.
Proof.
  intros Hp. inversion Hp; subst p; clear Hp.
  induction k as [|c k IH]; intros start; [reflexivity|].
  cbn [has_metachar]. unfold Sre.search_from; fold Sre.search_from.
  unfold Sre.match_at. cbn [Sre.p_flags Sre.p_regex Sre.m Sre.step_char Sre.rest].
  pose proof (metachar_set c) as E. cbn [map metachars] in E. rewrite E.
  destruct (is_metachar c); cbn [andb option_map is_some orb]; [reflexivity|].
  apply IH.
Qed.

Lemma metachar_search (k : string) :
  exists mt, re_search metachar_pattern k = Ok mt /\ is_some mt = has_metachar k.
Proof.
  unfold re_search. rewrite metachar_pattern_compiles.
  unfold compiled_metachar_pattern.
  eexists. split; [reflexivity|].
  apply (metachar_search_from _ k eq_refl).
Qed.

Lemma has_regex_chars_spec (ks : list string) :
  anyM (fun k => mt <- re_search metachar_pattern k ;; Ok (is_some mt)) ks
  = Ok (existsb has_metachar ks).
Proof.
  induction ks as [|k ks IH]; [reflexivity|].
  cbn [anyM existsb]. destruct (metachar_search k) as [mt [-> <-]]. cbn [bind].
  destruct (is_some mt); [reflexivity|exact IH].
Qed.

Lemma has_metachar_lstrip (s : string) :
  has_metachar s = false -> has_metachar (PyStr.lstrip s) = false.
Proof.
  induction s as [|c s IH]; [reflexivity|].
  simpl. destruct (PyStr.isspace c); [|now simpl].
  intros H. apply orb_false_iff in H. now apply IH.
Qed.

Lemma has_metachar_rstrip (s : string) :
  has_metachar s = false -> has_metachar (PyStr.rstrip s) = false.
Proof.
  induction s as [|c s IH]; [reflexivity|].
  simpl. intros H. apply orb_false_iff in H. destruct H as [Hc Hs].
  destruct (PyStr.isspace c && PyStr.is_empty (PyStr.rstrip s))%bool; [reflexivity|].
  simpl. now rewrite Hc, IH.
Qed.

Lemma has_metachar_strip (s : string) :
  has_metachar s = false -> has_metachar (PyStr.strip s) = false.
Proof. intros H. now apply has_metachar_rstrip, has_metachar_lstrip. Qed.

Lemma existsb_map {A B : Type} (f : B -> bool) (g : A -> B) (l : list A) :
  existsb f (map g l) = existsb (fun x => f (g x)) l.
Proof. induction l as [|x l IH]; simpl; [reflexivity|now rewrite IH]. Qed.

Lemma existsb_false {A : Type} (f : A -> bool) (l : list A) :
  (forall x, In x l -> f x = false) -> existsb f l = false.
Proof.
  induction l as [|x l IH]; intros H; [reflexivity|].
  simpl. rewrite (H x) by now left. apply IH. intros; apply H; now right.
Qed.

Lemma is_nil_false {A : Type} (l : list A) (x : A) : In x l -> is_nil l = false.
Proof. now destruct l. Qed.

(** The filter on its three paths, for a keyword list that is not all
    blank. *)
Lemma filter_logs_by_keywords_paths (logs : list LogEntry) (keywords : list string) :
  trimmed keywords <> [] ->
  filter_logs_by_keywords logs keywords
  = if existsb has_metachar (trimmed keywords)
    then match re_compile (PyStr.join "|" (trimmed keywords)) flag_IGNORECASE with
         | Some combined_pattern =>
             Ok (filter (fun log => is_some (pattern_search combined_pattern (content log)))
                        logs)
         | None =>
             patterns <-
               mapM (fun k => match re_compile k flag_IGNORECASE with
                              | Some p => Ok p
                              | None => Raise ReError
                              end) (trimmed keywords) ;;
             Ok (filter (fun log =>
                           existsb (fun p => is_some (pattern_search p (content log)))
                                   patterns) logs)
         end
    else Ok (filter (mentions keywords) logs).
Proof.
  intros Hne. unfold filter_logs_by_keywords, filter_logs_by_keywords_with.
  fold (trimmed keywords).
  assert (is_nil keywords = false) as ->.
  { destruct keywords; [now elim Hne|reflexivity]. }
  assert (is_nil (trimmed keywords) = false) as ->.
  { destruct (trimmed keywords); [now elim Hne|reflexivity]. }
  rewrite has_regex_chars_spec. cbn [bind].
  destruct (existsb has_metachar (trimmed keywords)).
  - destruct (re_compile _ flag_IGNORECASE); [now rewrite batched_filter|].
    destruct (mapM _ _); simpl; [now rewrite batched_filter|reflexivity].
  - rewrite batched_filter. f_equal. apply filter_ext. intros log.
    unfold mentions. now rewrite existsb_map.
Qed.



Lemma mapM_compile_raises `{RE : ReModule} (fl : re_flags) (ks : list string) :
  (exists k, In k ks /\ re_compile k fl = None) ->
  mapM (fun k => match re_compile k fl with
                 | Some p => Ok p
                 | None => Raise ReError
                 end) ks = Raise ReError.
Proof.
  induction ks as [|k ks IH]; intros [k0 [Hin Hc]]; [contradiction|].
  simpl. destruct (re_compile k fl) eqn:E; simpl.
  - destruct Hin as [->|Hin]; [congruence|].
    rewrite IH; [reflexivity|]. now exists k0.
  - reflexivity.
Qed.

Lemma mapM_compile_ok `{RE : ReModule} (fl : re_flags) (ks : list string) :
  (forall k, In k ks -> re_compile k fl <> None) ->
  exists ps, mapM (fun k => match re_compile k fl with
                            | Some p => Ok p
                            | None => Raise ReError
                            end) ks = Ok ps.
Proof.
  induction ks as [|k ks IH]; intros H; [now exists []|].
  simpl. destruct (re_compile k fl) as [p|] eqn:E.
  - destruct IH as [ps ->]; [intros; apply H; now right|].
    simpl. now eexists.
  - exfalso. apply (H k); [now left|exact E].
Qed.

(** The regex-mode test of the filter, on an engine whose search with the
    metacharacter class finds a metacharacter in a keyword exactly when the
    keyword holds one. *)
Lemma regex_mode_test `{RE : ReModule} (ks : list string) :
  (forall k, In k ks ->
             exists mt, re_search metachar_pattern k = Ok mt
                        /\ is_some mt = has_metachar k) ->
  anyM (fun k => mt <- re_search metachar_pattern k ;; Ok (is_some mt)) ks
  = Ok (existsb has_metachar ks).
Proof.
  induction ks as [|k ks IH]; intros H; [reflexivity|].
  cbn [anyM existsb]. destruct (H k (or_introl eq_refl)) as [mt [-> <-]]. cbn [bind].
  destruct (is_some mt); [reflexivity|]. apply IH. intros k' Hk'. apply H. now right.
Qed.

(** C10, as amended, for every regex engine: [re_compile] is [None]
    exactly where that engine's [re.compile] raises [re.error].  The
    engine is only assumed to run the metacharacter test of the filter
    right on the trimmed keywords: its search with the class
    [[.*+?^${}()|[\]\\]] finds something in a keyword exactly when the
    keyword holds one of these characters.  When a trimmed keyword holds a
    metacharacter the filter is in regex mode.  If the alternation of all
    keywords then fails to compile and some keyword fails to compile on
    its own, the call raises the compilation error, whatever the entry
    list, the empty one included.  If the alternation fails but every
    keyword compiles, or if the alternation compiles, the call returns a
    result; in the second case the keywords are never compiled one by one
    and the result is the entries the combined pattern finds something
    in. *)
Theorem invalid_keyword_raises `{RE : ReModule}
  (logs : list LogEntry) (keywords : list string) :
  (forall k, In k (trimmed keywords) ->
             exists mt, re_search metachar_pattern k = Ok mt
                        /\ is_some mt = has_metachar k) ->
  (exists k, In k (trimmed keywords) /\ has_metachar k = true) ->
  (re_compile (PyStr.join "|" (trimmed keywords)) flag_IGNORECASE = None ->
   (exists k, In k (trimmed keywords) /\ re_compile k flag_IGNORECASE = None) ->
   filter_logs_by_keywords logs keywords = Raise ReError)
  /\ (re_compile (PyStr.join "|" (trimmed keywords)) flag_IGNORECASE = None ->
      (forall k, In k (trimmed keywords) -> re_compile k flag_IGNORECASE <> None) ->
      is_ok (filter_logs_by_keywords logs keywords) = true)
  /\ (forall combined_pattern,
        re_compile (PyStr.join "|" (trimmed keywords)) flag_IGNORECASE
        = Some combined_pattern ->
        filter_logs_by_keywords logs keywords
        = Ok (filter (fun log => is_some (pattern_search combined_pattern (content log)))
                     logs)).
Proof.
  intros Hengine [k [Hin Hmeta]].
  assert (filter_logs_by_keywords logs keywords
          = match re_compile (PyStr.join "|" (trimmed keywords)) flag_IGNORECASE with
            | Some combined_pattern =>
                Ok (filter (fun log =>
                              is_some (pattern_search combined_pattern (content log)))
                           logs)
            | None =>
                patterns <-
                  mapM (fun k => match re_compile k flag_IGNORECASE with
                                 | Some p => Ok p
                                 | None => Raise ReError
                                 end) (trimmed keywords) ;;
                Ok (filter (fun log =>
                              existsb (fun p => is_some (pattern_search p (content log)))
                                      patterns) logs)
            end) as ->.
  { unfold filter_logs_by_keywords, filter_logs_by_keywords_with.
    fold (trimmed keywords).
    assert (is_nil keywords = false) as ->.
    { destruct keywords; [contradiction|reflexivity]. }
    rewrite (is_nil_false _ _ Hin).
    rewrite (regex_mode_test _ Hengine). cbn [bind].
    assert (existsb has_metachar (trimmed keywords) = true) as ->
      by (apply existsb_exists; now exists k).
    destruct (re_compile _ flag_IGNORECASE); [now rewrite batched_filter|].
    destruct (mapM _ _); simpl; [now rewrite batched_filter|reflexivity]. }
  split; [|split].
  - intros -> Hbad. now rewrite (mapM_compile_raises _ _ Hbad).
  - intros -> Hgood. destruct (mapM_compile_ok _ _ Hgood) as [ps ->]. reflexivity.
  - now intros p ->.
Qed.

Lemma invalid_keyword_raises_witness :
  filter_logs_by_keywords (RE := sre_module) [] ["("] = Raise ReError
  /\ filter_logs_by_keywords (RE := sre_module) [error_entry; quiet_entry] ["("]
     = Raise ReError.
Proof.
  assert (forall k, In k (trimmed ["("]) ->
                    exists mt, @re_search sre_module metachar_pattern k = Ok mt
                               /\ is_some mt = has_metachar k) as Hengine.
  { intros k [<-|[]]. eexists. split; vm_compute; reflexivity. }
  split.
  - apply (invalid_keyword_raises (RE := sre_module) [] ["("] Hengine).
    + exists "(". split; [now left|reflexivity].
    + reflexivity.
    + exists "(". split; [now left|reflexivity].
  - apply (invalid_keyword_raises (RE := sre_module) [error_entry; quiet_entry] ["("]
             Hengine).
    + exists "(". split; [now left|reflexivity].
    + reflexivity.
    + exists "(". split; [now left|reflexivity].
Defined.

(** C10, as stated, fails: with the keywords ["("] and [")"] the filter is
    in regex mode and each keyword is an invalid pattern on its own, yet
    the alternation ["(|)"] compiles and the call returns a result. *)
Lemma invalid_keyword_counterexample :
  has_metachar "(" = true
  /\ is_some (re_compile "(" flag_IGNORECASE) = false
  /\ is_some (re_compile ")" flag_IGNORECASE) = false
  /\ filter_logs_by_keywords [] ["("; ")"] = Ok []
  /\ filter_logs_by_keywords [error_entry; quiet_entry] ["("; ")"]
     = Ok [error_entry; quiet_entry]
  /\ ~ (forall logs keywords,
          (exists k, In k (trimmed keywords) /\ has_metachar k = true) ->
          (exists k, In k (trimmed keywords) /\ re_compile k flag_IGNORECASE = None) ->
          filter_logs_by_keywords logs keywords = Raise ReError).
Proof.
  split; [vm_compute; reflexivity|].
  split; [vm_compute; reflexivity|].
  split; [vm_compute; reflexivity|].
  split; [vm_compute; reflexivity|].
  split; [vm_compute; reflexivity|].
  intros H. specialize (H [] ["("; ")"]).
  assert (@filter_logs_by_keywords sre_module [] ["("; ")"] = Raise ReError) as E.
  { apply H; exists "("; (split; [now left|reflexivity]). }
  vm_compute in E. discriminate E.
Qed.

(* ================================================================== *)
(** ** Timestamp extraction with the built-in pattern *)

Module SearchFacts.

Lemma match_at_start (p : Sre.pattern) (s : string) (start : nat) (adv : bool)
  (mt : re_match) :
  Sre.match_at p s start adv = Some mt -> m_start mt = start.
Proof.
  unfold Sre.match_at. destruct (Sre.m _ _ _ _ _); simpl; [|discriminate].
  intros H. inversion H. reflexivity.
Qed.

(** The match that a search returns is the attempt at the position where
    it starts, and every attempt before that position failed. *)
Lemma search_from_found (p : Sre.pattern) (s : string) :
  forall start adv mt,
    Sre.search_from p s start adv = Some mt ->
    exists i,
      m_start mt = (start + i)%nat /\ (i <= String.length s)%nat
      /\ Sre.match_at p (PyStr.drop i s) (start + i)
           (adv && Nat.eqb i 0)%bool = Some mt.
Proof.
  induction s as [|c s IH]; intros start adv mt; simpl.
  - destruct (Sre.match_at p "" start adv) eqn:E; [|discriminate].
    intros H. inversion H; subst. exists 0%nat.
    rewrite Nat.add_0_r, andb_true_r. repeat split; auto.
    now apply match_at_start in E.
  - destruct (Sre.match_at p (String c s) start adv) eqn:E.
    + intros H. inversion H; subst. exists 0%nat.
      rewrite Nat.add_0_r, andb_true_r. repeat split; auto; [|lia].
      now apply match_at_start in E.
    + intros H. apply IH in H. destruct H as [i [H1 [H2 H3]]].
      exists (S i). simpl. rewrite andb_false_r.
      replace (start + S i)%nat with (S start + i)%nat by lia.
      repeat split; auto; lia.
Qed.

Lemma drop_app (a b : string) : PyStr.drop (String.length a) (a ++ b)%string = b.
Proof. induction a as [|c a IH]; simpl; [now destruct b|exact IH]. Qed.

End SearchFacts.

(** The attempt at the example text gives its seven groups, whatever
    follows the text and wherever it stands. *)
Lemma match_at_may_3 (p : Sre.pattern) (post : string) (n : nat) :
  compiled_time_pattern = Some p ->
  Sre.match_at p (may_3_text ++ post)%string n false
  = Some (mkMatch n (23 + n) may_3_text may_3_groups).
Proof.
  intros Hp. inversion Hp; subst p; clear Hp.
  vm_compute. reflexivity.
Qed.

Lemma parse_log_time_may_3 :
  parse_log_time may_3_text LogAnalyzerApp.TIME_REGEX_PATTERN = Some may_3.
Proof. vm_compute. reflexivity. Qed.

Module TimePatternFacts.

Import Sre.

Lemma word_set (c : ascii) :
  set_matches (mkFlags false false) false [SCategory false Word] c
  = in_category Word c.
Proof.
  unfold set_matches, in_items. cbn [IGNORECASE existsb in_item xorb].
  now rewrite orb_false_r.
Qed.

Lemma space_set (c : ascii) :
  set_matches (mkFlags false false) false [SCategory false Space] c
  = PyStr.isspace c.
Proof.
  unfold set_matches, in_items. cbn [IGNORECASE existsb in_item xorb in_category].
  now rewrite orb_false_r.
Qed.

Lemma ends_outside_word_tail (c : ascii) (u : string) :
  ends_outside_word (String c u) = true -> ends_outside_word u = true.
Proof. destruct u; [reflexivity|]. now cbn [ends_outside_word]. Qed.

(** One or more white-space characters do not match where the next
    character is not white space. *)
Lemma m_InSet (fl : re_flags) (origin : nat) (negate : bool)
  (items : list set_item) (st : mstate) (k : mstate -> option mstate) :
  m fl origin (InSet negate items) st k = step_char (set_matches fl negate items) st k.
Proof. reflexivity. Qed.

Lemma space_loop_fails (origin : nat) (k : mstate -> option mstate)
  (fuel : nat) (st : mstate) (c : ascii) (r : string) :
  rest st = String c r -> PyStr.isspace c = false ->
  repeat_loop 1 None true
    (m (mkFlags false false) origin (InSet false [SCategory false Space]))
    k fuel 0 st = None.
Proof.
  intros Hrest Hc. destruct fuel as [|fuel]; [reflexivity|].
  cbn [repeat_loop below Nat.leb]. rewrite m_InSet.
  unfold step_char, or_else. now rewrite Hrest, space_set, Hc.
Qed.

(** A run of word characters inside a text [u] that has no white space
    and does not end in a word character: wherever the run is ended, the
    next character is not white space, so a continuation asking for white
    space always fails. *)
Lemma word_loop_fails (origin : nat) (k : mstate -> option mstate) :
  (forall st c r, rest st = String c r -> PyStr.isspace c = false -> k st = None) ->
  forall fuel cnt st u X,
    rest st = (u ++ X)%string -> u <> EmptyString ->
    no_space u = true -> ends_outside_word u = true ->
    repeat_loop 1 None true
      (m (mkFlags false false) origin (InSet false [SCategory false Word]))
      k fuel cnt st = None.
Proof.
  intros Hk. induction fuel as [|fuel IH]; intros cnt st u X Hrest Hne Hsp Hend;
    [reflexivity|].
  destruct u as [|c u]; [contradiction|].
  cbn [no_space] in Hsp. apply andb_true_iff in Hsp. destruct Hsp as [Hc Hsp].
  apply negb_true_iff in Hc.
  assert (k st = None) as Hstop by (eapply Hk; [exact Hrest|exact Hc]).
  cbn [repeat_loop below]. rewrite m_InSet. unfold step_char, or_else.
  rewrite Hrest. cbn [append]. rewrite word_set, Hstop.
  destruct (in_category Word c) eqn:Hw.
  - cbn [pos]. replace (Nat.eqb (S (pos st)) (pos st)) with false
      by (symmetry; apply Nat.eqb_neq; lia).
    rewrite andb_false_r.
    rewrite (IH (S cnt) _ u X); cbn [rest]; auto.
    + now destruct (Nat.leb 1 cnt).
    + intros ->. cbn [ends_outside_word] in Hend. rewrite Hw in Hend. discriminate.
    + eapply ends_outside_word_tail; eassumption.
  - now destruct (Nat.leb 1 cnt).
Qed.

(** A pattern that begins like the built-in time pattern, a group of word
    characters followed by white space, has no match that starts inside
    such a text [u]. *)
Lemma no_match_inside (tail : regex) (g origin : nat)
  (kf : mstate -> option mstate) (st : mstate) (u X : string) :
  rest st = (u ++ X)%string -> u <> EmptyString ->
  no_space u = true -> ends_outside_word u = true ->
  m (mkFlags false false) origin
    (Seq (Subpattern g (Seq (Repeat 1 None true (InSet false [SCategory false Word]))
                            Empty))
         (Seq (Repeat 1 None true (InSet false [SCategory false Space])) tail))
    st kf = None.
Proof.
  intros Hrest Hne Hsp Hend. cbn [m].
  eapply word_loop_fails with (origin := origin) (u := u) (X := X);
    [|exact Hrest|exact Hne|exact Hsp|exact Hend].
  intros st' c r Hr Hc.
  eapply space_loop_fails with (origin := origin) (c := c) (r := r);
    [exact Hr|exact Hc].
Qed.

Lemma time_pattern_shape (p : pattern) :
  compiled_time_pattern = Some p ->
  p_flags p = mkFlags false false
  /\ exists tail,
       p_regex p
       = Seq (Subpattern 1 (Seq (Repeat 1 None true (InSet false [SCategory false Word]))
                                Empty))
             (Seq (Repeat 1 None true (InSet false [SCategory false Space])) tail).
Proof.
  intros Hp. inversion Hp; subst p. split; [reflexivity|].
  eexists. reflexivity.
Qed.

Lemma match_at_inside (p : pattern) (u X : string) (n : nat) :
  compiled_time_pattern = Some p ->
  u <> EmptyString -> no_space u = true -> ends_outside_word u = true ->
  match_at p (u ++ X)%string n false = None.
Proof.
  intros Hp Hne Hsp Hend.
  destruct (time_pattern_shape p Hp) as [Hfl [tail Hre]].
  unfold match_at. rewrite Hfl, Hre.
  now rewrite (no_match_inside tail 1 n _ (mkState (u ++ X) 0 []) u X eq_refl Hne Hsp Hend).
Qed.

Lemma search_from_hit (p : pattern) (s : string) (start : nat) (adv : bool)
  (mt : re_match) :
  match_at p s start adv = Some mt -> search_from p s start adv = Some mt.
Proof. intros H. destruct s; cbn [search_from]; now rewrite H. Qed.

(** The search runs through such a prefix without a match. *)
Lemma search_skips_prefix (p : pattern) (X : string) :
  compiled_time_pattern = Some p ->
  forall pre start,
    no_space pre = true -> ends_outside_word pre = true ->
    search_from p (pre ++ X)%string start false
    = search_from p X (start + String.length pre) false.
Proof.
  intros Hp. induction pre as [|c pre IH]; intros start Hsp Hend.
  - cbn [append String.length]. now rewrite Nat.add_0_r.
  - pose proof (match_at_inside p (String c pre) X start Hp) as Hnone.
    cbn [append] in *. cbn [search_from]. rewrite Hnone; auto; [|discriminate].
    cbn [no_space] in Hsp. apply andb_true_iff in Hsp. destruct Hsp as [_ Hsp].
    rewrite IH; auto.
    + cbn [String.length]. f_equal. lia.
    + eapply ends_outside_word_tail; eassumption.
Qed.

End TimePatternFacts.

(** After a prefix without white space that does not end in a word
    character, a frame marker for one, the leftmost match of the built-in
    time pattern is the example text. *)
Lemma leftmost_after_marker (pre post : string) :
  no_space pre = true -> ends_outside_word pre = true ->
  re_search LogAnalyzerApp.TIME_REGEX_PATTERN (pre ++ may_3_text ++ post)%string
  = Ok (Some (mkMatch (String.length pre) (23 + String.length pre)
                may_3_text may_3_groups)).
Proof.
  intros Hsp Hend. unfold re_search. rewrite built_in_time_pattern_compiles.
  destruct compiled_time_pattern as [p|] eqn:Hp; [|discriminate].
  f_equal. unfold pattern_search, sre_module, Sre.search.
  rewrite (TimePatternFacts.search_skips_prefix p _ Hp pre 0 Hsp Hend).
  apply TimePatternFacts.search_from_hit. cbn [Nat.add].
  apply (match_at_may_3 p post _ Hp).
Qed.

(** C4, as amended: with the built-in time pattern, when the leftmost
    match of the pattern in the entry text begins at the substring ["May 3
    10:20:30:123 2025"], extraction yields the timestamp
    2025-05-03T10:20:30.123, the milliseconds as 123000 microseconds, and
    that substring as the raw match text, whatever follows the substring.
    The leftmost match begins there whenever what precedes the substring
    has no white space and does not end in a word character, as a frame
    marker does.  When the pattern finds no match in the entry text,
    extraction yields an absent timestamp and an empty raw match text. *)
Theorem extract_log_info_default_pattern (source_file : string) :
  (forall pre post mt,
      re_search LogAnalyzerApp.TIME_REGEX_PATTERN (pre ++ may_3_text ++ post)%string
      = Ok (Some mt) ->
      m_start mt = String.length pre ->
      extract_log_info LogAnalyzerApp.log_processor
        (pre ++ may_3_text ++ post)%string source_file
      = Ok (mkLogEntry (pre ++ may_3_text ++ post)%string (Some may_3) source_file
              may_3_text))
  /\ (forall pre post,
        no_space pre = true -> ends_outside_word pre = true ->
        extract_log_info LogAnalyzerApp.log_processor
          (pre ++ may_3_text ++ post)%string source_file
        = Ok (mkLogEntry (pre ++ may_3_text ++ post)%string (Some may_3) source_file
                may_3_text))
  /\ (forall text,
        re_search LogAnalyzerApp.TIME_REGEX_PATTERN text = Ok None ->
        extract_log_info LogAnalyzerApp.log_processor text source_file
        = Ok (mkLogEntry text None source_file "")).
Proof.
  assert (forall pre post mt,
             re_search LogAnalyzerApp.TIME_REGEX_PATTERN
               (pre ++ may_3_text ++ post)%string = Ok (Some mt) ->
             m_start mt = String.length pre ->
             extract_log_info LogAnalyzerApp.log_processor
               (pre ++ may_3_text ++ post)%string source_file
             = Ok (mkLogEntry (pre ++ may_3_text ++ post)%string (Some may_3)
                     source_file may_3_text)) as Hleft.
  { intros pre post mt Hs Hstart.
    unfold extract_log_info. cbn [TIME_REGEX_PATTERN LogAnalyzerApp.log_processor].
    rewrite Hs. cbn [bind].
    assert (m_group0 mt = may_3_text) as ->; [|now rewrite parse_log_time_may_3].
    unfold re_search in Hs. rewrite built_in_time_pattern_compiles in Hs.
    destruct compiled_time_pattern as [p|] eqn:Hp; [|discriminate].
    inversion Hs as [Hsearch]. unfold pattern_search, sre_module, Sre.search in Hsearch.
    apply SearchFacts.search_from_found in Hsearch.
    destruct Hsearch as [i [Hi [_ Hat]]]. simpl in Hi, Hat.
    assert (i = String.length pre) as -> by congruence.
    rewrite SearchFacts.drop_app in Hat.
    rewrite (match_at_may_3 p post _ Hp) in Hat.
    inversion Hat. reflexivity. }
  split; [exact Hleft|]. split.
  - intros pre post Hsp Hend.
    eapply Hleft; [now apply leftmost_after_marker|reflexivity].
  - intros text Hs. unfold extract_log_info.
    cbn [TIME_REGEX_PATTERN LogAnalyzerApp.log_processor]. now rewrite Hs.
Qed.

Lemma extract_log_info_default_pattern_witness :
  extract_log_info LogAnalyzerApp.log_processor
    ("%@17%" ++ may_3_text ++ " link up")%string "a.log"
  = Ok (mkLogEntry ("%@17%" ++ may_3_text ++ " link up")%string (Some may_3) "a.log"
          may_3_text)
  /\ extract_log_info LogAnalyzerApp.log_processor "%@2%no time here" "a.log"
     = Ok (mkLogEntry "%@2%no time here" None "a.log" "").
Proof.
  destruct (extract_log_info_default_pattern "a.log") as [Hleft [Hmarker Hnone]].
  split.
  - apply (Hleft "%@17%" " link up"
             (mkMatch 5 28 may_3_text may_3_groups)).
    + vm_compute. reflexivity.
    + reflexivity.
  - apply Hnone. vm_compute. reflexivity.
Defined.

(** C4, as stated, fails: the text ["xMay 3 10:20:30:123 2025"] contains
    the substring, but the match begins at the ["x"]; the month name
    ["xMay"] is not in the table, so the timestamp is in January, and the
    raw match text is the whole text. *)
Lemma substring_counterexample :
  extract_log_info LogAnalyzerApp.log_processor ("x" ++ may_3_text)%string "a.log"
  = Ok glued_entry
  /\ timestamp glued_entry <> Some may_3
  /\ time_str glued_entry <> may_3_text
  /\ ~ (forall pre post,
          exists log,
            extract_log_info LogAnalyzerApp.log_processor
              (pre ++ may_3_text ++ post)%string "a.log" = Ok log
            /\ timestamp log = Some may_3 /\ time_str log = may_3_text).
Proof.
  assert (extract_log_info LogAnalyzerApp.log_processor ("x" ++ may_3_text)%string "a.log"
          = Ok glued_entry) as Hrun by (vm_compute; reflexivity).
  split; [exact Hrun|].
  split; [intro H; discriminate H|].
  split; [intro H; discriminate H|].
  intros H. destruct (H "x" "") as [log [Hlog [Hts _]]].
  change ("x" ++ may_3_text ++ "")%string with ("x" ++ may_3_text)%string in Hlog.
  rewrite Hrun in Hlog. inversion Hlog; subst log. discriminate Hts.
Qed.

(* ================================================================== *)
(** ** Further properties of segmentation and extraction *)

Module StripFacts.

Lemma rstrip_idempotent (s : string) : PyStr.rstrip (PyStr.rstrip s) = PyStr.rstrip s.
Proof.
  induction s as [|c s IH]; [reflexivity|].
  cbn [PyStr.rstrip].
  destruct (PyStr.isspace c && PyStr.is_empty (PyStr.rstrip s))%bool eqn:E;
    [reflexivity|].
  cbn [PyStr.rstrip]. now rewrite IH, E.
Qed.

Lemma lstrip_head (s : string) :
  match PyStr.lstrip s with
  | EmptyString => True
  | String c _ => PyStr.isspace c = false
  end.
Proof.
  induction s as [|c s IH]; [exact I|].
  cbn [PyStr.lstrip]. destruct (PyStr.isspace c) eqn:E; [exact IH|exact E].
Qed.

Lemma lstrip_fixed (s : string) :
  match s with
  | EmptyString => True
  | String c _ => PyStr.isspace c = false
  end ->
  PyStr.lstrip s = s.
Proof. destruct s as [|c r]; [reflexivity|]. cbn [PyStr.lstrip]. now intros ->. Qed.

Lemma rstrip_head (s : string) :
  match s with
  | EmptyString => True
  | String c _ => PyStr.isspace c = false
  end ->
  match PyStr.rstrip s with
  | EmptyString => True
  | String c _ => PyStr.isspace c = false
  end.
Proof.
  destruct s as [|c r]; [intros _; exact I|].
  intros H. cbn [PyStr.rstrip]. now rewrite H.
Qed.

Lemma strip_idempotent (s : string) : PyStr.strip (PyStr.strip s) = PyStr.strip s.
Proof.
  unfold PyStr.strip.
  rewrite (lstrip_fixed (PyStr.rstrip (PyStr.lstrip s))).
  - apply rstrip_idempotent.
  - apply rstrip_head, lstrip_head.
Qed.

End StripFacts.

Lemma mapM_ok {A B : Type} (f : A -> result B) (l : list A) :
  forall ys, mapM f l = Ok ys -> Forall2 (fun x y => f x = Ok y) l ys.
Proof.
  induction l as [|x l IH]; intros ys; simpl.
  - intros H. inversion H. constructor.
  - destruct (f x) as [y|e] eqn:E; simpl; [|discriminate].
    destruct (mapM f l) as [ys'|e]; simpl; [|discriminate].
    intros H. inversion H; subst. constructor; auto.
Qed.

Lemma parse_log_entries_nonempty `{RE : ReModule} (self : LogProcessor)
  (text log_regex_edit time_regex_edit : string) (entries : list string) :
  parse_log_entries self text log_regex_edit time_regex_edit = Ok entries ->
  Forall (fun entry => entry <> "") entries.
Proof.
  unfold parse_log_entries.
  destruct (compile_or_default _ _ flag_DOTALL) as [lp|]; [|discriminate].
  cbn [bind].
  destruct (compile_or_default _ _ no_flags) as [tp|]; [|discriminate].
  cbn [bind].
  destruct (mapM _ _) as [raw|]; [|discriminate].
  cbn [bind]. intros H. inversion H; subst; clear H.
  apply Forall_forall. intros entry Hin.
  apply filter_In in Hin. destruct Hin as [_ Hne]. intros ->. discriminate.
Qed.

(** X1: whatever the patterns and the engine, every entry that
    segmentation yields is non-empty and carries no white space at either
    end: it is the trimmed first group of a match of the frame pattern. *)
Theorem parse_log_entries_trimmed `{RE : ReModule} (self : LogProcessor)
  (text log_regex_edit time_regex_edit : string) (entries : list string) :
  parse_log_entries self text log_regex_edit time_regex_edit = Ok entries ->
  Forall (fun entry => entry <> "" /\ PyStr.strip entry = entry) entries.
Proof.
  unfold parse_log_entries.
  destruct (compile_or_default _ _ flag_DOTALL) as [lp|]; [|discriminate].
  cbn [bind].
  destruct (compile_or_default _ _ no_flags) as [tp|]; [|discriminate].
  cbn [bind].
  destruct (mapM _ _) as [raw|] eqn:E; [|discriminate].
  cbn [bind]. intros H. inversion H; subst; clear H.
  apply mapM_ok in E. apply Forall_forall. intros entry Hin.
  apply filter_In in Hin. destruct Hin as [Hin Hne]. split.
  - intros ->. discriminate.
  - clear Hne. induction E as [|mt y ms ys Hy _ IH]; [contradiction|].
    destruct Hin as [<-|Hin]; [|now apply IH].
    destruct (group1 mt) as [[g|]|]; try discriminate.
    cbn [bind strip_method] in Hy. inversion Hy.
    apply StripFacts.strip_idempotent.
Qed.

Lemma parse_log_entries_trimmed_witness :
  Forall (fun entry => entry <> "" /\ PyStr.strip entry = entry) ["%@1%A"; "%@2%B"].
Proof.
  apply (parse_log_entries_trimmed LogAnalyzerApp.log_processor two_frames "" "").
  vm_compute. reflexivity.
Defined.

Module CrlfFacts.

Lemma replace_crlf_cons (c : ascii) (s : string) :
  Ascii.eqb c PyStr.CR = false ->
  PyStr.replace_crlf (String c s) = String c (PyStr.replace_crlf s).
Proof.
  intros H. cbn [PyStr.replace_crlf]. rewrite H. now destruct s.
Qed.

Lemma replace_crlf_no_cr (s : string) : no_cr s = true -> PyStr.replace_crlf s = s.
Proof.
  induction s as [|c s IH]; [reflexivity|].
  cbn [no_cr]. intros H. apply andb_true_iff in H. destruct H as [Hc Hs].
  apply negb_true_iff in Hc. rewrite (replace_crlf_cons c s Hc). now rewrite IH.
Qed.

Lemma replace_crlf_to_crlf (s : string) :
  no_cr s = true -> PyStr.replace_crlf (to_crlf s) = s.
Proof.
  induction s as [|c s IH]; [reflexivity|].
  cbn [no_cr to_crlf]. intros H. apply andb_true_iff in H. destruct H as [Hc Hs].
  apply negb_true_iff in Hc.
  destruct (Ascii.eqb c PyStr.LF) eqn:E.
  - apply Ascii.eqb_eq in E. subst c.
    cbn [PyStr.replace_crlf]. rewrite !Ascii.eqb_refl. cbn [andb]. now rewrite IH.
  - rewrite (replace_crlf_cons c _ Hc). now rewrite IH.
Qed.

End CrlfFacts.

(** X2: a text written with carriage return, line feed at its line ends
    is segmented exactly as the same text written with line feeds alone,
    whatever the patterns and the engine. *)
Theorem parse_log_entries_crlf `{RE : ReModule} (self : LogProcessor)
  (text log_regex_edit time_regex_edit : string) :
  no_cr text = true ->
  parse_log_entries self (to_crlf text) log_regex_edit time_regex_edit
  = parse_log_entries self text log_regex_edit time_regex_edit.
Proof.
  intros H. unfold parse_log_entries.
  now rewrite (CrlfFacts.replace_crlf_to_crlf text H),
              (CrlfFacts.replace_crlf_no_cr text H).
Qed.

Lemma parse_log_entries_crlf_witness :
  parse_log_entries LogAnalyzerApp.log_processor (to_crlf two_frames) "" ""
  = parse_log_entries LogAnalyzerApp.log_processor two_frames "" "".
Proof.
  apply (parse_log_entries_crlf LogAnalyzerApp.log_processor two_frames "" "").
  reflexivity.
Defined.

Module TakeDropFacts.

Lemma take_drop (n : nat) (s : string) :
  (PyStr.take n s ++ PyStr.drop n s)%string = s.
Proof.
  revert s. induction n as [|n IH]; intros [|c s]; simpl; try reflexivity.
  now rewrite IH.
Qed.

Lemma match_at_group0 (p : Sre.pattern) (s : string) (start : nat) (adv : bool)
  (mt : re_match) :
  Sre.match_at p s start adv = Some mt ->
  exists n, m_group0 mt = PyStr.take n s.
Proof.
  unfold Sre.match_at. destruct (Sre.m _ _ _ _ _) as [st|]; simpl; [|discriminate].
  intros H. inversion H. now exists (Sre.pos st).
Qed.

(** The text of a match that a search returns stands in the text searched. *)
Lemma search_group0_occurs (p : Sre.pattern) (s : string) (mt : re_match) :
  Sre.search p s = Some mt -> occurs (m_group0 mt) s.
Proof.
  intros H. apply SearchFacts.search_from_found in H.
  destruct H as [i [_ [_ Hat]]].
  apply match_at_group0 in Hat. destruct Hat as [n ->].
  exists (PyStr.take i s), (PyStr.drop n (PyStr.drop i s)).
  now rewrite take_drop, take_drop.
Qed.

End TakeDropFacts.

(** X3: on the engine of this file, whatever the processor's time pattern,
    an entry that extraction returns keeps the text and the file name it
    was given, and its raw match text stands somewhere in that text; the
    raw match text is empty and the timestamp absent when the pattern finds
    no match. *)
Theorem extract_log_info_raw_text (self : LogProcessor)
  (log_entry file_name : string) (log : LogEntry) :
  extract_log_info self log_entry file_name = Ok log ->
  content log = log_entry /\ source_file log = file_name
  /\ occurs (time_str log) log_entry
  /\ (re_search (TIME_REGEX_PATTERN self) log_entry = Ok None ->
      time_str log = "" /\ timestamp log = None).
Proof.
  unfold extract_log_info, re_search.
  destruct (re_compile (TIME_REGEX_PATTERN self) no_flags) as [p|]; [|discriminate].
  cbn [bind].
  destruct (pattern_search p log_entry) as [mt|] eqn:Hs; intros H; inversion H;
    subst; cbn [content source_file time_str timestamp].
  - repeat split; try discriminate.
    now apply TakeDropFacts.search_group0_occurs with (p := p).
  - repeat split. exists "", log_entry. reflexivity.
Qed.

Lemma extract_log_info_raw_text_witness :
  occurs may_3_text ("%@17%" ++ may_3_text ++ " link up")%string.
Proof.
  apply (extract_log_info_raw_text LogAnalyzerApp.log_processor
           ("%@17%" ++ may_3_text ++ " link up")%string "a.log"
           (mkLogEntry ("%@17%" ++ may_3_text ++ " link up")%string (Some may_3)
              "a.log" may_3_text)).
  vm_compute. reflexivity.
Defined.

Module ValidFacts.

Import Datetime.

Lemma cmp_fields_le (a : list Z) :
  forall b, Forall2 Z.le a b -> cmp_fields a b <> Gt.
Proof.
  induction a as [|x a IH]; intros b H; inversion H; subst; simpl; [discriminate|].
  destruct (Z.compare_spec x y); try discriminate; [now apply IH|lia].
Qed.

(** No valid [datetime] is before [datetime.min]. *)
Lemma valid_not_before_min (t : datetime) : valid t = true -> ltb t min = false.
Proof.
  intros V. apply CalendarFacts.valid_bounds in V.
  unfold ltb. rewrite DatetimeFacts.cmp_opp.
  assert (cmp min t <> Gt) as H.
  { unfold cmp, fields, min. cbn [year month day hour minute second microsecond].
    apply cmp_fields_le. repeat constructor; lia. }
  destruct (cmp min t); simpl; congruence.
Qed.

End ValidFacts.

(** X4: whatever the pattern and the engine, a timestamp that
    [parse_log_time] returns is a date and time that the [datetime]
    constructor accepted: its fields are in range for the calendar, its
    microseconds are a whole number of milliseconds, and it is not before
    [datetime.min], the key under which entries without a timestamp are
    sorted. *)
Theorem parse_log_time_valid `{RE : ReModule} (time_text pattern : string)
  (t : datetime) :
  parse_log_time time_text pattern = Some t ->
  Datetime.valid t = true
  /\ Datetime.microsecond t mod 1000 = 0
  /\ Datetime.ltb t Datetime.min = false.
Proof.
  unfold parse_log_time, parse_log_time_try.
  destruct (re_search pattern time_text) as [[mt|]|]; cbn [bind]; try discriminate.
  destruct (m_groups mt) as [|g1 [|g2 [|g3 [|g4 [|g5 [|g6 [|g7 [|g8 gs]]]]]]]];
    try discriminate.
  destruct (PyStr.int g7) as [y|]; cbn [bind]; [|discriminate].
  destruct (PyStr.int g2) as [d|]; cbn [bind]; [|discriminate].
  destruct (PyStr.int g3) as [h|]; cbn [bind]; [|discriminate].
  destruct (PyStr.int g4) as [mi|]; cbn [bind]; [|discriminate].
  destruct (PyStr.int g5) as [s|]; cbn [bind]; [|discriminate].
  destruct (PyStr.int g6) as [ms|]; cbn [bind]; [|discriminate].
  unfold Datetime.new.
  destruct (Datetime.valid_fields _ _ _ _ _ _ _) eqn:V; cbn [bind]; [|discriminate].
  intros H. inversion H; subst; clear H.
  assert (Datetime.valid (Datetime.mkDatetime y (dict_get month_map g1 1) d h mi s
                            (ms * 1000)) = true) as Hv by exact V.
  split; [exact Hv|]. split.
  - cbn [Datetime.microsecond]. apply Z.mod_mul. lia.
  - now apply ValidFacts.valid_not_before_min.
Qed.

Lemma parse_log_time_valid_witness :
  Datetime.valid may_3 = true
  /\ Datetime.microsecond may_3 mod 1000 = 0
  /\ Datetime.ltb may_3 Datetime.min = false.
Proof.
  apply (parse_log_time_valid (RE := sre_module) may_3_text
           LogAnalyzerApp.TIME_REGEX_PATTERN may_3).
  vm_compute. reflexivity.
Defined.

(* ================================================================== *)
(** ** Further properties of ingestion *)

Section Provenance.

Context `{RE : ReModule} `{ENV : Environment}.

Variable self : LogProcessor.
Variables log_regex_edit time_regex_edit : string.

Lemma extract_log_info_fields (entry file_name : string) (log : LogEntry) :
  extract_log_info self entry file_name = Ok log ->
  content log = entry /\ source_file log = file_name.
Proof.
  unfold extract_log_info.
  destruct (re_search _ _) as [[mt|]|]; cbn [bind]; try discriminate;
    intros H; inversion H; now split.
Qed.

Lemma extract_all_fields (entries : list string) (file_name : string) (log : LogEntry) :
  In log (extract_all self entries file_name) ->
  In (content log) entries /\ source_file log = file_name.
Proof.
  unfold extract_all. rewrite in_flat_map. intros [entry [Hin Hlog]].
  destruct (extract_log_info self entry file_name) as [l|] eqn:E; [|contradiction].
  destruct Hlog as [<-|[]]. apply extract_log_info_fields in E.
  destruct E as [-> ->]. now split.
Qed.

Lemma process_file_content_name (file_obj : BytesIO) (file_name name' : string)
  (logs : list LogEntry) :
  process_file_content self file_obj file_name log_regex_edit time_regex_edit
  = Ok (logs, name') ->
  name' = file_name
  /\ forall log, In log logs -> source_file log = file_name /\ content log <> "".
Proof.
  unfold process_file_content. destruct file_obj as [raw|]; [|discriminate].
  destruct (decode_content raw) as [text|].
  - destruct (parse_log_entries self text log_regex_edit time_regex_edit)
      as [entries|] eqn:E; cbn [bind]; [|discriminate].
    intros H. inversion H; subst. split; [reflexivity|].
    intros log Hin. apply extract_all_fields in Hin. destruct Hin as [Hin Hsrc].
    split; [exact Hsrc|].
    apply parse_log_entries_nonempty in E. rewrite Forall_forall in E.
    now apply E.
  - intros H. inversion H; subst. split; [reflexivity|]. intros log [].
Qed.

Lemma entries_of_fields (file : BytesIO * string) (log : LogEntry) :
  In log (entries_of self log_regex_edit time_regex_edit file) ->
  source_file log = snd file /\ content log <> "".
Proof.
  unfold entries_of.
  destruct (process_file_content self (fst file) (snd file) _ _) as [[logs n]|] eqn:E;
    [|contradiction].
  apply process_file_content_name in E. destruct E as [_ E]. apply E.
Qed.

Lemma reported_name (file : BytesIO * string) (name : string) :
  In name (reported self log_regex_edit time_regex_edit file) -> name = snd file.
Proof.
  unfold reported.
  destruct (process_file_content self (fst file) (snd file) _ _) as [[logs n]|] eqn:E;
    [|contradiction].
  apply process_file_content_name in E. destruct E as [-> _].
  destruct logs; [|contradiction]. now intros [<-|[]].
Qed.

Lemma process_log_files_result (uploaded_files : list BytesIO)
  (file_names : list string) (logs : list LogEntry) (failed_files : list string) :
  process_log_files self uploaded_files file_names log_regex_edit time_regex_edit
  = Ok (logs, failed_files) ->
  logs = list_sort sort_key
           (flat_map (entries_of self log_regex_edit time_regex_edit)
                     (combine uploaded_files file_names))
  /\ failed_files
     = flat_map (reported self log_regex_edit time_regex_edit)
                (combine uploaded_files file_names).
Proof.
  intros H. destruct uploaded_files as [|f fs].
  - rewrite process_log_files_empty in H. discriminate.
  - rewrite process_log_files_arrival in H by discriminate.
    rewrite arrival_spec in H. cbn [fst snd] in H. inversion H. now split.
Qed.

End Provenance.

(** X5: whenever ingestion returns, every returned entry has a non-empty
    content and carries as its source one of the file names that were
    passed in, and every name in the failed list is one of those names: no
    entry and no failure is attributed to a name the caller did not give. *)
Theorem process_log_files_provenance `{RE : ReModule} `{ENV : Environment}
  (self : LogProcessor) (uploaded_files : list BytesIO) (file_names : list string)
  (log_regex_edit time_regex_edit : string)
  (logs : list LogEntry) (failed_files : list string) :
  process_log_files self uploaded_files file_names log_regex_edit time_regex_edit
  = Ok (logs, failed_files) ->
  (forall log, In log logs -> In (source_file log) file_names /\ content log <> "")
  /\ incl failed_files file_names.
Proof.
  intros H. apply process_log_files_result in H. destruct H as [-> ->]. split.
  - intros log Hin.
    apply (Permutation_in _ (list_sort_perm sort_key _)) in Hin.
    apply in_flat_map in Hin. destruct Hin as [[f n] [Hfile Hin]].
    apply entries_of_fields in Hin. destruct Hin as [-> Hne].
    split; [|exact Hne]. now apply in_combine_r in Hfile.
  - intros name Hin. apply in_flat_map in Hin. destruct Hin as [[f n] [Hfile Hin]].
    apply reported_name in Hin. subst. now apply in_combine_r in Hfile.
Qed.

Lemma process_log_files_provenance_witness :
  (forall log, In log [epoch_entry; untimed_entry] ->
               In (source_file log) ["a.log"] /\ content log <> "")
  /\ incl [] ["a.log"].
Proof.
  apply (process_log_files_provenance LogAnalyzerApp.log_processor [epoch_file]
           ["a.log"] "" "").
  vm_compute. reflexivity.
Defined.

(** X6: ingestion returns a result exactly when the list of streams is not
    empty; with no stream the executor is asked for zero workers and the
    call raises [ValueError], whatever the names.  Streams and names are
    paired by position up to the shorter list: names beyond the last stream
    are never read, and neither are streams beyond the last name. *)
Theorem process_log_files_pairing `{RE : ReModule} `{ENV : Environment}
  (self : LogProcessor) (uploaded_files : list BytesIO) (file_names : list string)
  (log_regex_edit time_regex_edit : string) :
  is_ok (process_log_files self uploaded_files file_names log_regex_edit time_regex_edit)
  = negb (is_nil uploaded_files)
  /\ process_log_files self [] file_names log_regex_edit time_regex_edit
     = Raise ValueError
  /\ process_log_files self uploaded_files file_names log_regex_edit time_regex_edit
     = process_log_files self uploaded_files
         (firstn (List.length uploaded_files) file_names)
         log_regex_edit time_regex_edit
  /\ (file_names <> [] ->
      process_log_files self uploaded_files file_names log_regex_edit time_regex_edit
      = process_log_files self
          (firstn (List.length file_names) uploaded_files) file_names
          log_regex_edit time_regex_edit).
Proof.
  split; [|split; [|split]].
  - destruct uploaded_files as [|f fs].
    + now rewrite process_log_files_empty.
    + now rewrite process_log_files_arrival by discriminate.
  - apply process_log_files_empty.
  - unfold process_log_files. now rewrite <- combine_firstn_l.
  - intros Hne. destruct uploaded_files as [|f fs].
    + now rewrite firstn_nil.
    + destruct file_names as [|n ns]; [contradiction|].
      rewrite !process_log_files_arrival by (cbn [List.length firstn]; discriminate).
      unfold arrival. now rewrite <- combine_firstn_r.
Qed.

Lemma process_log_files_pairing_witness :
  process_log_files LogAnalyzerApp.log_processor [epoch_file; BytesIO_closed]
    ["a.log"] "" ""
  = process_log_files LogAnalyzerApp.log_processor [epoch_file] ["a.log"] "" "".
Proof.
  destruct (process_log_files_pairing LogAnalyzerApp.log_processor
              [epoch_file; BytesIO_closed] ["a.log"] "" "") as [_ [_ [_ H]]].
  apply H. intro E. discriminate E.
Defined.

(* ================================================================== *)
(** ** Further properties of the filters *)

Lemma filter_sorted {A : Type} (R : A -> A -> Prop) (keep : A -> bool) (l : list A) :
  StronglySorted R l -> StronglySorted R (filter keep l).
Proof.
  induction 1 as [|x l Hs IH Hall]; simpl; [constructor|].
  destruct (keep x); [|exact IH].
  constructor; [exact IH|].
  rewrite Forall_forall in *. intros y Hy. apply filter_In in Hy. now apply Hall.
Qed.

Lemma filter_idempotent {A : Type} (keep : A -> bool) (l : list A) :
  filter keep (filter keep l) = filter keep l.
Proof.
  induction l as [|x l IH]; simpl; [reflexivity|].
  destruct (keep x) eqn:E; simpl; [now rewrite E, IH|exact IH].
Qed.

Lemma filter_all {A : Type} (l : list A) : filter (fun _ => true) l = l.
Proof. induction l as [|x l IH]; simpl; [reflexivity|now rewrite IH]. Qed.

(** The keyword filter keeps the entries that pass a test which depends
    on the keywords alone. *)
Lemma filter_logs_by_keywords_test `{RE : ReModule} (keywords : list string) :
  (forall logs, filter_logs_by_keywords logs keywords = Ok logs)
  \/ (exists keep, forall logs,
         filter_logs_by_keywords logs keywords = Ok (filter keep logs))
  \/ (exists e, forall logs, filter_logs_by_keywords logs keywords = Raise e).
Proof.
  unfold filter_logs_by_keywords, filter_logs_by_keywords_with.
  destruct (is_nil keywords); [now left|].
  destruct (is_nil _); [now left|].
  right.
  destruct (anyM _ _) as [[|]|e]; cbn [bind].
  - destruct (re_compile _ _) as [p|].
    + left. eexists. intros logs. now rewrite batched_filter.
    + destruct (mapM _ _) as [ps|e]; cbn [bind].
      * left. eexists. intros logs. now rewrite batched_filter.
      * right. now exists e.
  - left. eexists. intros logs. now rewrite batched_filter.
  - right. now exists e.
Qed.

(** X7: whatever the engine and the keywords, when the keyword filter
    returns it has only deleted entries: what it returns is the input with
    the entries failing one test removed, so it is contained in the input,
    an input in ascending key order stays in that order, and filtering the
    output again with the same keywords returns it unchanged. *)
Theorem filter_logs_by_keywords_deletes `{RE : ReModule}
  (logs out : list LogEntry) (keywords : list string) :
  filter_logs_by_keywords logs keywords = Ok out ->
  (exists keep, out = filter keep logs)
  /\ incl out logs
  /\ (StronglySorted key_le logs -> StronglySorted key_le out)
  /\ filter_logs_by_keywords out keywords = Ok out.
Proof.
  intros H.
  assert (exists keep, out = filter keep logs
                       /\ filter_logs_by_keywords out keywords = Ok (filter keep out))
    as [keep [-> Hagain]].
  { destruct (filter_logs_by_keywords_test keywords) as [Hid|[[keep Hk]|[e He]]].
    - exists (fun _ => true). rewrite Hid in H. inversion H; subst.
      rewrite Hid, filter_all. now split.
    - exists keep. rewrite Hk in H. inversion H; subst. split; [reflexivity|].
      apply Hk.
    - rewrite He in H. discriminate. }
  split; [now exists keep|]. split; [|split].
  - intros x Hx. now apply filter_In in Hx.
  - apply filter_sorted.
  - now rewrite Hagain, filter_idempotent.
Qed.

Lemma filter_logs_by_keywords_deletes_witness :
  (exists keep, [error_entry] = filter keep [error_entry; quiet_entry])
  /\ incl [error_entry] [error_entry; quiet_entry]
  /\ (StronglySorted key_le [error_entry; quiet_entry] ->
      StronglySorted key_le [error_entry])
  /\ filter_logs_by_keywords [error_entry] [" err "] = Ok [error_entry].
Proof.
  apply (filter_logs_by_keywords_deletes (RE := sre_module)
           [error_entry; quiet_entry] [error_entry] [" err "]).
  vm_compute. reflexivity.
Defined.

(** X8: the time-range filter only deletes entries too: its output is
    contained in the input, every entry of it has a timestamp, an input in
    ascending key order stays in that order, and filtering the output
    again with the same bounds returns it unchanged.  With a start bound
    later than the end bound, nothing is returned. *)
Theorem filter_logs_by_time_range_deletes (logs : list LogEntry)
  (start_time end_time : option datetime) :
  incl (filter_logs_by_time_range logs start_time end_time) logs
  /\ (forall log, In log (filter_logs_by_time_range logs start_time end_time) ->
                  timestamp log <> None)
  /\ (StronglySorted key_le logs ->
      StronglySorted key_le (filter_logs_by_time_range logs start_time end_time))
  /\ filter_logs_by_time_range
       (filter_logs_by_time_range logs start_time end_time) start_time end_time
     = filter_logs_by_time_range logs start_time end_time
  /\ (forall s e, start_time = Some s -> end_time = Some e ->
                  Datetime.ltb e s = true ->
                  filter_logs_by_time_range logs start_time end_time = []).
Proof.
  rewrite !filter_logs_by_time_range_filter.
  split; [|split; [|split; [|split]]].
  - intros x Hx. now apply filter_In in Hx.
  - intros log Hin. apply filter_In in Hin. destruct Hin as [_ Hin].
    unfold in_time_range in Hin. now destruct (timestamp log).
  - apply filter_sorted.
  - apply filter_idempotent.
  - intros s e -> -> Hlt.
    induction logs as [|log logs IH]; [reflexivity|].
    cbn [filter]. rewrite IH.
    unfold in_time_range. destruct (timestamp log) as [t|]; [|reflexivity].
    unfold Datetime.leb.
    destruct (Datetime.ltb t s) eqn:E1; [reflexivity|].
    destruct (Datetime.ltb e t) eqn:E2; [reflexivity|].
    (* not (t < s) and not (e < t) give not (e < s) *)
    rewrite (DatetimeFacts.not_ltb_trans s t e E1 E2) in Hlt. discriminate.
Qed.

Lemma filter_logs_by_time_range_deletes_witness :
  filter_logs_by_time_range [on_the_bound; past_the_bound]
    (Some sample_bound) (Some Datetime.min)
  = [].
Proof.
  destruct (filter_logs_by_time_range_deletes [on_the_bound; past_the_bound]
              (Some sample_bound) (Some Datetime.min)) as [_ [_ [_ [_ H]]]].
  apply (H sample_bound Datetime.min); reflexivity.
Defined.

(* ================================================================== *)
(** ** Keyword highlighting *)

Module FindFacts.

Lemma drop_drop (i : nat) : forall j s, PyStr.drop i (PyStr.drop j s) = PyStr.drop (j + i) s.
Proof.
  intros j. induction j as [|j IH]; intros s; [reflexivity|].
  destruct s as [|c s]; simpl; [now destruct i|apply IH].
Qed.

Lemma length_drop (n : nat) :
  forall s, String.length (PyStr.drop n s) = (String.length s - n)%nat.
Proof. induction n as [|n IH]; intros [|c s]; simpl; auto. Qed.

Lemma lower_drop (n : nat) :
  forall s, PyStr.lower (PyStr.drop n s) = PyStr.drop n (PyStr.lower s).
Proof. induction n as [|n IH]; intros [|c s]; simpl; auto. Qed.

Lemma lower_take (n : nat) :
  forall s, PyStr.lower (PyStr.take n s) = PyStr.take n (PyStr.lower s).
Proof.
  induction n as [|n IH]; intros [|c s]; simpl; auto. now rewrite IH.
Qed.

(** A prefix is what the text begins with. *)
Lemma prefix_take (sub : string) :
  forall s, String.prefix sub s = true ->
            (String.length sub <= String.length s)%nat
            /\ PyStr.take (String.length sub) s = sub.
Proof.
  induction sub as [|c sub IH]; intros s H.
  - split; [simpl; lia|now destruct s].
  - destruct s as [|d s]; simpl in H; [discriminate|].
    destruct (ascii_dec c d) as [->|]; [|discriminate].
    apply IH in H. destruct H as [H1 H2]. simpl. split; [lia|now rewrite H2].
Qed.

Lemma take_prefix (sub : string) :
  forall s, (String.length sub <= String.length s)%nat ->
            PyStr.take (String.length sub) s = sub -> String.prefix sub s = true.
Proof.
  induction sub as [|c sub IH]; intros s Hlen H; [now destruct s|].
  destruct s as [|d s]; simpl in *; [lia|].
  injection H as Hc Ht. subst d.
  destruct (ascii_dec c c); [|contradiction]. apply IH; [lia|exact Ht].
Qed.

Lemma find_first_unfold (sub s : string) :
  find_first sub s
  = if String.prefix sub s then Some 0%nat
    else match s with
         | EmptyString => None
         | String _ r => option_map S (find_first sub r)
         end.
Proof. now destruct s. Qed.

(** What [find_first] returns is the leftmost occurrence. *)
Lemma find_first_some (sub : string) :
  forall s i,
    find_first sub s = Some i ->
    String.prefix sub (PyStr.drop i s) = true
    /\ forall j, (j < i)%nat -> String.prefix sub (PyStr.drop j s) = false.
Proof.
  induction s as [|c s IH]; intros i; rewrite find_first_unfold.
  - destruct (String.prefix sub "") eqn:P; [|discriminate].
    intros H. inversion H; subst. split; [exact P|intros; lia].
  - destruct (String.prefix sub (String c s)) eqn:P.
    + intros H. inversion H; subst. split; [exact P|intros; lia].
    + destruct (find_first sub s) as [i'|] eqn:F; [|discriminate].
      intros H. inversion H; subst. destruct (IH i' eq_refl) as [H1 H2].
      split; [exact H1|]. intros [|j] Hj; [exact P|]. apply H2. lia.
Qed.

Lemma find_first_none (sub : string) :
  forall s, find_first sub s = None ->
            forall j, String.prefix sub (PyStr.drop j s) = false.
Proof.
  induction s as [|c s IH]; rewrite find_first_unfold.
  - destruct (String.prefix sub "") eqn:P; [discriminate|].
    intros _ j. now destruct j.
  - destruct (String.prefix sub (String c s)) eqn:P; [discriminate|].
    destruct (find_first sub s) eqn:F; [discriminate|].
    intros _ [|j]; [exact P|]. now apply IH.
Qed.

Lemma str_find_some (s sub : string) (start pos : nat) :
  str_find s sub start = Some pos ->
  (start <= pos)%nat
  /\ String.prefix sub (PyStr.drop pos s) = true
  /\ forall j, (start <= j < pos)%nat -> String.prefix sub (PyStr.drop j s) = false.
Proof.
  unfold str_find. destruct (Nat.ltb (String.length s) start); [discriminate|].
  destruct (find_first sub (PyStr.drop start s)) as [i|] eqn:F; [|discriminate].
  intros H. inversion H; subst. apply find_first_some in F. destruct F as [H1 H2].
  rewrite drop_drop in H1. split; [lia|]. split; [exact H1|].
  intros j Hj. replace j with (start + (j - start))%nat by lia.
  rewrite <- drop_drop. apply H2. lia.
Qed.

Lemma str_find_none (s sub : string) (start : nat) :
  sub <> EmptyString ->
  str_find s sub start = None ->
  forall j, (start <= j)%nat -> String.prefix sub (PyStr.drop j s) = false.
Proof.
  intros Hne. unfold str_find.
  destruct (Nat.ltb (String.length s) start) eqn:L.
  - intros _ j Hj. apply Nat.ltb_lt in L.
    destruct (String.prefix sub (PyStr.drop j s)) eqn:P; [|reflexivity].
    apply prefix_take in P. destruct P as [P _]. rewrite length_drop in P.
    destruct sub; [contradiction|]. simpl in P. lia.
  - destruct (find_first sub (PyStr.drop start s)) eqn:F; [discriminate|].
    intros _ j Hj. replace j with (start + (j - start))%nat by lia.
    rewrite <- drop_drop. now apply find_first_none.
Qed.

(** Every span of the loop begins at or after the start position, has the
    length of the keyword, and stands on an occurrence. *)
Lemma find_all_sound (s sub : string) (klen : nat) :
  forall fuel start a b,
    In (a, b) (find_all fuel s sub klen start) ->
    (start <= a)%nat /\ b = (a + klen)%nat
    /\ String.prefix sub (PyStr.drop a s) = true.
Proof.
  induction fuel as [|fuel IH]; intros start a b; [contradiction|].
  cbn [find_all]. destruct (str_find s sub start) as [pos|] eqn:F; [|contradiction].
  apply str_find_some in F. destruct F as [H1 [H2 _]].
  intros [H|H].
  - inversion H; subst. auto.
  - apply IH in H. destruct H as [Ha Hb]. split; [lia|exact Hb].
Qed.

(** The spans of the loop follow one another without overlap. *)
Lemma find_all_disjoint (s sub : string) (klen : nat) :
  forall fuel start,
    StronglySorted (fun x y => (snd x <= fst y)%nat) (find_all fuel s sub klen start).
Proof.
  induction fuel as [|fuel IH]; intros start; [constructor|].
  cbn [find_all]. destruct (str_find s sub start) as [pos|]; [|constructor].
  constructor; [apply IH|].
  apply Forall_forall. intros [a b] Hin. apply find_all_sound in Hin.
  simpl. lia.
Qed.

(** With fuel beyond what is left of the text, an occurrence at or after
    the start position is marked, or overlaps a marked one that begins
    before it. *)
Lemma find_all_complete (s sub : string) (klen : nat) :
  sub <> EmptyString -> (1 <= klen)%nat ->
  forall fuel start i,
    (String.length s < fuel + start)%nat -> (start <= i)%nat ->
    (i + klen <= String.length s)%nat ->
    String.prefix sub (PyStr.drop i s) = true ->
    exists a, In (a, (a + klen)%nat) (find_all fuel s sub klen start)
              /\ (a <= i < a + klen)%nat.
Proof.
  intros Hne Hk. induction fuel as [|fuel IH]; intros start i Hfuel Hstart Hlen Hocc;
    [lia|].
  cbn [find_all]. destruct (str_find s sub start) as [pos|] eqn:F.
  - apply str_find_some in F. destruct F as [H1 [H2 H3]].
    assert (pos <= i)%nat as Hpos.
    { destruct (Nat.le_gt_cases pos i) as [|Hgt]; [assumption|].
      rewrite (H3 i) in Hocc by lia. discriminate. }
    destruct (Nat.lt_ge_cases i (pos + klen)) as [Hin|Hout].
    + exists pos. split; [now left|lia].
    + destruct (IH (pos + klen)%nat i) as [a [Ha Hi]]; auto; [lia|].
      exists a. split; [now right|exact Hi].
  - rewrite (str_find_none s sub start Hne F i Hstart) in Hocc. discriminate.
Qed.

End FindFacts.

Module SpanSortFacts.

Lemma insert_span_perm (x : nat * nat) (l : list (nat * nat)) :
  Permutation (insert_span x l) (x :: l).
Proof.
  induction l as [|y l IH]; simpl; [reflexivity|].
  destruct (Nat.ltb (fst y) (fst x)); [|reflexivity].
  rewrite IH. apply perm_swap.
Qed.

Lemma sort_spans_perm (l : list (nat * nat)) : Permutation (sort_spans l) l.
Proof.
  induction l as [|x l IH]; simpl; [reflexivity|].
  rewrite insert_span_perm. now constructor.
Qed.

Lemma insert_span_sorted (x : nat * nat) (l : list (nat * nat)) :
  StronglySorted (fun a b => (fst a <= fst b)%nat) l ->
  StronglySorted (fun a b => (fst a <= fst b)%nat) (insert_span x l).
Proof.
  induction 1 as [|y l Hs IH Hall]; simpl.
  - repeat constructor.
  - destruct (Nat.ltb (fst y) (fst x)) eqn:E.
    + apply Nat.ltb_lt in E. constructor; [exact IH|].
      apply Forall_forall. intros z Hz.
      apply (Permutation_in _ (insert_span_perm x l)) in Hz.
      destruct Hz as [<-|Hz]; [lia|].
      rewrite Forall_forall in Hall. now apply Hall.
    + apply Nat.ltb_ge in E. constructor; [now constructor|].
      constructor; [exact E|].
      apply Forall_forall. intros z Hz. rewrite Forall_forall in Hall.
      specialize (Hall z Hz). lia.
Qed.

Lemma sort_spans_sorted (l : list (nat * nat)) :
  StronglySorted (fun a b => (fst a <= fst b)%nat) (sort_spans l).
Proof.
  induction l as [|x l IH]; simpl; [constructor|]. now apply insert_span_sorted.
Qed.

Lemma sort_spans_fixpoint (l : list (nat * nat)) :
  StronglySorted (fun a b => (fst a <= fst b)%nat) l -> sort_spans l = l.
Proof.
  induction 1 as [|x l Hs IH Hall]; simpl; [reflexivity|].
  rewrite IH. destruct l as [|y l]; simpl; [reflexivity|].
  inversion Hall as [|? ? Hxy _]; subst.
  apply Nat.ltb_ge in Hxy. now rewrite Hxy.
Qed.

End SpanSortFacts.

(** A span of the loop over one keyword begins where the lowered keyword
    stands in the lowered content, and has the length of the keyword. *)
Lemma keyword_spans_sound (content keyword : string) (a b : nat) :
  In (a, b) (keyword_spans (PyStr.lower content) keyword) ->
  keyword <> "" /\ b = (a + String.length keyword)%nat
  /\ String.prefix (PyStr.lower keyword) (PyStr.drop a (PyStr.lower content)) = true.
Proof.
  unfold keyword_spans. destruct keyword as [|c k]; [contradiction|].
  cbn [PyStr.is_empty]. intros H. apply FindFacts.find_all_sound in H.
  destruct H as [_ [-> P]]. split; [discriminate|]. split; [reflexivity|exact P].
Qed.

Module TextFacts.

Local Open Scope nat_scope.

Section Facts.

Context {char : Type} (eqb : char -> char -> bool).

Hypothesis eqb_eq : forall a b : char, eqb a b = true <-> a = b.

Lemma text_prefix_app (sub : list char) :
  forall s, Text.prefix eqb sub s = true <-> exists post, s = sub ++ post.
Proof.
  induction sub as [|c sub IH]; intros s.
  - split; [intros _; now exists s|reflexivity].
  - destruct s as [|d s]; cbn [Text.prefix].
    + split; [discriminate|]. intros [post H]. discriminate H.
    + rewrite andb_true_iff, eqb_eq, IH. split.
      * intros [-> [post ->]]. now exists post.
      * intros [post H]. inversion H; subst. split; [reflexivity|now exists post].
Qed.

Lemma text_stands_at_prefix (sub s : list char) (i : nat) :
  Text.stands_at sub s i
  <-> i <= List.length s /\ Text.prefix eqb sub (skipn i s) = true.
Proof.
  split.
  - intros [pre [post [-> <-]]]. split; [rewrite length_app; lia|].
    rewrite skipn_app, skipn_all, Nat.sub_diag. cbn [skipn app].
    apply text_prefix_app. now exists post.
  - intros [Hi H]. apply text_prefix_app in H. destruct H as [post H].
    exists (firstn i s), post. split.
    + rewrite <- H. symmetry. apply firstn_skipn.
    + rewrite length_firstn. lia.
Qed.

Lemma text_find_first_unfold (sub s : list char) :
  Text.find_first eqb sub s
  = if Text.prefix eqb sub s then Some 0
    else match s with
         | [] => None
         | _ :: r => option_map S (Text.find_first eqb sub r)
         end.
Proof. now destruct s. Qed.

(** What [find_first] returns is the leftmost occurrence. *)
Lemma text_find_first_some (sub : list char) :
  forall s i,
    Text.find_first eqb sub s = Some i ->
    i <= List.length s
    /\ Text.prefix eqb sub (skipn i s) = true
    /\ forall j, j < i -> Text.prefix eqb sub (skipn j s) = false.
Proof.
  induction s as [|c s IH]; intros i; rewrite text_find_first_unfold.
  - destruct (Text.prefix eqb sub []) eqn:P; [|discriminate].
    intros H. inversion H; subst. split; [simpl; lia|]. split; [exact P|intros; lia].
  - destruct (Text.prefix eqb sub (c :: s)) eqn:P.
    + intros H. inversion H; subst. split; [simpl; lia|].
      split; [exact P|intros; lia].
    + destruct (Text.find_first eqb sub s) as [i'|] eqn:F; [|discriminate].
      intros H. inversion H; subst. destruct (IH i' eq_refl) as [H0 [H1 H2]].
      split; [simpl; lia|]. split; [exact H1|].
      intros [|j] Hj; [exact P|]. apply H2. lia.
Qed.

Lemma text_find_first_none (sub : list char) :
  forall s, Text.find_first eqb sub s = None ->
            forall j, Text.prefix eqb sub (skipn j s) = false.
Proof.
  induction s as [|c s IH]; rewrite text_find_first_unfold.
  - destruct (Text.prefix eqb sub []) eqn:P; [discriminate|].
    intros _ j. now destruct j.
  - destruct (Text.prefix eqb sub (c :: s)) eqn:P; [discriminate|].
    destruct (Text.find_first eqb sub s) eqn:F; [discriminate|].
    intros _ [|j]; [exact P|]. now apply IH.
Qed.

Lemma text_skipn_skipn (i j : nat) (s : list char) :
  skipn i (skipn j s) = skipn (j + i) s.
Proof.
  revert s. induction j as [|j IH]; intros s; [reflexivity|].
  destruct s as [|c s]; [now destruct i|apply IH].
Qed.

Lemma text_find_some (s sub : list char) (start pos : nat) :
  Text.find eqb s sub start = Some pos ->
  start <= pos <= List.length s
  /\ Text.prefix eqb sub (skipn pos s) = true
  /\ forall j, start <= j < pos -> Text.prefix eqb sub (skipn j s) = false.
Proof.
  unfold Text.find. destruct (Nat.ltb (List.length s) start) eqn:L; [discriminate|].
  apply Nat.ltb_ge in L.
  destruct (Text.find_first eqb sub (skipn start s)) as [i|] eqn:F; [|discriminate].
  intros H. inversion H; subst. apply text_find_first_some in F.
  destruct F as [H0 [H1 H2]].
  rewrite text_skipn_skipn in H1. rewrite length_skipn in H0.
  split; [lia|]. split; [exact H1|].
  intros j Hj. replace j with (start + (j - start)) by lia.
  rewrite <- text_skipn_skipn. apply H2. lia.
Qed.

Lemma text_find_none (s sub : list char) (start : nat) :
  Text.find eqb s sub start = None ->
  forall j, start <= j <= List.length s -> Text.prefix eqb sub (skipn j s) = false.
Proof.
  unfold Text.find. destruct (Nat.ltb (List.length s) start) eqn:L.
  - apply Nat.ltb_lt in L. intros _ j Hj. lia.
  - destruct (Text.find_first eqb sub (skipn start s)) eqn:F; [discriminate|].
    intros _ j Hj. replace j with (start + (j - start)) by lia.
    rewrite <- text_skipn_skipn. now apply text_find_first_none.
Qed.

(** Every span of the loop begins at or after the start position, has the
    length [klen], and begins where [sub] stands in [s]. *)
Lemma text_find_all_sound (s sub : list char) (klen : nat) :
  forall fuel start a b,
    In (a, b) (Text.find_all eqb fuel s sub klen start) ->
    start <= a /\ b = a + klen /\ Text.stands_at sub s a.
Proof.
  induction fuel as [|fuel IH]; intros start a b; [contradiction|].
  cbn [Text.find_all].
  destruct (Text.find eqb s sub start) as [pos|] eqn:F; [|contradiction].
  apply text_find_some in F. destruct F as [H1 [H2 _]].
  intros [H|H].
  - inversion H; subst. split; [lia|]. split; [reflexivity|].
    apply text_stands_at_prefix. split; [lia|exact H2].
  - apply IH in H. destruct H as [Ha Hb]. split; [lia|exact Hb].
Qed.

(** The spans of the loop follow one another without overlap. *)
Lemma text_find_all_disjoint (s sub : list char) (klen : nat) :
  forall fuel start,
    StronglySorted (fun x y => snd x <= fst y)
      (Text.find_all eqb fuel s sub klen start).
Proof.
  induction fuel as [|fuel IH]; intros start; [constructor|].
  cbn [Text.find_all]. destruct (Text.find eqb s sub start) as [pos|]; [|constructor].
  constructor; [apply IH|].
  apply Forall_forall. intros [a b] Hin. apply text_find_all_sound in Hin.
  simpl. lia.
Qed.

(** With fuel beyond what is left of the text, an occurrence at or after
    the start position is marked, or begins inside a marked span that
    begins before it. *)
Lemma text_find_all_complete (s sub : list char) (klen : nat) :
  1 <= klen ->
  forall fuel start i,
    List.length s < fuel + start -> start <= i ->
    Text.stands_at sub s i ->
    exists a, In (a, a + klen) (Text.find_all eqb fuel s sub klen start)
              /\ a <= i < a + klen.
Proof.
  intros Hk. induction fuel as [|fuel IH]; intros start i Hfuel Hstart Hocc.
  - apply text_stands_at_prefix in Hocc. lia.
  - cbn [Text.find_all]. pose proof Hocc as Hocc'.
    apply text_stands_at_prefix in Hocc'. destruct Hocc' as [Hi Hpre].
    destruct (Text.find eqb s sub start) as [pos|] eqn:F.
    + apply text_find_some in F. destruct F as [H1 [H2 H3]].
      assert (pos <= i) as Hpos.
      { destruct (Nat.le_gt_cases pos i) as [|Hgt]; [assumption|].
        rewrite (H3 i) in Hpre by lia. discriminate. }
      destruct (Nat.lt_ge_cases i (pos + klen)) as [Hin|Hout].
      * exists pos. split; [now left|lia].
      * destruct (IH (pos + klen) i) as [a [Ha Hia]]; [lia|lia|exact Hocc|].
        exists a. split; [now right|exact Hia].
    + rewrite (text_find_none s sub start F i) in Hpre by lia. discriminate.
Qed.

(** Once the fuel exceeds what is left of the text the loop has come to
    its end: more rounds add no span. *)
Lemma text_find_all_fuel (s sub : list char) (klen : nat) :
  1 <= klen ->
  forall fuel1 fuel2 start,
    List.length s < fuel1 + start -> List.length s < fuel2 + start ->
    Text.find_all eqb fuel1 s sub klen start
    = Text.find_all eqb fuel2 s sub klen start.
Proof.
  intros Hk.
  assert (Hend : forall fuel start,
             List.length s < start -> Text.find_all eqb fuel s sub klen start = []).
  { intros [|fuel] start Hlt; [reflexivity|]. cbn [Text.find_all]. unfold Text.find.
    apply Nat.ltb_lt in Hlt. now rewrite Hlt. }
  induction fuel1 as [|fuel1 IH]; intros fuel2 start H1 H2.
  - rewrite (Hend 0), (Hend fuel2) by lia. reflexivity.
  - destruct fuel2 as [|fuel2]; [rewrite (Hend (S fuel1)) by lia; reflexivity|].
    cbn [Text.find_all].
    destruct (Text.find eqb s sub start) as [pos|] eqn:F; [|reflexivity].
    apply text_find_some in F. destruct F as [Hpos _].
    f_equal. apply IH; lia.
Qed.

Section Spans.

Variable lower : list char -> list char.

Lemma text_keyword_spans_sound (content_lower keyword : list char) (a b : nat) :
  In (a, b) (Text.keyword_spans eqb lower content_lower keyword) ->
  keyword <> [] /\ b = a + List.length keyword
  /\ Text.stands_at (lower keyword) content_lower a.
Proof.
  unfold Text.keyword_spans. destruct keyword as [|c k]; [contradiction|].
  cbn [is_nil]. intros H. apply text_find_all_sound in H.
  destruct H as [_ [-> P]]. split; [discriminate|]. split; [reflexivity|exact P].
Qed.

Lemma text_keyword_spans_complete (content_lower keyword : list char) (i : nat) :
  keyword <> [] ->
  Text.stands_at (lower keyword) content_lower i ->
  exists a,
    In (a, a + List.length keyword) (Text.keyword_spans eqb lower content_lower keyword)
    /\ a <= i < a + List.length keyword.
Proof.
  intros Hne Hocc. unfold Text.keyword_spans.
  destruct keyword as [|c k]; [contradiction|]. cbn [is_nil].
  apply text_find_all_complete; [simpl; lia|lia|lia|exact Hocc].
Qed.

End Spans.

End Facts.

(** Where the lowered texts are the texts lowered character by character,
    an occurrence in the lowered content is a piece of the content that
    reads as the keyword when case is ignored. *)
Lemma text_stands_at_map {char : Type} (lower_char : char -> char)
  (keyword content : list char) (a : nat) :
  Text.stands_at (map lower_char keyword) (map lower_char content) a
  <-> a + List.length keyword <= List.length content
      /\ map lower_char (Text.piece a (a + List.length keyword) content)
         = map lower_char keyword.
Proof.
  unfold Text.piece. replace (a + List.length keyword - a) with (List.length keyword)
    by lia.
  rewrite <- firstn_map, <- skipn_map. split.
  - intros [pre [post [E <-]]].
    assert (List.length (map lower_char content)
            = List.length pre + (List.length keyword + List.length post)) as Hlen.
    { rewrite E, !length_app, length_map. reflexivity. }
    rewrite length_map in Hlen. split; [lia|].
    rewrite E, skipn_app, skipn_all, Nat.sub_diag. cbn [skipn app].
    rewrite <- (length_map lower_char keyword), firstn_app, firstn_all, Nat.sub_diag.
    cbn [firstn]. apply app_nil_r.
  - intros [Hlen E].
    exists (firstn a (map lower_char content)),
           (skipn (List.length keyword) (skipn a (map lower_char content))).
    split.
    + rewrite <- E at 1. rewrite firstn_skipn. symmetry. apply firstn_skipn.
    + rewrite length_firstn, length_map. lia.
Qed.

End TextFacts.

Module InstanceFacts.

Local Open Scope nat_scope.

Lemma prefix_chars (sub : string) :
  forall s, String.prefix sub s
            = Text.prefix Ascii.eqb (list_ascii_of_string sub) (list_ascii_of_string s).
Proof.
  induction sub as [|c sub IH]; intros s; [now destruct s|].
  destruct s as [|d s]; [reflexivity|]. cbn [String.prefix list_ascii_of_string Text.prefix].
  destruct (ascii_dec c d) as [->|Hne].
  - now rewrite Ascii.eqb_refl, IH.
  - apply Ascii.eqb_neq in Hne. now rewrite Hne.
Qed.

Lemma find_first_chars (sub : string) :
  forall s, find_first sub s
            = Text.find_first Ascii.eqb (list_ascii_of_string sub) (list_ascii_of_string s).
Proof.
  induction s as [|c s IH].
  - cbn [find_first Text.find_first list_ascii_of_string]. now rewrite prefix_chars.
  - rewrite FindFacts.find_first_unfold. cbn [list_ascii_of_string].
    rewrite (TextFacts.text_find_first_unfold Ascii.eqb).
    rewrite prefix_chars, IH. reflexivity.
Qed.

Lemma drop_chars (n : nat) :
  forall s, list_ascii_of_string (PyStr.drop n s) = skipn n (list_ascii_of_string s).
Proof. induction n as [|n IH]; intros [|c s]; simpl; auto. Qed.

Lemma length_chars (s : string) : String.length s = List.length (list_ascii_of_string s).
Proof. induction s as [|c s IH]; simpl; auto. Qed.

Lemma find_all_chars (s sub : string) (klen : nat) :
  forall fuel start,
    find_all fuel s sub klen start
    = Text.find_all Ascii.eqb fuel (list_ascii_of_string s) (list_ascii_of_string sub)
        klen start.
Proof.
  induction fuel as [|fuel IH]; intros start; [reflexivity|].
  cbn [find_all Text.find_all]. unfold str_find, Text.find.
  rewrite <- length_chars, <- drop_chars, <- find_first_chars.
  destruct (Nat.ltb (String.length s) start); [reflexivity|].
  destruct (find_first sub (PyStr.drop start s)); [|reflexivity].
  cbn [option_map]. now rewrite IH.
Qed.

End InstanceFacts.

(** The loop on the texts of this file is the loop over any alphabet, taken
    at the characters of these texts and their [lower]. *)
Lemma highlight_spans_instance (content : string) (highlight_keywords : list string) :
  highlight_spans content highlight_keywords
  = Text.highlight_data Ascii.eqb
      (fun s => list_ascii_of_string (PyStr.lower (string_of_list_ascii s)))
      (list_ascii_of_string content) (map list_ascii_of_string highlight_keywords).
Proof.
  unfold highlight_spans, Text.highlight_data. f_equal.
  rewrite string_of_list_ascii_of_string.
  induction highlight_keywords as [|keyword l IH]; [reflexivity|].
  cbn [flat_map map]. rewrite IH. f_equal.
  unfold keyword_spans, Text.keyword_spans.
  destruct keyword as [|c k]; [reflexivity|].
  cbn [PyStr.is_empty]. cbn [list_ascii_of_string is_nil].
  rewrite InstanceFacts.find_all_chars.
  change (c :: list_ascii_of_string k) with (list_ascii_of_string (String c k)).
  rewrite string_of_list_ascii_of_string, <- !InstanceFacts.length_chars.
  reflexivity.
Qed.

(** X9: the highlight data of an item, for texts over any alphabet and
    for any [lower], given only that the comparison of characters is
    equality.  The data are sorted by start offset; every span has the
    length of one of the keywords, a keyword that is not empty, so no span
    is empty, and it begins at an offset at which the lowered keyword
    stands in the lowered content.  Offsets are offsets into the lowered
    content: where [lower] works character by character, and so keeps
    lengths, the span lies within the content and the content reads there
    as the keyword when case is ignored.  The loop over a keyword has come
    to its end: more rounds of it give the same spans. *)
Theorem highlight_data_sound {char : Type} (eqb : char -> char -> bool)
  (lower : list char -> list char)
  (content : list char) (highlight_keywords : list (list char)) :
  (forall a b : char, eqb a b = true <-> a = b) ->
  StronglySorted (fun x y => (fst x <= fst y)%nat)
    (Text.highlight_data eqb lower content highlight_keywords)
  /\ (forall a b,
        In (a, b) (Text.highlight_data eqb lower content highlight_keywords) ->
        (a < b)%nat
        /\ exists keyword,
             In keyword highlight_keywords /\ keyword <> []
             /\ b = (a + List.length keyword)%nat
             /\ Text.stands_at (lower keyword) (lower content) a)
  /\ (forall lower_char : char -> char,
        (forall s, lower s = map lower_char s) ->
        forall a b,
          In (a, b) (Text.highlight_data eqb lower content highlight_keywords) ->
          exists keyword,
            In keyword highlight_keywords /\ keyword <> []
            /\ b = (a + List.length keyword)%nat
            /\ (b <= List.length content)%nat
            /\ map lower_char (Text.piece a b content) = map lower_char keyword)
  /\ (forall keyword fuel,
        keyword <> [] ->
        (List.length (lower content) < fuel)%nat ->
        Text.find_all eqb fuel (lower content) (lower keyword) (List.length keyword) 0
        = Text.keyword_spans eqb lower (lower content) keyword).
Proof.
  intros eqb_eq.
  assert (Hspan : forall a b,
             In (a, b) (Text.highlight_data eqb lower content highlight_keywords) ->
             exists keyword,
               In keyword highlight_keywords /\ keyword <> []
               /\ b = (a + List.length keyword)%nat
               /\ Text.stands_at (lower keyword) (lower content) a).
  { intros a b Hin. unfold Text.highlight_data in Hin.
    apply (Permutation_in _ (SpanSortFacts.sort_spans_perm _)) in Hin.
    apply in_flat_map in Hin. destruct Hin as [keyword [Hk Hin]].
    exists keyword. split; [exact Hk|].
    now apply (TextFacts.text_keyword_spans_sound eqb eqb_eq lower). }
  split; [apply SpanSortFacts.sort_spans_sorted|].
  split; [|split].
  - intros a b Hin. split; [|now apply Hspan].
    destruct (Hspan a b Hin) as [keyword [_ [Hne [-> _]]]].
    destruct keyword; [contradiction|simpl; lia].
  - intros lower_char Hlower a b Hin.
    destruct (Hspan a b Hin) as [keyword [Hk [Hne [-> Hocc]]]].
    exists keyword. split; [exact Hk|]. split; [exact Hne|]. split; [reflexivity|].
    rewrite !Hlower in Hocc. now apply TextFacts.text_stands_at_map in Hocc.
  - intros keyword fuel Hne Hfuel. unfold Text.keyword_spans.
    destruct keyword as [|c k]; [contradiction|]. cbn [is_nil].
    apply (TextFacts.text_find_all_fuel eqb); simpl; lia.
Qed.

Lemma highlight_data_sound_witness :
  exists keyword,
    In keyword [Text.codes "x"] /\ keyword <> []
    /\ 3%nat = (2 + List.length keyword)%nat
    /\ Text.stands_at (Text.code_lower keyword) (Text.code_lower Text.dotted_x) 2.
Proof.
  destruct (highlight_data_sound N.eqb Text.code_lower Text.dotted_x [Text.codes "x"]
              N.eqb_eq) as [_ [H _]].
  apply (H 2%nat 3%nat). vm_compute. auto.
Defined.

(** X10: no occurrence is missed, for texts over any alphabet and for any
    [lower], given only that the comparison of characters is equality.
    Wherever the lowered form of a non-empty keyword of the list stands in
    the lowered content, a span of that keyword's length covers the
    offset: the occurrence itself is marked, or it begins inside a marked
    span that begins before it.  Where [lower] works character by
    character this reads on the content itself: wherever the content reads
    as the keyword when case is ignored, a span covers the place.  The
    spans of one keyword never overlap each other. *)
Theorem highlight_data_complete {char : Type} (eqb : char -> char -> bool)
  (lower : list char -> list char)
  (content : list char) (highlight_keywords : list (list char)) :
  (forall a b : char, eqb a b = true <-> a = b) ->
  (forall keyword i,
      In keyword highlight_keywords -> keyword <> [] ->
      Text.stands_at (lower keyword) (lower content) i ->
      exists a,
        In (a, (a + List.length keyword)%nat)
           (Text.highlight_data eqb lower content highlight_keywords)
        /\ (a <= i < a + List.length keyword)%nat)
  /\ (forall lower_char : char -> char,
        (forall s, lower s = map lower_char s) ->
        forall keyword i,
          In keyword highlight_keywords -> keyword <> [] ->
          (i + List.length keyword <= List.length content)%nat ->
          map lower_char (Text.piece i (i + List.length keyword) content)
          = map lower_char keyword ->
          exists a,
            In (a, (a + List.length keyword)%nat)
               (Text.highlight_data eqb lower content highlight_keywords)
            /\ (a <= i < a + List.length keyword)%nat)
  /\ (forall keyword,
        StronglySorted (fun x y => (snd x <= fst y)%nat)
          (Text.highlight_data eqb lower content [keyword])).
Proof.
  intros eqb_eq.
  assert (Hcover : forall keyword i,
             In keyword highlight_keywords -> keyword <> [] ->
             Text.stands_at (lower keyword) (lower content) i ->
             exists a,
               In (a, (a + List.length keyword)%nat)
                  (Text.highlight_data eqb lower content highlight_keywords)
               /\ (a <= i < a + List.length keyword)%nat).
  { intros keyword i Hk Hne Hocc.
    destruct (TextFacts.text_keyword_spans_complete eqb eqb_eq lower (lower content)
                keyword i Hne Hocc) as [a [Ha Hi]].
    exists a. split; [|exact Hi]. unfold Text.highlight_data.
    apply (Permutation_in _ (Permutation_sym (SpanSortFacts.sort_spans_perm _))).
    apply in_flat_map. now exists keyword. }
  split; [exact Hcover|]. split.
  - intros lower_char Hlower keyword i Hk Hne Hlen Hreads.
    apply Hcover; [exact Hk|exact Hne|].
    rewrite !Hlower. apply TextFacts.text_stands_at_map. now split.
  - intros keyword. unfold Text.highlight_data. cbn [flat_map]. rewrite app_nil_r.
    assert (StronglySorted (fun x y => (snd x <= fst y)%nat)
              (Text.keyword_spans eqb lower (lower content) keyword)) as Hd.
    { unfold Text.keyword_spans. destruct (is_nil keyword); [constructor|].
      apply (TextFacts.text_find_all_disjoint eqb eqb_eq). }
    rewrite SpanSortFacts.sort_spans_fixpoint; [exact Hd|].
    assert (forall x, In x (Text.keyword_spans eqb lower (lower content) keyword) ->
                      (fst x <= snd x)%nat) as Hpos.
    { intros [a b] Hin.
      apply (TextFacts.text_keyword_spans_sound eqb eqb_eq lower) in Hin.
      simpl. lia. }
    induction Hd as [|x l Hs IH Hall]; [constructor|].
    constructor.
    + apply IH. intros y Hy. apply Hpos. now right.
    + apply Forall_forall. intros y Hy. rewrite Forall_forall in Hall.
      specialize (Hall y Hy). specialize (Hpos x (or_introl eq_refl)). lia.
Qed.

Lemma highlight_data_complete_witness :
  exists a,
    In (a, (a + List.length (Text.codes "x"))%nat)
       (Text.highlight_data N.eqb Text.code_lower Text.dotted_x [Text.codes "x"])
    /\ (a <= 2 < a + List.length (Text.codes "x"))%nat.
Proof.
  destruct (highlight_data_complete N.eqb Text.code_lower Text.dotted_x
              [Text.codes "x"] N.eqb_eq) as [H _].
  apply (H (Text.codes "x") 2%nat).
  - now left.
  - intro E. discriminate E.
  - exists [105; 775]%N, []. split; reflexivity.
Defined.

(* ================================================================== *)
(** ** Pages *)

Module PageFacts.

Lemma firstn_add {A : Type} (a b : nat) :
  forall l : list A, firstn (a + b) l = firstn a l ++ firstn b (skipn a l).
Proof.
  induction a as [|a IH]; intros l; [reflexivity|].
  destruct l as [|x l]; simpl; [now rewrite firstn_nil|]. now rewrite IH.
Qed.

(** Reading a list by the indices of a range gives that piece of it. *)
Lemma read_range {A B : Type} (f : nat -> A -> B) (l : list A) :
  forall n start,
    (start + n <= List.length l)%nat ->
    flat_map (fun idx => match nth_error l idx with
                         | Some x => [f idx x]
                         | None => []
                         end) (seq start n)
    = map (fun '(idx, x) => f idx x) (combine (seq start n) (firstn n (skipn start l))).
Proof.
  induction n as [|n IH]; intros start Hlen; [reflexivity|].
  cbn [seq flat_map].
  destruct (nth_error l start) as [x|] eqn:E.
  - rewrite IH by lia.
    assert (skipn start l = x :: skipn (S start) l) as Hs.
    { clear -E. revert l E. induction start as [|s IHs]; intros [|y l] E;
        simpl in *; try discriminate.
      - now inversion E.
      - now apply IHs. }
    rewrite Hs. reflexivity.
  - apply nth_error_None in E. lia.
Qed.

Lemma map_snd_combine_seq {A : Type} (l : list A) (start : nat) :
  map snd (combine (seq start (List.length l)) l) = l.
Proof.
  revert start. induction l as [|x l IH]; intros start; [reflexivity|].
  simpl. now rewrite IH.
Qed.

Lemma map_fst_combine_seq {A : Type} (l : list A) (start : nat) :
  map fst (combine (seq start (List.length l)) l) = seq start (List.length l).
Proof.
  revert start. induction l as [|x l IH]; intros start; [reflexivity|].
  simpl. now rewrite IH.
Qed.

(** The entries and the ids of one page. *)
Lemma page_items_logs (w : Window) (p : nat) (hk : list string) :
  map item_log (page_items w p hk)
  = firstn page_size (skipn (p * page_size) (current_logs w))
  /\ map item_id (page_items w p hk)
     = seq (p * page_size)
           (List.length (firstn page_size (skipn (p * page_size) (current_logs w)))).
Proof.
  unfold page_items, range.
  set (l := current_logs w). set (start := (p * page_size)%nat).
  set (n := (Nat.min (start + page_size) (List.length l) - start)%nat).
  assert (firstn page_size (skipn start l) = firstn n (skipn start l)) as Hcut.
  { subst n. destruct (Nat.le_gt_cases (start + page_size) (List.length l)).
    - now replace (Nat.min (start + page_size) (List.length l) - start)%nat
        with page_size by lia.
    - rewrite !firstn_all2; auto; rewrite length_skipn; lia. }
  assert (List.length (firstn n (skipn start l)) = n) as Hn.
  { rewrite length_firstn, length_skipn. subst n. lia. }
  destruct (Nat.le_gt_cases start (List.length l)) as [Hin|Hout].
  - rewrite read_range by (subst n; lia). rewrite !map_map. rewrite Hcut.
    split.
    + rewrite <- (map_snd_combine_seq (firstn n (skipn start l)) start) at 2.
      rewrite Hn. apply map_ext. now intros [idx x].
    + rewrite <- (map_fst_combine_seq (firstn n (skipn start l)) start).
      rewrite Hn. apply map_ext. now intros [idx x].
  - replace n with 0%nat by (subst n; lia). rewrite Hcut.
    replace n with 0%nat by (subst n; lia). now split.
Qed.

Lemma pages_concat {A : Type} (size : nat) (l : list A) :
  forall k,
    List.concat (map (fun p => firstn size (skipn (p * size) l)) (seq 0 k))
    = firstn (k * size) l.
Proof.
  induction k as [|k IH]; [reflexivity|].
  rewrite seq_S, map_app, concat_app, IH. cbn [map List.concat].
  rewrite app_nil_r. replace (S k * size)%nat with (k * size + size)%nat by lia.
  now rewrite firstn_add.
Qed.

Lemma pages_cover (size len : nat) :
  (0 < size)%nat -> (len <= (len + size - 1) / size * size)%nat.
Proof.
  intros Hs.
  pose proof (Nat.div_mod_eq (len + size - 1) size) as E.
  pose proof (Nat.mod_upper_bound (len + size - 1) size) as B.
  nia.
Qed.

Lemma pages_needed (size len p : nat) :
  (0 < size)%nat -> (p < (len + size - 1) / size)%nat -> (p * size < len)%nat.
Proof.
  intros Hs Hp.
  pose proof (Nat.div_mod_eq (len + size - 1) size) as E.
  pose proof (Nat.mod_upper_bound (len + size - 1) size) as B.
  nia.
Qed.

End PageFacts.

Lemma display_logs_fields (w : Window) (logs : list LogEntry) (hk : list string) :
  current_logs (display_logs w logs hk) = list_sort sort_key logs
  /\ total_pages (display_logs w logs hk)
     = ((List.length (list_sort sort_key logs) + page_size - 1) / page_size)%nat
  /\ watched_logs (display_logs w logs hk) = watched_logs w
  /\ uploaded_files (display_logs w logs hk) = uploaded_files w
  /\ file_names (display_logs w logs hk) = file_names w
  /\ all_logs (display_logs w logs hk) = all_logs w
  /\ entry_to_id_map (display_logs w logs hk) = snd (id_maps (list_sort sort_key logs))
  /\ log_id_map (display_logs w logs hk) = fst (id_maps (list_sort sort_key logs)).
Proof.
  unfold display_logs, load_page. cbn [current_logs].
  destruct (is_nil (list_sort sort_key logs)); cbn; repeat split.
Qed.

(** X11: after [display_logs] the pages lose nothing and repeat nothing:
    the entries of pages 0 to [total_pages - 1], one after the other, are
    the displayed entries in order.  Each of these pages has between one
    and [page_size] rows, a page beyond them has none, and the id of a row
    is the position of its entry among the displayed entries. *)
Theorem pages_partition (w : Window) (logs : list LogEntry)
  (hk hk' : list string) :
  let w' := display_logs w logs hk in
  List.concat (map (fun p => map item_log (page_items w' p hk')) (seq 0 (total_pages w')))
  = current_logs w'
  /\ (forall p, (p < total_pages w')%nat ->
                (1 <= List.length (page_items w' p hk') <= page_size)%nat)
  /\ (forall p, (total_pages w' <= p)%nat -> page_items w' p hk' = [])
  /\ (forall p it, In it (page_items w' p hk') ->
                   nth_error (current_logs w') (item_id it) = Some (item_log it)
                   /\ (p * page_size <= item_id it < p * page_size + page_size)%nat).
Proof.
  intros w'.
  destruct (display_logs_fields w logs hk) as [Hcur [Htot _]].
  fold w' in Hcur, Htot. set (l := current_logs w') in *.
  assert (0 < page_size)%nat as Hsize by (unfold page_size; lia).
  split; [|split; [|split]].
  - rewrite (map_ext _ (fun p => firstn page_size (skipn (p * page_size) l))).
    + rewrite PageFacts.pages_concat. apply firstn_all2.
      rewrite Htot, <- Hcur. fold l. now apply PageFacts.pages_cover.
    + intros p. apply PageFacts.page_items_logs.
  - intros p Hp.
    rewrite <- (length_map item_log).
    destruct (PageFacts.page_items_logs w' p hk') as [-> _]. fold l.
    rewrite length_firstn, length_skipn.
    rewrite Htot, <- Hcur in Hp. fold l in Hp.
    pose proof (PageFacts.pages_needed page_size (List.length l) p Hsize Hp). lia.
  - intros p Hp.
    assert (List.length (map item_log (page_items w' p hk')) = 0)%nat as H0.
    { destruct (PageFacts.page_items_logs w' p hk') as [-> _]. fold l.
      rewrite length_firstn, length_skipn.
      rewrite Htot, <- Hcur in Hp. fold l in Hp.
      pose proof (PageFacts.pages_cover page_size (List.length l) Hsize). nia. }
    rewrite length_map in H0. now destruct (page_items w' p hk').
  - intros p it Hin. unfold page_items, range in Hin. fold l in Hin.
    apply in_flat_map in Hin. destruct Hin as [idx [Hidx Hit]].
    apply in_seq in Hidx.
    destruct (nth_error l idx) as [log|] eqn:E; [|contradiction].
    destruct Hit as [<-|[]]. cbn [item_id item_log]. split; [exact E|lia].
Qed.

(* ================================================================== *)
(** ** The analysis as a whole: [process_files] *)

Lemma pages_partition_witness :
  page_items (display_logs empty_window [untimed_entry; epoch_entry] []) 1 [] = [].
Proof.
  destruct (pages_partition empty_window [untimed_entry; epoch_entry] [] [])
    as [_ [_ [H _]]].
  apply H. vm_compute. reflexivity.
Defined.

Module RemovalFacts.

Lemma str_in_In (x : string) (l : list string) : str_in x l = true <-> In x l.
Proof.
  unfold str_in. rewrite existsb_exists. split.
  - intros [y [Hin E]]. apply String.eqb_eq in E. now subst.
  - intros H. exists x. split; [exact H|apply String.eqb_refl].
Qed.

Lemma kept_names_spec (names failed_files : list string) (f : string) :
  In f (kept_names names failed_files) <-> In f names /\ ~ In f failed_files.
Proof.
  unfold kept_names. rewrite filter_In, negb_true_iff, <- not_true_iff_false.
  now rewrite str_in_In.
Qed.

Lemma filter_enumerate_all {A : Type} (keep : nat * A -> bool) (l : list A) :
  forall start,
    (forall i x, In x l -> keep (i, x) = true) ->
    map fst (filter keep (combine (seq start (List.length l)) l))
    = seq start (List.length l).
Proof.
  induction l as [|x l IH]; intros start H; [reflexivity|].
  simpl. rewrite (H start x) by now left. simpl. f_equal.
  apply IH. intros i y Hy. apply H. now right.
Qed.

Lemma read_prefix {A : Type} (l : list A) :
  forall n start,
    (start + n <= List.length l)%nat ->
    mapM (fun i => match nth_error l i with
                   | Some x => Ok x
                   | None => Raise IndexError
                   end) (seq start n)
    = Ok (firstn n (skipn start l)).
Proof.
  induction n as [|n IH]; intros start Hlen; [reflexivity|].
  cbn [seq mapM]. destruct (nth_error l start) as [x|] eqn:E.
  - cbn [bind]. rewrite IH by lia. cbn [bind].
    assert (skipn start l = x :: skipn (S start) l) as ->; [|reflexivity].
    clear -E. revert l E. induction start as [|s IHs]; intros [|y l] E;
      simpl in *; try discriminate.
    + now inversion E.
    + now apply IHs.
  - apply nth_error_None in E. lia.
Qed.

(** The second comprehension keeps the streams at the first positions. *)
Lemma kept_streams_prefix (streams : list BytesIO) (names failed_files : list string) :
  (List.length (kept_names names failed_files) <= List.length streams)%nat ->
  kept_streams streams (kept_names names failed_files) failed_files
  = Ok (firstn (List.length (kept_names names failed_files)) streams).
Proof.
  intros Hlen. unfold kept_streams, enumerate.
  rewrite filter_enumerate_all.
  - now rewrite read_prefix by lia.
  - intros i f Hf. apply kept_names_spec in Hf. destruct Hf as [_ Hf].
    apply negb_true_iff, not_true_iff_false. now rewrite str_in_In.
Qed.

Lemma kept_names_length (names failed_files : list string) :
  (List.length (kept_names names failed_files) <= List.length names)%nat.
Proof. apply filter_length_le. Qed.

End RemovalFacts.

Section Analysis.

Context `{RE : ReModule} `{ENV : Environment}.

Lemma process_log_files_sorted_output (self : LogProcessor)
  (uploaded_files : list BytesIO) (file_names : list string)
  (log_regex_edit time_regex_edit : string)
  (logs : list LogEntry) (failed_files : list string) :
  process_log_files self uploaded_files file_names log_regex_edit time_regex_edit
  = Ok (logs, failed_files) ->
  StronglySorted key_le logs.
Proof.
  intros H. apply process_log_files_result in H. destruct H as [-> _].
  apply list_sort_sorted.
Qed.

(** What [process_files] leaves in the window when ingestion returns and
    the two lists of the window have the same length. *)
Lemma process_files_run (w : Window) (c : Controls)
  (logs : list LogEntry) (failed_files : list string) :
  uploaded_files w <> [] ->
  List.length (file_names w) = List.length (uploaded_files w) ->
  process_log_files LogAnalyzerApp.log_processor (uploaded_files w) (file_names w)
    (log_regex_text c) (time_regex_text c) = Ok (logs, failed_files) ->
  exists w3,
    all_logs w3 = logs
    /\ current_logs w3 = current_logs w
    /\ file_names w3
       = (if is_nil failed_files then file_names w
          else kept_names (file_names w) failed_files)
    /\ uploaded_files w3
       = (if is_nil failed_files then uploaded_files w
          else firstn (List.length (kept_names (file_names w) failed_files))
                 (uploaded_files w))
    /\ watched_logs w3 = (if is_nil failed_files then watched_logs w else [])
    /\ analysis_started w3
       = (if is_nil failed_files then analysis_started w else false)
    /\ process_files w c
       = (let ranged :=
            filter_logs_by_time_range logs (option_map fst (time_range c))
              (option_map snd (time_range c)) in
          if filter_mode c
          then match filter_logs_by_keywords ranged (search_keywords (search_text c)) with
               | Ok out => started (display_logs w3 out [])
               | Raise _ => w3
               end
          else started (display_logs w3 ranged (search_keywords (search_text c)))).
Proof.
  intros Hne Hlen Hrun. unfold process_files.
  assert (is_nil (uploaded_files w) = false) as -> by now destruct (uploaded_files w).
  rewrite Hrun.
  destruct (is_nil failed_files) eqn:Hfailed.
  - exists (with_all_logs w logs). repeat split.
    cbn [all_logs with_all_logs].
    destruct (filter_mode c); [|reflexivity].
    now destruct (filter_logs_by_keywords _ _).
  - cbn [uploaded_files file_names with_all_logs].
    rewrite RemovalFacts.kept_streams_prefix
      by (rewrite <- Hlen; apply RemovalFacts.kept_names_length).
    exists (refresh_file_list
              (with_files (with_all_logs w logs)
                 (firstn (List.length (kept_names (file_names w) failed_files))
                    (uploaded_files w))
                 (kept_names (file_names w) failed_files))).
    repeat split.
    cbn [all_logs refresh_file_list with_files with_all_logs].
    destruct (filter_mode c); [|reflexivity].
    now destruct (filter_logs_by_keywords _ _).
Qed.

Lemma process_log_files_failed_named (self : LogProcessor)
  (uploaded_files : list BytesIO) (file_names : list string)
  (log_regex_edit time_regex_edit : string)
  (logs : list LogEntry) (failed_files : list string) :
  process_log_files self uploaded_files file_names log_regex_edit time_regex_edit
  = Ok (logs, failed_files) ->
  incl failed_files file_names.
Proof.
  intros H. apply process_log_files_result in H. destruct H as [_ ->].
  intros name Hin. apply in_flat_map in Hin. destruct Hin as [[f n] [Hfile Hin]].
  apply reported_name in Hin. subst name. now apply in_combine_r in Hfile.
Qed.

Lemma keyword_filter_sorted (logs out : list LogEntry) (keywords : list string) :
  filter_logs_by_keywords logs keywords = Ok out ->
  StronglySorted key_le logs ->
  StronglySorted key_le out /\ incl out logs.
Proof.
  intros H Hs.
  destruct (filter_logs_by_keywords_test keywords) as [Hall|[[keep Hk]|[e He]]].
  - rewrite Hall in H. inversion H; subst. split; [exact Hs|apply incl_refl].
  - rewrite Hk in H. inversion H; subst. split; [now apply filter_sorted|].
    intros x Hx. now apply filter_In in Hx.
  - rewrite He in H. discriminate.
Qed.

Lemma time_filter_sorted (logs : list LogEntry) (start_time end_time : option datetime) :
  StronglySorted key_le logs ->
  StronglySorted key_le (filter_logs_by_time_range logs start_time end_time).
Proof. rewrite filter_logs_by_time_range_filter. apply filter_sorted. Qed.

Lemma time_filter_stamped (logs : list LogEntry) (start_time end_time : option datetime)
  (log : LogEntry) :
  In log (filter_logs_by_time_range logs start_time end_time) ->
  In log logs /\ timestamp log <> None.
Proof.
  rewrite filter_logs_by_time_range_filter, filter_In. unfold in_time_range.
  intros [Hin Hk]. split; [exact Hin|]. now destruct (timestamp log).
Qed.

End Analysis.

Lemma filter_drops {A : Type} (keep : A -> bool) (l : list A) (x : A) :
  In x l -> keep x = false -> (List.length (filter keep l) < List.length l)%nat.
Proof.
  induction l as [|y l IH]; intros Hin Hk; [contradiction|].
  simpl. destruct Hin as [->|Hin].
  - rewrite Hk. pose proof (filter_length_le keep l). lia.
  - specialize (IH Hin Hk). destruct (keep y); simpl; lia.
Qed.

(** X12: what an analysis displays.  When ingestion returns and the window
    holds as many names as streams, [all_logs] is the ingested list; in
    highlight mode the displayed list is the time-filtered list itself,
    whatever the keywords, and in filter mode it is the keyword filter's
    output on it; the sort in [display_logs] changes nothing.  The time
    filter runs also when no range is set, so no entry without a timestamp
    is ever displayed, and the display is in ascending key order.  When
    the keyword filter raises, the display is left as it was and the
    analysis is not marked as started. *)
Theorem process_files_display `{RE : ReModule} `{ENV : Environment}
  (w : Window) (c : Controls) (logs : list LogEntry) (failed_files : list string) :
  uploaded_files w <> [] ->
  List.length (file_names w) = List.length (uploaded_files w) ->
  process_log_files LogAnalyzerApp.log_processor (uploaded_files w) (file_names w)
    (log_regex_text c) (time_regex_text c) = Ok (logs, failed_files) ->
  let ranged :=
    filter_logs_by_time_range logs (option_map fst (time_range c))
      (option_map snd (time_range c)) in
  let keywords := search_keywords (search_text c) in
  all_logs (process_files w c) = logs
  /\ (filter_mode c = false ->
      current_logs (process_files w c) = ranged
      /\ analysis_started (process_files w c) = true)
  /\ (filter_mode c = true ->
      forall out, filter_logs_by_keywords ranged keywords = Ok out ->
                  current_logs (process_files w c) = out
                  /\ analysis_started (process_files w c) = true)
  /\ (filter_mode c = true ->
      forall e, filter_logs_by_keywords ranged keywords = Raise e ->
                current_logs (process_files w c) = current_logs w
                /\ analysis_started (process_files w c)
                   = (if is_nil failed_files then analysis_started w else false))
  /\ (filter_mode c = false
      \/ is_ok (filter_logs_by_keywords ranged keywords) = true ->
      StronglySorted key_le (current_logs (process_files w c))
      /\ forall log, In log (current_logs (process_files w c)) ->
                     In log logs /\ timestamp log <> None).
Proof.
  intros Hne Hlen Hrun ranged keywords.
  pose proof (process_log_files_sorted_output _ _ _ _ _ _ _ Hrun) as Hsorted.
  destruct (process_files_run w c logs failed_files Hne Hlen Hrun)
    as [w3 [Hall [Hcur [_ [_ [_ [Hflag ->]]]]]]].
  cbv zeta. fold ranged. fold keywords.
  assert (Hranged : StronglySorted key_le ranged) by now apply time_filter_sorted.
  assert (Hstarted : forall w0, analysis_started (started w0) = true) by reflexivity.
  assert (Hshow : forall l hk, StronglySorted key_le l ->
                               current_logs (started (display_logs w3 l hk)) = l).
  { intros l hk Hl. cbn [started current_logs].
    destruct (display_logs_fields w3 l hk) as [-> _]. now apply list_sort_fixpoint. }
  assert (Hkeep : forall l hk, all_logs (started (display_logs w3 l hk)) = logs).
  { intros l hk. cbn [started all_logs].
    destruct (display_logs_fields w3 l hk) as [_ [_ [_ [_ [_ [-> _]]]]]]. exact Hall. }
  destruct (filter_mode c) eqn:Hmode.
  - destruct (filter_logs_by_keywords ranged keywords) as [out|e] eqn:Hkw.
    + destruct (keyword_filter_sorted _ _ _ Hkw Hranged) as [Hout Hincl].
      split; [apply Hkeep|]. split; [discriminate|].
      split; [intros _ out' E; inversion E; subst; split; [now apply Hshow|apply Hstarted]|].
      split; [intros _ e E; discriminate|].
      intros _. rewrite Hshow by exact Hout. split; [exact Hout|].
      intros log Hin. apply Hincl in Hin. now apply time_filter_stamped in Hin.
    + split; [exact Hall|]. split; [discriminate|].
      split; [intros _ out E; discriminate|].
      split; [intros _ e' _; split; [exact Hcur|exact Hflag]|].
      intros [E|E]; discriminate.
  - split; [apply Hkeep|].
    split; [intros _; split; [now apply Hshow|apply Hstarted]|].
    split; [discriminate|]. split; [discriminate|].
    intros _. rewrite Hshow by exact Hranged. split; [exact Hranged|].
    intros log Hin. now apply time_filter_stamped in Hin.
Qed.

Lemma process_files_display_witness :
  current_logs (process_files (RE := sre_module) (ENV := ascii_installation)
                  two_file_window plain_controls)
  = [epoch_entry].
Proof.
  destruct (process_files_display (RE := sre_module) (ENV := ascii_installation)
              two_file_window plain_controls [epoch_entry; untimed_entry]
              ["empty.log"]) as [_ [H _]].
  - discriminate.
  - reflexivity.
  - vm_compute. reflexivity.
  - exact (proj1 (H eq_refl)).
Defined.

(** X13: the removal of the files that gave no entry.  When ingestion
    reports failed files and the window holds as many names as streams, the
    names that remain are those not reported, in their order, and they are
    strictly fewer; the streams that remain are the streams at the first
    positions of the old list, as many as names remain, whichever files
    failed: a stream keeps its place only when no failed file stood before
    it.  The watched entries are dropped. *)
Theorem process_files_removal `{RE : ReModule} `{ENV : Environment}
  (w : Window) (c : Controls) (logs : list LogEntry) (failed_files : list string) :
  uploaded_files w <> [] ->
  List.length (file_names w) = List.length (uploaded_files w) ->
  process_log_files LogAnalyzerApp.log_processor (uploaded_files w) (file_names w)
    (log_regex_text c) (time_regex_text c) = Ok (logs, failed_files) ->
  failed_files <> [] ->
  file_names (process_files w c)
  = filter (fun f => negb (str_in f failed_files)) (file_names w)
  /\ (forall f, In f (file_names (process_files w c)) <->
                In f (file_names w) /\ ~ In f failed_files)
  /\ (List.length (file_names (process_files w c)) < List.length (file_names w))%nat
  /\ uploaded_files (process_files w c)
     = firstn (List.length (file_names (process_files w c))) (uploaded_files w)
  /\ List.length (uploaded_files (process_files w c))
     = List.length (file_names (process_files w c))
  /\ watched_logs (process_files w c) = [].
Proof.
  intros Hne Hlen Hrun Hfailed.
  pose proof (process_log_files_failed_named _ _ _ _ _ _ _ Hrun) as Hnamed.
  destruct (process_files_run w c logs failed_files Hne Hlen Hrun)
    as [w3 [_ [_ [Hnames [Hstreams [Hwatched [_ Hw]]]]]]].
  assert (is_nil failed_files = false) as Hnil by now destruct failed_files.
  rewrite Hnil in Hnames, Hstreams, Hwatched.
  assert (Hsame : file_names (process_files w c) = file_names w3
                  /\ uploaded_files (process_files w c) = uploaded_files w3
                  /\ watched_logs (process_files w c) = watched_logs w3).
  { rewrite Hw. cbv zeta.
    assert (Hd : forall l hk,
               file_names (started (display_logs w3 l hk)) = file_names w3
               /\ uploaded_files (started (display_logs w3 l hk)) = uploaded_files w3
               /\ watched_logs (started (display_logs w3 l hk)) = watched_logs w3).
    { intros l hk. cbn [started file_names uploaded_files watched_logs].
      destruct (display_logs_fields w3 l hk) as [_ [_ [-> [-> [-> _]]]]].
      repeat split. }
    destruct (filter_mode c); [|apply Hd].
    destruct (filter_logs_by_keywords _ _); [apply Hd|repeat split]. }
  destruct Hsame as [-> [-> ->]]. rewrite Hnames, Hstreams, Hwatched.
  split; [reflexivity|].
  split; [apply RemovalFacts.kept_names_spec|].
  assert (Hlt : (List.length (kept_names (file_names w) failed_files)
                 < List.length (file_names w))%nat).
  { destruct failed_files as [|f rest]; [contradiction|].
    apply (filter_drops _ _ f).
    - apply Hnamed. now left.
    - apply negb_false_iff, RemovalFacts.str_in_In. now left. }
  split; [exact Hlt|]. split; [reflexivity|]. split; [|reflexivity].
  rewrite length_firstn. lia.
Qed.

Lemma process_files_removal_witness :
  file_names (process_files (RE := sre_module) (ENV := ascii_installation)
                two_file_window plain_controls) = ["a.log"]
  /\ uploaded_files (process_files (RE := sre_module) (ENV := ascii_installation)
                       two_file_window plain_controls) = [BytesIO_open []].
Proof.
  destruct (process_files_removal (RE := sre_module) (ENV := ascii_installation)
              two_file_window plain_controls [epoch_entry; untimed_entry]
              ["empty.log"]) as [Hn [_ [_ [Hs _]]]].
  - discriminate.
  - reflexivity.
  - vm_compute. reflexivity.
  - discriminate.
  - split; [exact Hn|]. rewrite Hs, Hn. reflexivity.
Defined.

(* ================================================================== *)
(** ** The file list: [delete_file_item] *)

Module FileListFacts.

Lemma remove_nth_combine {A B : Type} (i : nat) :
  forall (l : list A) (l' : list B),
    combine (remove_nth i l) (remove_nth i l') = remove_nth i (combine l l').
Proof.
  induction i as [|i IH]; intros [|x l] [|y l']; simpl; try reflexivity.
  - now destruct l.
  - now rewrite IH.
Qed.

Lemma remove_nth_length {A : Type} (i : nat) :
  forall l : list A,
    (i < List.length l)%nat -> S (List.length (remove_nth i l)) = List.length l.
Proof.
  induction i as [|i IH]; intros [|x l] H; simpl in *; try lia.
  rewrite IH; lia.
Qed.

Lemma remove_nth_before {A : Type} (i j : nat) :
  forall l : list A, (j < i)%nat -> nth_error (remove_nth i l) j = nth_error l j.
Proof.
  revert j. induction i as [|i IH]; intros j l H; [lia|].
  destruct l as [|x l]; [reflexivity|]. destruct j as [|j]; [reflexivity|].
  simpl. apply IH. lia.
Qed.

Lemma remove_nth_after {A : Type} (i j : nat) :
  forall l : list A, (i <= j)%nat -> nth_error (remove_nth i l) j = nth_error l (S j).
Proof.
  revert j. induction i as [|i IH]; intros j l H.
  - destruct l as [|x l]; [now destruct j|reflexivity].
  - destruct l as [|x l]; [now destruct j|]. destruct j as [|j]; [lia|].
    simpl. apply IH. lia.
Qed.

End FileListFacts.

(** X14: deleting a file from the list.  An index outside the list of names
    changes nothing.  For an index within it, when the window holds as many
    streams as names, the name and the stream at that position leave
    together: every other name keeps its stream, each list is one shorter,
    the watched entries are dropped and the analysis is marked as not
    started, while the entries of the last analysis, those of the deleted
    file included, stay on display. *)
Theorem delete_file_item_aligned (w : Window) (idx : Z) :
  List.length (uploaded_files w) = List.length (file_names w) ->
  (idx < 0 \/ Z.of_nat (List.length (file_names w)) <= idx ->
   delete_file_item w idx = w)
  /\ (0 <= idx < Z.of_nat (List.length (file_names w)) ->
      let w' := delete_file_item w idx in
      combine (uploaded_files w') (file_names w')
      = remove_nth (Z.to_nat idx) (combine (uploaded_files w) (file_names w))
      /\ (forall j, (j < Z.to_nat idx)%nat ->
                    nth_error (file_names w') j = nth_error (file_names w) j
                    /\ nth_error (uploaded_files w') j = nth_error (uploaded_files w) j)
      /\ (forall j, (Z.to_nat idx <= j)%nat ->
                    nth_error (file_names w') j = nth_error (file_names w) (S j)
                    /\ nth_error (uploaded_files w') j
                       = nth_error (uploaded_files w) (S j))
      /\ S (List.length (file_names w')) = List.length (file_names w)
      /\ List.length (uploaded_files w') = List.length (file_names w')
      /\ watched_logs w' = []
      /\ analysis_started w' = false
      /\ current_logs w' = current_logs w
      /\ log_display w' = log_display w).
Proof.
  intros Hlen. unfold delete_file_item. split.
  - intros [H|H].
    + apply Z.ltb_lt in H. now rewrite H.
    + apply Z.leb_le in H. rewrite H. now rewrite orb_true_r.
  - intros [Hlo Hhi].
    assert ((idx <? 0) = false) as -> by now apply Z.ltb_ge.
    assert ((Z.of_nat (List.length (file_names w)) <=? idx) = false) as ->
        by (apply Z.leb_gt; lia).
    cbn [orb].
    assert (Hi : (Z.to_nat idx < List.length (file_names w))%nat) by lia.
    assert (Nat.ltb (Z.to_nat idx) (List.length (uploaded_files w)) = true) as ->
        by (apply Nat.ltb_lt; lia).
    cbn [refresh_file_list with_files uploaded_files file_names watched_logs
         analysis_started current_logs log_display].
    split; [apply FileListFacts.remove_nth_combine|].
    split; [intros j Hj; split; now apply FileListFacts.remove_nth_before|].
    split; [intros j Hj; split; now apply FileListFacts.remove_nth_after|].
    pose proof (FileListFacts.remove_nth_length (Z.to_nat idx) (file_names w) Hi).
    pose proof (FileListFacts.remove_nth_length (Z.to_nat idx) (uploaded_files w)).
    repeat split; lia.
Qed.

Lemma delete_file_item_aligned_witness :
  delete_file_item two_file_window 2 = two_file_window.
Proof.
  apply (delete_file_item_aligned two_file_window 2); [reflexivity|].
  right. vm_compute. discriminate.
Defined.

(* ================================================================== *)
(** ** The id dictionaries and the watched entries *)

Module EntryFacts.

Lemma option_datetime_eqb_eq (a b : option datetime) :
  option_datetime_eqb a b = true <-> a = b.
Proof.
  destruct a as [x|], b as [y|]; simpl; try (split; [discriminate|congruence]).
  - rewrite DatetimeFacts.eqb_eq. split; congruence.
  - split; reflexivity.
Qed.

Lemma LogEntry_eqb_eq (a b : LogEntry) : LogEntry_eqb a b = true <-> a = b.
Proof.
  unfold LogEntry_eqb. rewrite !andb_true_iff, !String.eqb_eq, option_datetime_eqb_eq.
  destruct a, b; simpl. split.
  - intros [[[-> ->] ->] ->]. reflexivity.
  - intros E. inversion E. repeat split.
Qed.

Lemma LogEntry_eqb_refl (a : LogEntry) : LogEntry_eqb a a = true.
Proof. now apply LogEntry_eqb_eq. Qed.

Lemma LogEntry_eqb_neq (a b : LogEntry) : LogEntry_eqb a b = false <-> a <> b.
Proof.
  rewrite <- not_true_iff_false. now rewrite LogEntry_eqb_eq.
Qed.

Lemma log_in_In (x : LogEntry) (l : list LogEntry) : log_in x l = true <-> In x l.
Proof.
  unfold log_in. rewrite existsb_exists. split.
  - intros [y [Hin E]]. apply LogEntry_eqb_eq in E. now subst.
  - intros H. exists x. split; [exact H|apply LogEntry_eqb_refl].
Qed.

Lemma log_in_not_In (x : LogEntry) (l : list LogEntry) :
  log_in x l = false <-> ~ In x l.
Proof. rewrite <- not_true_iff_false. now rewrite log_in_In. Qed.

Lemma option_nat_eqb_eq (a b : option nat) : option_nat_eqb a b = true <-> a = b.
Proof.
  destruct a as [x|], b as [y|]; simpl; try (split; [discriminate|congruence]).
  - rewrite Nat.eqb_eq. split; congruence.
  - split; reflexivity.
Qed.

(** [l.remove(x)] on a list without repetition *)
Lemma list_remove_In (x y : LogEntry) (l : list LogEntry) :
  NoDup l -> (In y (list_remove x l) <-> In y l /\ y <> x).
Proof.
  induction 1 as [|z l Hz Hnd IH]; simpl; [tauto|].
  destruct (LogEntry_eqb x z) eqn:E.
  - apply LogEntry_eqb_eq in E. subst z. split.
    + intros H. split; [now right|]. intros ->. contradiction.
    + intros [[->|H] Hne]; [contradiction|exact H].
  - apply LogEntry_eqb_neq in E. simpl. rewrite IH. split.
    + intros [->|[H Hne]]; [split; [now left|congruence]|split; [now right|exact Hne]].
    + intros [[->|H] Hne]; [now left|right; now split].
Qed.

Lemma list_remove_NoDup (x : LogEntry) (l : list LogEntry) :
  NoDup l -> NoDup (list_remove x l).
Proof.
  induction 1 as [|z l Hz Hnd IH]; simpl; [constructor|].
  destruct (LogEntry_eqb x z); [exact Hnd|].
  constructor; [|exact IH]. intros H. apply list_remove_In in H; tauto.
Qed.

End EntryFacts.

Module DictFacts.

Section Lookup.

Context {K V : Type} (eqb : K -> K -> bool).
Hypothesis eqb_eq : forall a b, eqb a b = true <-> a = b.

Lemma lookup_store (k k' : K) (v : V) (d : list (K * V)) :
  dict_lookup eqb k (dict_store eqb k' v d)
  = if eqb k k' then Some v else dict_lookup eqb k d.
Proof.
  induction d as [|[k0 v0] d IH]; simpl.
  - reflexivity.
  - destruct (eqb k' k0) eqn:E0; simpl.
    + apply eqb_eq in E0. subst k0. now destruct (eqb k k').
    + destruct (eqb k k0) eqn:E1.
      * destruct (eqb k k') eqn:E2; [|reflexivity].
        apply eqb_eq in E1, E2. subst. 
        assert (eqb k0 k0 = true) by now apply eqb_eq. congruence.
      * exact IH.
Qed.

End Lookup.

End DictFacts.

Module IdMapFacts.

Lemma id_maps_fold (l : list LogEntry) :
  id_maps l = fold_left id_maps_step (enumerate l) ([], []).
Proof. reflexivity. Qed.

Lemma fold_ids (l : list LogEntry) :
  forall start maps i,
    dict_lookup Nat.eqb i (fst (fold_left id_maps_step (combine (seq start (List.length l)) l) maps))
    = if (Nat.leb start i && Nat.ltb i (start + List.length l))%bool
      then nth_error l (i - start)
      else dict_lookup Nat.eqb i (fst maps).
Proof.
  induction l as [|x l IH]; intros start maps i.
  - simpl. rewrite Nat.add_0_r.
    destruct (Nat.leb start i) eqn:E1; [|reflexivity].
    destruct (Nat.ltb i start) eqn:E2; [|reflexivity].
    apply Nat.leb_le in E1. apply Nat.ltb_lt in E2. lia.
  - cbn [List.length seq combine fold_left]. rewrite IH. cbn [id_maps_step fst snd].
    rewrite (DictFacts.lookup_store Nat.eqb Nat.eqb_eq).
    destruct (Nat.leb (S start) i) eqn:E1.
    + apply Nat.leb_le in E1.
      assert (Nat.leb start i = true) as -> by (apply Nat.leb_le; lia).
      replace (start + S (List.length l))%nat with (S start + List.length l)%nat by lia.
      destruct (Nat.ltb i (S start + List.length l)) eqn:E2; cbn [andb].
      * replace (i - start)%nat with (S (i - S start)) by lia. reflexivity.
      * assert (Nat.eqb i start = false) as -> by (apply Nat.eqb_neq; lia).
        reflexivity.
    + apply Nat.leb_gt in E1. cbn [andb].
      destruct (Nat.eqb i start) eqn:E3.
      * apply Nat.eqb_eq in E3. subst i.
        rewrite Nat.leb_refl.
        assert (Nat.ltb start (start + S (List.length l)) = true) as ->
            by (apply Nat.ltb_lt; lia).
        rewrite Nat.sub_diag. reflexivity.
      * apply Nat.eqb_neq in E3.
        assert (Nat.leb start i = false) as -> by (apply Nat.leb_gt; lia).
        reflexivity.
Qed.

Lemma fold_entries (l : list LogEntry) :
  forall start maps x,
    dict_lookup LogEntry_eqb x
      (snd (fold_left id_maps_step (combine (seq start (List.length l)) l) maps))
    = match last_index x l with
      | Some j => Some (start + j)%nat
      | None => dict_lookup LogEntry_eqb x (snd maps)
      end.
Proof.
  induction l as [|y l IH]; intros start maps x; [reflexivity|].
  cbn [List.length seq combine fold_left last_index]. rewrite IH.
  destruct (last_index x l) as [j|].
  - f_equal. lia.
  - cbn [id_maps_step fst snd].
    rewrite (DictFacts.lookup_store LogEntry_eqb EntryFacts.LogEntry_eqb_eq).
    destruct (LogEntry_eqb x y); [f_equal; lia|reflexivity].
Qed.

(** An id is the index of its entry on display. *)
Lemma log_id_map_lookup (l : list LogEntry) (i : nat) :
  dict_lookup Nat.eqb i (fst (id_maps l)) = nth_error l i.
Proof.
  rewrite id_maps_fold. unfold enumerate. rewrite fold_ids. simpl.
  rewrite Nat.sub_0_r.
  destruct (Nat.ltb i (List.length l)) eqn:E; [reflexivity|].
  apply Nat.ltb_ge in E. symmetry. now apply nth_error_None.
Qed.

(** The id of an entry is the last index at which it is on display. *)
Lemma entry_to_id_map_lookup (l : list LogEntry) (x : LogEntry) :
  dict_lookup LogEntry_eqb x (snd (id_maps l)) = last_index x l.
Proof.
  rewrite id_maps_fold. unfold enumerate. rewrite fold_entries. simpl.
  now destruct (last_index x l).
Qed.

Lemma last_index_nth (x : LogEntry) (l : list LogEntry) :
  forall i, last_index x l = Some i -> nth_error l i = Some x.
Proof.
  induction l as [|y l IH]; intros i H; [discriminate|].
  simpl in H. destruct (last_index x l) as [j|].
  - inversion H; subst. simpl. now apply IH.
  - destruct (LogEntry_eqb x y) eqn:E; [|discriminate].
    inversion H; subst. apply EntryFacts.LogEntry_eqb_eq in E. now subst.
Qed.

Lemma last_index_None (x : LogEntry) (l : list LogEntry) :
  last_index x l = None <-> ~ In x l.
Proof.
  induction l as [|y l IH]; simpl; [tauto|].
  destruct (last_index x l) as [j|] eqn:Ej.
  - split; [discriminate|]. intros H. exfalso. apply H. right.
    apply last_index_nth in Ej. now apply nth_error_In in Ej.
  - assert (Hx : ~ In x l) by now apply IH.
    destruct (LogEntry_eqb x y) eqn:E.
    + apply EntryFacts.LogEntry_eqb_eq in E. subst. split; [discriminate|].
      intros H. exfalso. apply H. now left.
    + apply EntryFacts.LogEntry_eqb_neq in E. split; [|reflexivity].
      intros _ [->|H]; [congruence|contradiction].
Qed.

Lemma last_index_NoDup (x : LogEntry) (l : list LogEntry) :
  NoDup l -> forall i, nth_error l i = Some x -> last_index x l = Some i.
Proof.
  induction 1 as [|y l Hy Hnd IH]; intros i H; [now destruct i|].
  destruct i as [|i]; simpl in *.
  - inversion H; subst. apply last_index_None in Hy. rewrite Hy.
    now rewrite EntryFacts.LogEntry_eqb_refl.
  - now rewrite (IH i H).
Qed.

End IdMapFacts.

(* ================================================================== *)
(** ** Check marks: [on_log_item_changed] *)

Lemma load_page_fields (w : Window) (p : nat) (hk : list string) :
  uploaded_files (load_page w p hk) = uploaded_files w
  /\ file_names (load_page w p hk) = file_names w
  /\ all_logs (load_page w p hk) = all_logs w
  /\ current_logs (load_page w p hk) = current_logs w
  /\ watched_logs (load_page w p hk) = watched_logs w
  /\ log_id_map (load_page w p hk) = log_id_map w
  /\ entry_to_id_map (load_page w p hk) = entry_to_id_map w
  /\ (current_logs w <> [] ->
      log_display (load_page w p hk) = page_items w p hk
      /\ current_page (load_page w p hk) = p).
Proof.
  unfold load_page. destruct (current_logs w) eqn:E; cbn; repeat split; congruence.
Qed.

Lemma page_items_marks (w : Window) (p : nat) (hk : list string) (it : Item) :
  In it (page_items w p hk) ->
  nth_error (current_logs w) (item_id it) = Some (item_log it)
  /\ item_checked it = log_in (item_log it) (watched_logs w).
Proof.
  unfold page_items. rewrite in_flat_map. intros [idx [_ H]].
  destruct (nth_error (current_logs w) idx) as [log|] eqn:E; [|contradiction].
  destruct H as [<-|[]]. cbn. now split.
Qed.

(** X15: setting or clearing the check mark of a row.  In a window whose id
    dictionary is that of the entries on display and whose watched list has
    no repetition, an id beyond the display changes nothing; for the id of
    a row, the entry at that index is watched afterwards exactly when the
    mark is set, a newly watched entry is appended last, no other entry
    enters or leaves the watched list, the list still has no repetition,
    and the page is reloaded in place with check marks exactly on the
    watched entries. *)
Theorem on_log_item_changed_toggles (w : Window) (log_id : nat)
  (checked highlight_mode : bool) (search_box : string) :
  indexed w ->
  NoDup (watched_logs w) ->
  let w' := on_log_item_changed w log_id checked highlight_mode search_box in
  ((List.length (current_logs w) <= log_id)%nat -> w' = w)
  /\ (forall log, nth_error (current_logs w) log_id = Some log ->
        (In log (watched_logs w') <-> checked = true)
        /\ (forall x, x <> log -> (In x (watched_logs w') <-> In x (watched_logs w)))
        /\ (checked = true -> ~ In log (watched_logs w) ->
            watched_logs w' = watched_logs w ++ [log])
        /\ marks_agree w'
        /\ current_page w' = current_page w)
  /\ NoDup (watched_logs w')
  /\ indexed w'
  /\ current_logs w' = current_logs w.
Proof.
  intros [Hids Hentries] Hnd w'. subst w'. unfold on_log_item_changed.
  rewrite Hids, IdMapFacts.log_id_map_lookup.
  destruct (nth_error (current_logs w) log_id) as [log|] eqn:Hrow.
  - set (watched := if checked then _ else _).
    set (hk := if highlight_mode then _ else _).
    destruct (load_page_fields (with_watched w watched) (current_page w) hk)
      as [_ [_ [_ [Hcur [Hw [Hm1 [Hm2 Hpage]]]]]]].
    cbn [with_watched current_logs watched_logs log_id_map entry_to_id_map] in *.
    rewrite Hw, Hcur.
    assert (Hne : current_logs w <> []).
    { intros E. rewrite E in Hrow. now destruct log_id. }
    destruct (Hpage Hne) as [Hrows Hp].
    assert (Hmem : forall x, In x watched <->
                             (x = log /\ checked = true) \/ (x <> log /\ In x (watched_logs w))).
    { intros x. subst watched. destruct checked.
      - destruct (log_in log (watched_logs w)) eqn:E.
        + apply EntryFacts.log_in_In in E.
          destruct (LogEntry_eqb x log) eqn:Ex.
          * apply EntryFacts.LogEntry_eqb_eq in Ex. subst. tauto.
          * apply EntryFacts.LogEntry_eqb_neq in Ex. tauto.
        + apply EntryFacts.log_in_not_In in E. rewrite in_app_iff. simpl.
          destruct (LogEntry_eqb x log) eqn:Ex.
          * apply EntryFacts.LogEntry_eqb_eq in Ex. subst. tauto.
          * apply EntryFacts.LogEntry_eqb_neq in Ex. split.
            -- intros [H|[H|[]]]; [tauto|congruence].
            -- intros [[H _]|[_ H]]; [contradiction|now left].
      - destruct (log_in log (watched_logs w)) eqn:E.
        + rewrite EntryFacts.list_remove_In by exact Hnd. split.
          * intros [H Hne']. now right.
          * intros [[_ H]|[Hne' H]]; [discriminate|now split].
        + apply EntryFacts.log_in_not_In in E. split.
          * intros H. right. split; [|exact H]. intros ->. contradiction.
          * intros [[_ H]|[_ H]]; [discriminate|exact H]. }
    split; [intros Hlen; apply nth_error_None in Hlen; congruence|].
    split.
    { intros log' E. inversion E; subst log'. split.
      - rewrite Hmem. split; [intros [[_ H]|[H _]]; [exact H|congruence]|].
        intros H. left. now split.
      - split.
        + intros x Hx. rewrite Hmem. split; [intros [[H _]|[_ H]]; [contradiction|exact H]|].
          intros H. right. now split.
        + split.
          * intros -> Hout. subst watched. apply EntryFacts.log_in_not_In in Hout.
            now rewrite Hout.
          * split; [|exact Hp].
            intros it Hit. rewrite Hrows in Hit. rewrite Hw, Hcur.
            now apply page_items_marks in Hit. }
    split.
    { subst watched. destruct checked.
      - destruct (log_in log (watched_logs w)) eqn:E; [exact Hnd|].
        apply EntryFacts.log_in_not_In in E.
        apply NoDup_app; [exact Hnd|repeat constructor; intros []|].
        intros x Hx [<-|[]]. contradiction.
      - destruct (log_in log (watched_logs w)); [|exact Hnd].
        now apply EntryFacts.list_remove_NoDup. }
    split; [|reflexivity].
    unfold indexed. rewrite Hm1, Hm2, Hcur. now split.
  - split; [reflexivity|]. split; [discriminate|].
    split; [exact Hnd|]. split; [now split|reflexivity].
Qed.

Lemma on_log_item_changed_toggles_witness :
  watched_logs (on_log_item_changed two_entry_window 1 true false "")
  = [untimed_entry].
Proof.
  destruct (on_log_item_changed_toggles two_entry_window 1 true false "")
    as [_ [H _]].
  - split; vm_compute; reflexivity.
  - constructor.
  - destruct (H untimed_entry eq_refl) as [_ [_ [Happ _]]].
    apply Happ; [reflexivity|]. intros [].
Defined.

(* ================================================================== *)
(** ** The watched panel: [update_watched_logs_display] and
       [delete_watched_item] *)

Module WatchedFacts.

Section Keyed.

Context {K : Type} (eqb : K -> K -> bool).
Hypothesis eqb_eq : forall a b, eqb a b = true <-> a = b.
Variable key : LogEntry -> K.

Local Abbreviation store := (fun d log => dict_store eqb (key log) log d).

Lemma fold_store_sound (l : list LogEntry) :
  forall d k x,
    dict_lookup eqb k (fold_left store l d) = Some x ->
    (In x l /\ key x = k) \/ dict_lookup eqb k d = Some x.
Proof.
  induction l as [|y l IH]; intros d k x H; [now right|].
  cbn [fold_left] in H. apply IH in H. destruct H as [[Hin Hk]|H].
  - left. split; [now right|exact Hk].
  - rewrite (DictFacts.lookup_store eqb eqb_eq) in H.
    destruct (eqb k (key y)) eqn:E; [|now right].
    apply eqb_eq in E. inversion H; subst. left. split; [now left|reflexivity].
Qed.

Lemma fold_store_complete (l : list LogEntry) :
  forall d k,
    (exists x, In x l /\ key x = k) \/ (exists y, dict_lookup eqb k d = Some y) ->
    exists y, dict_lookup eqb k (fold_left store l d) = Some y.
Proof.
  induction l as [|z l IH]; intros d k H.
  - destruct H as [[x [[] _]]|H]. exact H.
  - cbn [fold_left]. apply IH.
    destruct H as [[x [[->|Hin] Hk]]|[y Hy]].
    + right. exists x. rewrite (DictFacts.lookup_store eqb eqb_eq).
      rewrite <- Hk. now rewrite (proj2 (eqb_eq _ _) eq_refl).
    + left. now exists x.
    + right. rewrite (DictFacts.lookup_store eqb eqb_eq).
      destruct (eqb k (key z)); [now exists z|now exists y].
Qed.

End Keyed.

(** Reading a list by all its indices. *)
Lemma read_all {A B : Type} (f : nat -> A -> list B) (l : list A) :
  forall prefix,
    flat_map (fun i => match nth_error (prefix ++ l) i with
                       | Some x => f i x
                       | None => []
                       end) (seq (List.length prefix) (List.length l))
    = flat_map (fun '(i, x) => f i x) (combine (seq (List.length prefix) (List.length l)) l).
Proof.
  induction l as [|x l IH]; intros prefix; [reflexivity|].
  cbn [List.length seq combine flat_map].
  rewrite nth_error_app2 by lia. rewrite Nat.sub_diag. cbn [nth_error]. f_equal.
  specialize (IH (prefix ++ [x])).
  rewrite <- app_assoc, length_app in IH. cbn [List.length app] in IH.
  rewrite Nat.add_1_r in IH. exact IH.
Qed.

Lemma kept_rows {A : Type} (keep : A -> bool) (l : list A) :
  forall start,
    map snd (flat_map (fun '(i, x) => if keep x then [(i, x)] else [])
                      (combine (seq start (List.length l)) l))
    = filter keep l.
Proof.
  induction l as [|x l IH]; intros start; [reflexivity|].
  cbn [List.length seq combine flat_map filter]. rewrite map_app, IH.
  now destruct (keep x).
Qed.

Lemma rows_sorted {A : Type} (g : nat -> option A) :
  forall n start,
    StronglySorted lt
      (map fst (flat_map (fun i => match g i with
                                   | Some x => [(i, x)]
                                   | None => []
                                   end) (seq start n)))
    /\ Forall (fun i => (start <= i)%nat)
         (map fst (flat_map (fun i => match g i with
                                      | Some x => [(i, x)]
                                      | None => []
                                      end) (seq start n))).
Proof.
  induction n as [|n IH]; intros start; [split; constructor|].
  cbn [seq flat_map]. destruct (IH (S start)) as [Hs Hall].
  assert (Hall' : Forall (fun i => (start < i)%nat)
                    (map fst (flat_map (fun i => match g i with
                                                 | Some x => [(i, x)]
                                                 | None => []
                                                 end) (seq (S start) n)))).
  { eapply Forall_impl; [|exact Hall]. intros i Hi. exact Hi. }
  destruct (g start); cbn [app map fst].
  - split; [now constructor|].
    constructor; [lia|]. eapply Forall_impl; [|exact Hall]. intros i Hi. simpl in Hi. lia.
  - split; [exact Hs|]. eapply Forall_impl; [|exact Hall]. intros i Hi. simpl in Hi. lia.
Qed.

End WatchedFacts.

(** The rows of the watched panel, read by index: one row for each index
    that is the id of a watched entry. *)
Lemma watched_rows_by_index (w : Window) :
  indexed w ->
  exists g : nat -> option LogEntry,
    watched_rows w
    = flat_map (fun i => match g i with Some x => [(i, x)] | None => [] end)
               (seq 0 (List.length (current_logs w)))
    /\ forall i x, g i = Some x <->
                   In x (watched_logs w) /\ last_index x (current_logs w) = Some i.
Proof.
  intros [_ Hentries]. unfold watched_rows. rewrite Hentries.
  set (key := fun log => dict_lookup LogEntry_eqb log (snd (id_maps (current_logs w)))).
  assert (Hkey : forall x, key x = last_index x (current_logs w)).
  { intros x. apply IdMapFacts.entry_to_id_map_lookup. }
  set (id_to_log := fold_left _ (watched_logs w) []).
  exists (fun i => dict_lookup option_nat_eqb (Some i) id_to_log).
  assert (Hg : forall i x,
             dict_lookup option_nat_eqb (Some i) id_to_log = Some x <->
             In x (watched_logs w) /\ last_index x (current_logs w) = Some i).
  { intros i x. split.
    - intros H.
      apply (WatchedFacts.fold_store_sound option_nat_eqb EntryFacts.option_nat_eqb_eq key)
        in H.
      destruct H as [[Hin Hk]|H]; [|discriminate]. rewrite Hkey in Hk. now split.
    - intros [Hin Hk].
      destruct (WatchedFacts.fold_store_complete option_nat_eqb
                  EntryFacts.option_nat_eqb_eq key (watched_logs w) [] (Some i))
        as [y Hy].
      { left. exists x. split; [exact Hin|]. now rewrite Hkey. }
      change (dict_lookup option_nat_eqb (Some i) id_to_log = Some y) in Hy.
      rewrite Hy. f_equal.
      apply (WatchedFacts.fold_store_sound option_nat_eqb EntryFacts.option_nat_eqb_eq key)
        in Hy.
      destruct Hy as [[_ Hky]|Hy]; [|discriminate]. rewrite Hkey in Hky.
      apply IdMapFacts.last_index_nth in Hk, Hky. congruence. }
  split; [|exact Hg].
  unfold range. rewrite Nat.sub_0_r.
  induction (seq 0 (List.length (current_logs w))) as [|i rest IH]; [reflexivity|].
  cbn [flat_map]. rewrite flat_map_app, IH. f_equal.
  destruct (dict_lookup option_nat_eqb (Some i) id_to_log) as [x|] eqn:E; [|reflexivity].
  cbn [flat_map app]. fold (key x). rewrite Hkey.
  apply Hg in E. destruct E as [_ ->]. reflexivity.
Qed.

Lemma watched_rows_spec (w : Window) (i : nat) (x : LogEntry) :
  indexed w ->
  In (i, x) (watched_rows w) <->
  In x (watched_logs w) /\ last_index x (current_logs w) = Some i.
Proof.
  intros Hw. destruct (watched_rows_by_index w Hw) as [g [-> Hg]].
  rewrite <- Hg, in_flat_map. split.
  - intros [j [_ H]]. destruct (g j) as [y|] eqn:E; [|contradiction].
    destruct H as [H|[]]. inversion H; subst. exact E.
  - intros H. exists i. rewrite H. split; [|now left].
    apply in_seq. apply Hg in H. destruct H as [_ H].
    apply IdMapFacts.last_index_nth in H.
    assert (nth_error (current_logs w) i <> None) by congruence.
    apply nth_error_Some in H0. lia.
Qed.

(** X16: the watched panel.  In a window whose id dictionaries are those of
    the entries on display, the panel has one row for each watched entry
    that is on display, under the last index at which the entry is
    displayed, and the rows stand in ascending order of their ids, whatever
    the order in which the entries were checked; watched entries that are
    not on display have no row.  When no entry is displayed twice, the
    panel lists the displayed entries that are watched, in display order. *)
Theorem watched_rows_order (w : Window) :
  indexed w ->
  StronglySorted lt (map fst (watched_rows w))
  /\ (forall i log, In (i, log) (watched_rows w) <->
                    In log (watched_logs w)
                    /\ last_index log (current_logs w) = Some i)
  /\ (forall i log, In (i, log) (watched_rows w) ->
                    nth_error (current_logs w) i = Some log)
  /\ (NoDup (current_logs w) ->
      map snd (watched_rows w)
      = filter (fun log => log_in log (watched_logs w)) (current_logs w)).
Proof.
  intros Hw. split; [|split; [|split]].
  - destruct (watched_rows_by_index w Hw) as [g [-> _]].
    apply WatchedFacts.rows_sorted.
  - intros i log. now apply watched_rows_spec.
  - intros i log H. apply watched_rows_spec in H; [|exact Hw].
    now apply IdMapFacts.last_index_nth.
  - intros Hnd. destruct (watched_rows_by_index w Hw) as [g [-> Hg]].
    pose proof (WatchedFacts.kept_rows (fun log => log_in log (watched_logs w))
                  (current_logs w) 0) as Hk.
    pose proof (WatchedFacts.read_all
                  (fun i x => if log_in x (watched_logs w) then [(i, x)] else [])
                  (current_logs w) []) as Hr.
    cbn [List.length app] in Hr. cbv beta in Hk. rewrite <- Hk, <- Hr.
    f_equal. apply flat_map_ext. intros i.
    destruct (nth_error (current_logs w) i) as [x|] eqn:E.
    + destruct (log_in x (watched_logs w)) eqn:Hin.
      * apply EntryFacts.log_in_In in Hin.
        assert (g i = Some x) as ->; [|reflexivity].
        apply Hg. split; [exact Hin|]. now apply IdMapFacts.last_index_NoDup.
      * apply EntryFacts.log_in_not_In in Hin.
        destruct (g i) as [y|] eqn:Ey; [|reflexivity].
        apply Hg in Ey. destruct Ey as [Hy Hi].
        apply IdMapFacts.last_index_nth in Hi. congruence.
    + destruct (g i) as [y|] eqn:Ey; [|reflexivity].
      apply Hg in Ey. destruct Ey as [_ Hi].
      apply IdMapFacts.last_index_nth in Hi. congruence.
Qed.

Lemma watched_rows_order_witness :
  map snd (watched_rows one_watched_window) = [untimed_entry].
Proof.
  destruct (watched_rows_order one_watched_window) as [_ [_ [_ H]]].
  - split; vm_compute; reflexivity.
  - apply H. repeat constructor; simpl; [intros [E|[]]; discriminate E|intros []].
Defined.

Lemma log_in_ext (x : LogEntry) (l l' : list LogEntry) :
  (In x l <-> In x l') -> log_in x l = log_in x l'.
Proof.
  intros H. destruct (log_in x l) eqn:E, (log_in x l') eqn:E'; try reflexivity.
  - apply EntryFacts.log_in_In in E. apply EntryFacts.log_in_not_In in E'. tauto.
  - apply EntryFacts.log_in_In in E'. apply EntryFacts.log_in_not_In in E. tauto.
Qed.

(** X17: deleting a row of the watched panel.  In a window whose id
    dictionaries are those of the entries on display, deleting the row of
    an entry takes that entry, and no other, out of the watched list; the
    panel loses that row and keeps every other; a watched list without
    repetition stays so; the entries on display stay as they are.  When
    no entry is displayed twice, the check marks of the page agree with the
    watched list afterwards if they did before. *)
Theorem delete_watched_item_row (w : Window) (log_id : nat) (log : LogEntry) :
  indexed w ->
  In (log_id, log) (watched_rows w) ->
  let w' := delete_watched_item w log_id in
  (forall x, In x (watched_logs w') <-> In x (watched_logs w) /\ x <> log)
  /\ (forall i x, In (i, x) (watched_rows w') <->
                  In (i, x) (watched_rows w) /\ i <> log_id)
  /\ (NoDup (watched_logs w) -> NoDup (watched_logs w'))
  /\ indexed w'
  /\ current_logs w' = current_logs w
  /\ (NoDup (current_logs w) -> marks_agree w -> marks_agree w').
Proof.
  intros Hw Hrow w'.
  assert (Hw' : indexed w') by exact Hw.
  apply (watched_rows_spec w log_id log Hw) in Hrow. destruct Hrow as [Hin Hlast].
  pose proof (IdMapFacts.last_index_nth _ _ _ Hlast) as Hnth.
  assert (Hwatched : forall x, In x (watched_logs w') <-> In x (watched_logs w) /\ x <> log).
  { intros x. subst w'. unfold delete_watched_item. cbn [watched_logs].
    rewrite filter_In. destruct Hw as [_ ->].
    rewrite IdMapFacts.entry_to_id_map_lookup, negb_true_iff.
    rewrite <- not_true_iff_false, EntryFacts.option_nat_eqb_eq.
    split; intros [Hx Hne]; (split; [exact Hx|]).
    - intros ->. contradiction.
    - intros E. apply IdMapFacts.last_index_nth in E. congruence. }
  split; [exact Hwatched|].
  split.
  { intros i x. rewrite (watched_rows_spec w' i x Hw'), (watched_rows_spec w i x Hw).
    rewrite Hwatched. change (current_logs w') with (current_logs w).
    split.
    - intros [[Hx Hne] Hi]. split; [now split|].
      intros ->. apply IdMapFacts.last_index_nth in Hi. congruence.
    - intros [[Hx Hi] Hne]. split; [split; [exact Hx|]|exact Hi].
      intros ->. congruence. }
  split; [intros Hnd; apply NoDup_filter; exact Hnd|].
  split; [exact Hw'|]. split; [reflexivity|].
  intros Hnd Hmarks it' Hit'.
  change (log_display w')
    with (map (fun it => if Nat.eqb (item_id it) log_id
                         then mkItem (item_id it) (item_log it) false (item_spans it)
                         else it) (log_display w)) in Hit'.
  apply in_map_iff in Hit'. destruct Hit' as [it [<- Hit]].
  destruct (Hmarks it Hit) as [Hrow Hmark].
  change (current_logs w') with (current_logs w).
  destruct (Nat.eqb (item_id it) log_id) eqn:E.
  - apply Nat.eqb_eq in E. cbn [item_id item_log item_checked].
    split; [exact Hrow|]. symmetry. apply EntryFacts.log_in_not_In.
    rewrite Hwatched. intros [_ Hne]. apply Hne. congruence.
  - apply Nat.eqb_neq in E. split; [exact Hrow|]. rewrite Hmark.
    apply log_in_ext. rewrite Hwatched. split; [|tauto].
    intros Hx. split; [exact Hx|]. intros Heq. apply E.
    rewrite Heq in Hrow.
    apply (IdMapFacts.last_index_NoDup _ _ Hnd) in Hrow. congruence.
Qed.

Lemma delete_watched_item_row_witness :
  ~ In untimed_entry (watched_logs (delete_watched_item one_watched_window 1)).
Proof.
  assert (Hw : indexed one_watched_window) by (split; vm_compute; reflexivity).
  assert (Hrow : In (1%nat, untimed_entry) (watched_rows one_watched_window))
    by (vm_compute; left; reflexivity).
  intros Hin.
  apply (proj1 (delete_watched_item_row one_watched_window 1 untimed_entry Hw Hrow))
    in Hin.
  destruct Hin as [_ Hne]. now apply Hne.
Defined.

(* ================================================================== *)
(** ** The search box: the keywords of [process_files] *)

Module SplitFacts.

Lemma split_lf_cons (s : string) : exists piece pieces, split_lf s = piece :: pieces.
Proof.
  induction s as [|c r [piece [pieces IH]]]; simpl; [now eexists; eexists|].
  destruct (Ascii.eqb c PyStr.LF); [now eexists; eexists|].
  rewrite IH. now eexists; eexists.
Qed.

Lemma concat_cons (sep x y : string) (l : list string) :
  String.concat sep (x :: y :: l) = (x ++ sep ++ String.concat sep (y :: l))%string.
Proof. reflexivity. Qed.

Lemma join_split_lf (s : string) : PyStr.join (String PyStr.LF "") (split_lf s) = s.
Proof.
  unfold PyStr.join. induction s as [|c r IH]; [reflexivity|].
  destruct (split_lf_cons r) as [piece [pieces Hr]].
  cbn [split_lf]. destruct (Ascii.eqb c PyStr.LF) eqn:E.
  - apply Ascii.eqb_eq in E. subst c.
    rewrite Hr, concat_cons, <- Hr, IH. reflexivity.
  - rewrite Hr. rewrite Hr in IH. destruct pieces as [|p ps].
    + cbn [String.concat] in *. now rewrite IH.
    + rewrite concat_cons in *. rewrite <- IH. reflexivity.
Qed.

Lemma split_lf_no_lf (s : string) : Forall (fun piece => no_lf piece = true) (split_lf s).
Proof.
  induction s as [|c r IH]; simpl; [now repeat constructor|].
  destruct (Ascii.eqb c PyStr.LF) eqn:E; [now constructor|].
  destruct (split_lf r) as [|piece pieces].
  - repeat constructor. simpl. now rewrite E.
  - inversion IH as [|? ? Hp Hps]; subst. constructor; [|exact Hps].
    simpl. now rewrite E, Hp.
Qed.

Lemma lstrip_no_lf (s : string) : no_lf s = true -> no_lf (PyStr.lstrip s) = true.
Proof.
  induction s as [|c r IH]; [reflexivity|]. intros H. simpl.
  destruct (PyStr.isspace c); [|exact H].
  simpl in H. apply andb_true_iff in H. now apply IH.
Qed.

Lemma rstrip_no_lf (s : string) : no_lf s = true -> no_lf (PyStr.rstrip s) = true.
Proof.
  induction s as [|c r IH]; [reflexivity|]. intros H. simpl in *.
  apply andb_true_iff in H. destruct H as [Hc Hr].
  destruct (PyStr.isspace c && PyStr.is_empty (PyStr.rstrip r))%bool; [reflexivity|].
  simpl. now rewrite Hc, IH.
Qed.

Lemma strip_no_lf (s : string) : no_lf s = true -> no_lf (PyStr.strip s) = true.
Proof. intros H. now apply rstrip_no_lf, lstrip_no_lf. Qed.

Lemma trimmed_fixed (keywords : list string) :
  Forall (fun kw => kw <> "" /\ PyStr.strip kw = kw) keywords ->
  trimmed keywords = keywords.
Proof.
  unfold trimmed. induction 1 as [|kw l [Hne Hs] _ IH]; [reflexivity|].
  simpl. rewrite Hs. destruct kw as [|c r]; [contradiction|].
  simpl. rewrite Hs. now f_equal.
Qed.

End SplitFacts.

Lemma search_keywords_trimmed (text : string) :
  Forall (fun kw => kw <> "" /\ PyStr.strip kw = kw) (search_keywords text).
Proof.
  unfold search_keywords. apply Forall_forall. intros kw Hin.
  apply in_map_iff in Hin. destruct Hin as [line [<- Hline]].
  apply filter_In in Hline. destruct Hline as [_ Hne]. split.
  - intros E. rewrite E in Hne. discriminate.
  - apply StripFacts.strip_idempotent.
Qed.

(** X18: the keywords read from the search box.  The lines of the box,
    joined by line feeds, give back its text; every keyword is one of these
    lines with the white space at its ends removed, so it is non-empty,
    trimmed and without a line feed, blank lines giving no keyword; and the
    clean-up that the keyword filter applies to its keywords leaves the
    list as it is. *)
Theorem search_keywords_lines (text : string) :
  PyStr.join (String PyStr.LF "") (split_lf text) = text
  /\ Forall (fun kw => kw <> "" /\ PyStr.strip kw = kw /\ no_lf kw = true
                       /\ exists line, In line (split_lf text) /\ kw = PyStr.strip line)
            (search_keywords text)
  /\ (forall line, In line (split_lf text) -> PyStr.strip line <> "" ->
                   In (PyStr.strip line) (search_keywords text))
  /\ trimmed (search_keywords text) = search_keywords text.
Proof.
  split; [apply SplitFacts.join_split_lf|].
  split; [|split].
  - pose proof (search_keywords_trimmed text) as Ht.
    rewrite Forall_forall in *. intros kw Hin.
    destruct (Ht kw Hin) as [Hne Hs]. split; [exact Hne|]. split; [exact Hs|].
    unfold search_keywords in Hin. apply in_map_iff in Hin.
    destruct Hin as [line [<- Hline]]. apply filter_In in Hline.
    destruct Hline as [Hline _]. split; [|now exists line].
    apply SplitFacts.strip_no_lf.
    pose proof (SplitFacts.split_lf_no_lf text) as Hno.
    rewrite Forall_forall in Hno. now apply Hno.
  - intros line Hin Hne. unfold search_keywords. apply in_map, filter_In.
    split; [exact Hin|]. now destruct (PyStr.strip line).
  - apply SplitFacts.trimmed_fixed, search_keywords_trimmed.
Qed.

Lemma search_keywords_lines_witness :
  In "err" (search_keywords (" err " ++ nl ++ nl ++ "warn")%string).
Proof.
  destruct (search_keywords_lines (" err " ++ nl ++ nl ++ "warn")%string)
    as [_ [_ [H _]]].
  apply (H " err ").
  - vm_compute. left. reflexivity.
  - vm_compute. discriminate.
Defined.

(* ================================================================== *)
(** ** The exports *)

Module IdSortFacts.

Section Rows.

Context {A : Type}.

Lemma insert_by_id_perm (x : nat * A) (l : list (nat * A)) :
  Permutation (insert_by_id x l) (x :: l).
Proof.
  induction l as [|y l IH]; simpl; [reflexivity|].
  destruct (Nat.ltb (fst y) (fst x)); [|reflexivity].
  rewrite IH. apply perm_swap.
Qed.

Lemma sort_by_id_perm (l : list (nat * A)) : Permutation (sort_by_id l) l.
Proof.
  induction l as [|x l IH]; simpl; [reflexivity|].
  rewrite insert_by_id_perm. now constructor.
Qed.

Lemma insert_by_id_sorted (x : nat * A) (l : list (nat * A)) :
  StronglySorted id_le l -> StronglySorted id_le (insert_by_id x l).
Proof.
  induction 1 as [|y l Hs IH Hall]; simpl.
  - repeat constructor.
  - destruct (Nat.ltb (fst y) (fst x)) eqn:E.
    + apply Nat.ltb_lt in E. constructor; [exact IH|].
      apply Forall_forall. intros z Hz.
      apply (Permutation_in _ (insert_by_id_perm x l)) in Hz.
      destruct Hz as [<-|Hz].
      * unfold id_le. lia.
      * rewrite Forall_forall in Hall. now apply Hall.
    + apply Nat.ltb_ge in E. constructor; [now constructor|].
      constructor; [exact E|].
      apply Forall_forall. intros z Hz.
      rewrite Forall_forall in Hall. specialize (Hall z Hz).
      unfold id_le in *. lia.
Qed.

Lemma sort_by_id_sorted (l : list (nat * A)) : StronglySorted id_le (sort_by_id l).
Proof.
  induction l as [|x l IH]; simpl; [constructor|].
  now apply insert_by_id_sorted.
Qed.

(** Rows in ascending order of ids, none repeated, are in strict order. *)
Lemma sorted_strict (l : list (nat * A)) :
  StronglySorted id_le l -> NoDup (map fst l) -> StronglySorted id_lt l.
Proof.
  induction 1 as [|x l Hs IH Hall]; intros Hnd; [constructor|].
  simpl in Hnd. inversion Hnd as [|? ? Hx Hnd']; subst.
  constructor; [now apply IH|].
  rewrite Forall_forall in *. intros y Hy. specialize (Hall y Hy).
  unfold id_le, id_lt in *.
  assert (fst x <> fst y); [|lia].
  intros E. apply Hx. rewrite E. now apply in_map.
Qed.

(** Two lists of rows in strict order with the same rows are equal. *)
Lemma strict_ext (l : list (nat * A)) :
  forall l',
    StronglySorted id_lt l -> StronglySorted id_lt l' ->
    (forall r, In r l <-> In r l') -> l = l'.
Proof.
  induction l as [|a l IH]; intros l' Hs Hs' Hmem.
  - destruct l' as [|b l']; [reflexivity|].
    destruct (proj2 (Hmem b)). now left.
  - destruct l' as [|b l']; [destruct (proj1 (Hmem a)); now left|].
    inversion Hs as [|? ? Hl Ha]; subst. inversion Hs' as [|? ? Hl' Hb]; subst.
    rewrite Forall_forall in Ha, Hb.
    assert (a = b) as <-.
    { destruct (proj1 (Hmem a)) as [E|Hin]; [now left|now symmetry|].
      destruct (proj2 (Hmem b)) as [E|Hin']; [now left|exact E|].
      specialize (Ha _ Hin'). specialize (Hb _ Hin). unfold id_lt in *. lia. }
    f_equal. apply IH; [exact Hl|exact Hl'|].
    intros r. split; intros Hr.
    + destruct (proj1 (Hmem r)) as [E|Hin]; [now right| |exact Hin].
      subst r. specialize (Ha _ Hr). unfold id_lt in Ha. lia.
    + destruct (proj2 (Hmem r)) as [E|Hin]; [now right| |exact Hin].
      subst r. specialize (Hb _ Hr). unfold id_lt in Hb. lia.
Qed.

Lemma enumerate_In (l : list A) (i : nat) (x : A) :
  forall start,
    In (i, x) (combine (seq start (List.length l)) l) <->
    (start <= i)%nat /\ nth_error l (i - start) = Some x.
Proof.
  induction l as [|y l IH]; intros start.
  - simpl. split; [intros []|]. intros [_ H]. now destruct (i - start)%nat.
  - cbn [List.length seq combine In]. rewrite IH. split.
    + intros [E|[Hle Hn]].
      * inversion E; subst. rewrite Nat.sub_diag. now split.
      * split; [lia|]. replace (i - start)%nat with (S (i - S start)) by lia. exact Hn.
    + intros [Hle Hn]. destruct (Nat.eq_dec start i) as [->|Hne].
      * rewrite Nat.sub_diag in Hn. inversion Hn. now left.
      * right. split; [lia|].
        replace (i - start)%nat with (S (i - S start)) in Hn by lia. exact Hn.
Qed.

Lemma enumerate_strict (l : list A) :
  forall start, StronglySorted id_lt (combine (seq start (List.length l)) l).
Proof.
  induction l as [|y l IH]; intros start; [constructor|].
  cbn [List.length seq combine]. constructor; [apply IH|].
  apply Forall_forall. intros [i x] Hin. apply enumerate_In in Hin.
  unfold id_lt. simpl. lia.
Qed.

End Rows.

End IdSortFacts.

Section ExportFacts.

Variable w : Window.
Hypothesis Hw : indexed w.

Lemma logs_with_id_In (logs : list LogEntry) (i : nat) (x : LogEntry) :
  In (i, x) (logs_with_id w logs) <->
  In x logs /\ last_index x (current_logs w) = Some i.
Proof.
  unfold logs_with_id.
  split.
  - intros H. apply (Permutation_in _ (IdSortFacts.sort_by_id_perm _)) in H.
    apply in_flat_map in H. destruct H as [y [Hy H]].
    destruct Hw as [_ Hentries]. rewrite Hentries in H.
    rewrite IdMapFacts.entry_to_id_map_lookup in H.
    destruct (last_index y (current_logs w)) as [j|] eqn:E; [|contradiction].
    destruct H as [H|[]]. inversion H; subst. now split.
  - intros [Hx Hi].
    apply (Permutation_in _ (Permutation_sym (IdSortFacts.sort_by_id_perm _))).
    apply in_flat_map. exists x. split; [exact Hx|].
    destruct Hw as [_ Hentries]. rewrite Hentries.
    rewrite IdMapFacts.entry_to_id_map_lookup, Hi. now left.
Qed.

Lemma logs_with_id_strict (logs : list LogEntry) :
  NoDup logs -> StronglySorted id_lt (logs_with_id w logs).
Proof.
  intros Hnd. apply IdSortFacts.sorted_strict; [apply IdSortFacts.sort_by_id_sorted|].
  unfold logs_with_id.
  eapply Permutation_NoDup.
  { apply Permutation_map, Permutation_sym, IdSortFacts.sort_by_id_perm. }
  destruct Hw as [_ Hentries]. rewrite Hentries.
  induction Hnd as [|x l Hx Hnd IH]; [constructor|].
  cbn [flat_map]. rewrite IdMapFacts.entry_to_id_map_lookup.
  destruct (last_index x (current_logs w)) as [i|] eqn:E; [|exact IH].
  cbn [app map fst]. constructor; [|exact IH].
  intros Hin. apply in_map_iff in Hin. destruct Hin as [[j y] [Hj Hy]].
  simpl in Hj. subst j. apply in_flat_map in Hy. destruct Hy as [z [Hz Hy]].
  rewrite IdMapFacts.entry_to_id_map_lookup in Hy.
  destruct (last_index z (current_logs w)) as [k|] eqn:Ez; [|contradiction].
  destruct Hy as [Hy|[]]. inversion Hy; subst.
  apply IdMapFacts.last_index_nth in E, Ez. congruence.
Qed.

Lemma logs_with_id_displayed :
  map snd (flat_map (fun log =>
                       match dict_lookup LogEntry_eqb log (entry_to_id_map w) with
                       | Some log_id => [(log_id, log)]
                       | None => []
                       end) (current_logs w))
  = current_logs w.
Proof.
  destruct Hw as [_ Hentries]. rewrite Hentries.
  assert (H : forall l, incl l (current_logs w) ->
              map snd (flat_map (fun log =>
                         match dict_lookup LogEntry_eqb log
                                 (snd (id_maps (current_logs w))) with
                         | Some log_id => [(log_id, log)]
                         | None => []
                         end) l) = l).
  { induction l as [|x l IH]; intros Hincl; [reflexivity|].
    cbn [flat_map]. rewrite map_app, IH by (intros y Hy; apply Hincl; now right).
    rewrite IdMapFacts.entry_to_id_map_lookup.
    destruct (last_index x (current_logs w)) eqn:E; [reflexivity|].
    apply IdMapFacts.last_index_None in E. destruct E. apply Hincl. now left. }
  apply H, incl_refl.
Qed.

End ExportFacts.

(** X19: the export of the watched entries.  In a window whose id
    dictionaries are those of the entries on display and whose watched list
    has no repetition, the rows that [export_logs] writes are the rows of
    the watched panel, in the order of the panel: the watched entries on
    display in ascending order of their ids, whatever the order in which
    they were checked.  Each row is written as its content followed by two
    line feeds, after the line with the last segment of its source path
    when the source box is checked; with no path chosen nothing is
    written. *)
Theorem export_logs_panel_order (w : Window) (file_path : string)
  (source_checked : bool) :
  indexed w ->
  NoDup (watched_logs w) ->
  logs_with_id w (watched_logs w) = watched_rows w
  /\ (file_path <> "" ->
      export_logs w file_path source_checked
      = export_writes (watched_rows w) source_checked)
  /\ export_logs w "" source_checked = [].
Proof.
  intros Hw Hnd.
  assert (Hrows : logs_with_id w (watched_logs w) = watched_rows w).
  { apply IdSortFacts.strict_ext.
    - now apply logs_with_id_strict.
    - destruct (watched_rows_by_index w Hw) as [g [-> _]].
      clear. generalize 0%nat as start.
      induction (List.length (current_logs w)) as [|n IH]; intros start; [constructor|].
      cbn [seq flat_map]. destruct (g start) as [x|]; [|apply IH].
      cbn [app]. constructor; [apply IH|].
      apply Forall_forall. intros [i y] Hin. apply in_flat_map in Hin.
      destruct Hin as [j [Hj Hin]]. apply in_seq in Hj.
      destruct (g j); [|contradiction]. destruct Hin as [Hin|[]].
      inversion Hin; subst. unfold id_lt. simpl. lia.
    - intros [i x]. rewrite (logs_with_id_In w Hw), (watched_rows_spec w i x Hw).
      reflexivity. }
  split; [exact Hrows|]. split.
  - intros Hpath. unfold export_logs.
    destruct file_path; [contradiction|]. cbn [PyStr.is_empty]. rewrite Hrows.
    destruct (is_nil (watched_logs w)) eqn:E; [|reflexivity].
    rewrite <- Hrows. destruct (watched_logs w); [reflexivity|discriminate].
  - unfold export_logs. now destruct (is_nil (watched_logs w)).
Qed.

Lemma export_logs_panel_order_witness :
  export_logs one_watched_window "out.txt" true
  = export_writes (watched_rows one_watched_window) true.
Proof.
  destruct (export_logs_panel_order one_watched_window "out.txt" true) as [_ [H _]].
  - split; vm_compute; reflexivity.
  - vm_compute. repeat constructor. intros [].
  - apply H. discriminate.
Defined.

(** X20: the export of the display.  In a window whose id dictionaries are
    those of the entries on display, [export_displayed_logs] writes every
    displayed entry, once for each time it is displayed, in ascending order
    of ids; when no entry is displayed twice it writes them in display
    order.  An entry that is displayed more than once has the id of its
    last position, so its copies are written together at that position. *)
Theorem export_displayed_logs_order (w : Window) (file_path : string)
  (source_checked : bool) :
  indexed w ->
  Permutation (map snd (logs_with_id w (current_logs w))) (current_logs w)
  /\ StronglySorted id_le (logs_with_id w (current_logs w))
  /\ (forall i log, In (i, log) (logs_with_id w (current_logs w)) <->
                    last_index log (current_logs w) = Some i)
  /\ (NoDup (current_logs w) ->
      logs_with_id w (current_logs w) = enumerate (current_logs w))
  /\ (NoDup (current_logs w) -> file_path <> "" ->
      export_displayed_logs w file_path source_checked
      = export_writes (enumerate (current_logs w)) source_checked).
Proof.
  intros Hw.
  assert (Hrows : NoDup (current_logs w) ->
                  logs_with_id w (current_logs w) = enumerate (current_logs w)).
  { intros Hnd. apply IdSortFacts.strict_ext.
    - now apply logs_with_id_strict.
    - apply IdSortFacts.enumerate_strict.
    - intros [i x]. rewrite (logs_with_id_In w Hw). unfold enumerate.
      rewrite IdSortFacts.enumerate_In, Nat.sub_0_r. split.
      + intros [_ H]. split; [lia|]. now apply IdMapFacts.last_index_nth.
      + intros [_ H]. split; [now apply nth_error_In in H|].
        now apply IdMapFacts.last_index_NoDup. }
  split.
  { unfold logs_with_id.
    rewrite (Permutation_map snd (IdSortFacts.sort_by_id_perm _)).
    now rewrite logs_with_id_displayed. }
  split; [apply IdSortFacts.sort_by_id_sorted|].
  split.
  { intros i log. rewrite (logs_with_id_In w Hw). split; [tauto|].
    intros H. split; [|exact H].
    apply IdMapFacts.last_index_nth in H. now apply nth_error_In in H. }
  split; [exact Hrows|].
  intros Hnd Hpath. unfold export_displayed_logs.
  destruct file_path; [contradiction|]. cbn [PyStr.is_empty].
  rewrite (Hrows Hnd).
  destruct (is_nil (current_logs w)) eqn:E; [|reflexivity].
  destruct (current_logs w); [reflexivity|discriminate].
Qed.

Lemma export_displayed_logs_order_witness :
  map snd (logs_with_id two_entry_window (current_logs two_entry_window))
  = [epoch_entry; untimed_entry].
Proof.
  destruct (export_displayed_logs_order two_entry_window "out.txt" false)
    as [_ [_ [_ [H _]]]].
  - split; vm_compute; reflexivity.
  - rewrite H; [reflexivity|].
    vm_compute. repeat constructor; simpl; [intros [E|[]]; discriminate E|intros []].
Defined.

(* ================================================================== *)
(** ** Loading files: [handle_file_upload] *)

Module UploadFacts.

Lemma read_all_aligned (fs : string -> option (list byte)) (new_files : list string) :
  Forall (fun f => fs f <> None) new_files ->
  combine (flat_map (fun file_path =>
                       match fs file_path with
                       | Some content => [BytesIO_open content]
                       | None => []
                       end) new_files) new_files
  = flat_map (fun file_path =>
                match fs file_path with
                | Some content => [(BytesIO_open content, file_path)]
                | None => []
                end) new_files
  /\ List.length (flat_map (fun file_path =>
                              match fs file_path with
                              | Some content => [BytesIO_open content]
                              | None => []
                              end) new_files)
     = List.length new_files.
Proof.
  induction 1 as [|f l Hf _ [IH1 IH2]]; [now split|].
  cbn [flat_map]. destruct (fs f); [|contradiction].
  cbn [app combine List.length]. now rewrite IH1, IH2.
Qed.

Lemma read_count (fs : string -> option (list byte)) (l : list string) :
  (List.length (flat_map (fun file_path =>
                            match fs file_path with
                            | Some content => [BytesIO_open content]
                            | None => []
                            end) l)
   + List.length (filter (fun f => match fs f with Some _ => false | None => true end) l)
   = List.length l)%nat.
Proof.
  induction l as [|f l IH]; [reflexivity|].
  cbn [flat_map filter]. destruct (fs f); cbn [app List.length]; lia.
Qed.

Lemma filter_filter {A : Type} (p q : A -> bool) (l : list A) :
  filter q (filter p l) = filter (fun x => (p x && q x)%bool) l.
Proof.
  induction l as [|x l IH]; [reflexivity|].
  simpl. destruct (p x); simpl; [destruct (q x)|]; now rewrite IH.
Qed.

Lemma combine_app {A B : Type} (a b : list A) (c d : list B) :
  List.length a = List.length c ->
  combine (a ++ b) (c ++ d) = combine a c ++ combine b d.
Proof.
  revert c. induction a as [|x a IH]; intros [|y c] H; simpl in *; try discriminate.
  - reflexivity.
  - f_equal. apply IH. now inversion H.
Qed.

End UploadFacts.

(** X21: loading files.  With no path chosen nothing changes.  Otherwise
    the paths that are not in the list yet are appended to the names in the
    order given, the names and streams that were there keep their places,
    the watched entries are dropped and the analysis is marked as not
    started, the display staying as it was.  A stream is appended for each
    new path that can be read, so the names outnumber the streams by the
    unreadable new paths: when the lists had the same length and every new
    path is readable, each new name stands beside the stream of its own
    content and the lists have the same length again; a list of names
    without repetition stays so when the chosen paths have none. *)
Theorem handle_file_upload_aligned (fs : string -> option (list byte))
  (w : Window) (files : list string) :
  files <> [] ->
  let w' := handle_file_upload fs w files in
  let new_files := filter (fun f => negb (str_in f (file_names w))) files in
  file_names w' = file_names w ++ new_files
  /\ (forall f, In f (file_names w') <-> In f (file_names w) \/ In f files)
  /\ firstn (List.length (uploaded_files w)) (uploaded_files w') = uploaded_files w
  /\ (List.length (uploaded_files w') + List.length (unreadable fs w files)
      = List.length (uploaded_files w) + List.length new_files)%nat
  /\ (List.length (uploaded_files w) = List.length (file_names w) ->
      unreadable fs w files = [] ->
      List.length (uploaded_files w') = List.length (file_names w')
      /\ combine (uploaded_files w') (file_names w')
         = combine (uploaded_files w) (file_names w)
           ++ flat_map (fun f => match fs f with
                                 | Some content => [(BytesIO_open content, f)]
                                 | None => []
                                 end) new_files)
  /\ (NoDup (file_names w) -> NoDup files -> NoDup (file_names w'))
  /\ watched_logs w' = []
  /\ analysis_started w' = false
  /\ current_logs w' = current_logs w.
Proof.
  intros Hfiles w' new_files. subst w'. unfold handle_file_upload.
  assert (is_nil files = false) as -> by now destruct files.
  fold new_files.
  cbn [file_names uploaded_files watched_logs analysis_started current_logs].
  split; [reflexivity|].
  split.
  { intros f. rewrite in_app_iff. subst new_files. rewrite filter_In, negb_true_iff.
    rewrite <- not_true_iff_false, RemovalFacts.str_in_In.
    destruct (in_dec string_dec f (file_names w)); tauto. }
  split.
  { rewrite firstn_app, Nat.sub_diag, firstn_all. cbn [firstn]. apply app_nil_r. }
  assert (Hun : unreadable fs w files
                = filter (fun f => match fs f with Some _ => false | None => true end)
                         new_files).
  { subst new_files. unfold unreadable. now rewrite UploadFacts.filter_filter. }
  split.
  { rewrite length_app, Hun. pose proof (UploadFacts.read_count fs new_files). lia. }
  split.
  { intros Hlen Hnone. rewrite Hun in Hnone.
    assert (Hall : Forall (fun f => fs f <> None) new_files).
    { apply Forall_forall. intros f Hf E.
      assert (Hin : In f (filter (fun f => match fs f with
                                           | Some _ => false
                                           | None => true
                                           end) new_files)).
      { apply filter_In. split; [exact Hf|]. now rewrite E. }
      rewrite Hnone in Hin. destruct Hin. }
    destruct (UploadFacts.read_all_aligned fs new_files Hall) as [Hc Hl].
    split; [rewrite !length_app; lia|].
    rewrite UploadFacts.combine_app by exact Hlen. now rewrite Hc. }
  split; [|repeat split].
  intros Hnd Hnd'. apply NoDup_app.
  - exact Hnd.
  - subst new_files. now apply NoDup_filter.
  - intros f Hf Hnew. subst new_files. apply filter_In in Hnew.
    destruct Hnew as [_ Hnew]. apply negb_true_iff in Hnew.
    apply not_true_iff_false in Hnew. apply Hnew. now apply RemovalFacts.str_in_In.
Qed.

Lemma handle_file_upload_aligned_witness :
  (List.length (uploaded_files (handle_file_upload faulty_disk empty_window
                                  ["bad.log"; "a.log"]))
   + List.length (unreadable faulty_disk empty_window ["bad.log"; "a.log"])
   = List.length (uploaded_files empty_window)
     + List.length (filter (fun f => negb (str_in f (file_names empty_window)))
                           ["bad.log"; "a.log"]))%nat.
Proof.
  destruct (handle_file_upload_aligned faulty_disk empty_window ["bad.log"; "a.log"])
    as [_ [_ [_ [H _]]]].
  - discriminate.
  - exact H.
Defined.

(* ================================================================== *)
(** ** The text that [paint] draws *)

Module SliceFacts.

Lemma drop_all (n : nat) : forall s, (String.length s <= n)%nat -> PyStr.drop n s = "".
Proof.
  induction n as [|n IH]; intros [|c s] H; simpl in *; try reflexivity; try lia.
  apply IH. lia.
Qed.

Lemma length_take (n : nat) :
  forall s, String.length (PyStr.take n s) = Nat.min n (String.length s).
Proof. induction n as [|n IH]; intros [|c s]; simpl; auto. Qed.

Lemma take_all (n : nat) : forall s, (String.length s <= n)%nat -> PyStr.take n s = s.
Proof.
  induction n as [|n IH]; intros [|c s] H; simpl in *; try reflexivity; try lia.
  rewrite IH; [reflexivity|lia].
Qed.

Lemma take_take (m n : nat) :
  forall s, (m <= n)%nat -> PyStr.take m (PyStr.take n s) = PyStr.take m s.
Proof.
  revert n. induction m as [|m IH]; intros n s H; [now destruct (PyStr.take n s)|].
  destruct n as [|n]; [lia|]. destruct s as [|c s]; [reflexivity|].
  simpl. rewrite IH; [reflexivity|lia].
Qed.

Lemma drop_take (a n : nat) :
  forall s, PyStr.drop a (PyStr.take n s) = PyStr.take (n - a) (PyStr.drop a s).
Proof.
  revert n. induction a as [|a IH]; intros n s.
  - rewrite Nat.sub_0_r. reflexivity.
  - destruct n as [|n]; destruct s as [|c s]; simpl; try reflexivity;
      try apply IH; try (now destruct (PyStr.drop a s)); now destruct (n - a)%nat.
Qed.

Lemma slice_length (a b : nat) (s : string) :
  (b <= String.length s)%nat -> String.length (slice a b s) = (b - a)%nat.
Proof.
  intros H. unfold slice. rewrite length_take, FindFacts.length_drop. lia.
Qed.

(** A piece and what follows it. *)
Lemma slice_drop (a b : nat) (s : string) :
  (a <= b)%nat -> (slice a b s ++ PyStr.drop b s)%string = PyStr.drop a s.
Proof.
  intros H. unfold slice.
  replace (PyStr.drop b s) with (PyStr.drop (b - a) (PyStr.drop a s)).
  - apply TakeDropFacts.take_drop.
  - rewrite FindFacts.drop_drop. f_equal. lia.
Qed.

(** A piece of a piece. *)
Lemma slice_slice (o n a b : nat) (s : string) :
  (a <= b)%nat -> (b <= n)%nat ->
  slice a b (slice o (o + n) s) = slice (o + a) (o + b) s.
Proof.
  intros Hab Hbn. unfold slice.
  replace (o + n - o)%nat with n by lia.
  replace (o + b - (o + a))%nat with (b - a)%nat by lia.
  rewrite drop_take, FindFacts.drop_drop, take_take by lia. reflexivity.
Qed.

Lemma is_empty_length (s : string) :
  PyStr.is_empty s = false <-> (1 <= String.length s)%nat.
Proof. destruct s; simpl; split; try discriminate; try lia; reflexivity. Qed.

End SliceFacts.

Module PaintFacts.

Lemma drawn_cons (b : bool) (t : string) (pieces : list (bool * string)) :
  drawn ((b, t) :: pieces) = (t ++ drawn pieces)%string.
Proof.
  unfold drawn. cbn [map snd]. destruct (map snd pieces) as [|x l]; simpl.
  - induction t as [|c t IH]; simpl; [reflexivity|now rewrite <- IH].
  - reflexivity.
Qed.

Lemma drawn_app (p q : list (bool * string)) :
  drawn (p ++ q) = (drawn p ++ drawn q)%string.
Proof.
  induction p as [|[b t] p IH]; [reflexivity|].
  cbn [app]. rewrite !drawn_cons, IH.
  clear. induction t as [|c t IH]; simpl; [reflexivity|now rewrite IH].
Qed.

Lemma drawn_optional (b : bool) (t : string) :
  drawn (if PyStr.is_empty t then [] else [(b, t)]) = t.
Proof. now destruct t. Qed.

(** The pieces drawn from [cursor] on give the line from [cursor] on when
    no highlight begins before [cursor] or before the end of another. *)
Lemma paint_spans_drawn (line : string) (line_start : nat) :
  forall line_highlights cursor,
    apart line_highlights ->
    Forall (fun x => (line_start + cursor <= fst x)%nat) line_highlights ->
    drawn (paint_spans line line_start cursor line_highlights)
    = PyStr.drop cursor line.
Proof.
  induction line_highlights as [|[s e] rest IH]; intros cursor [Hs Hpos] Hfrom.
  - cbn [paint_spans]. destruct (Nat.ltb cursor (String.length line)) eqn:E.
    + rewrite drawn_cons. unfold drawn. simpl.
      clear. induction (PyStr.drop cursor line) as [|c t IH]; simpl;
        [reflexivity|now rewrite IH].
    + apply Nat.ltb_ge in E. now rewrite SliceFacts.drop_all.
  - cbn [paint_spans]. rewrite !drawn_app, !drawn_optional.
    inversion Hs as [|? ? Hs' Hall]; subst.
    inversion Hpos as [|? ? Hse Hpos']; subst.
    inversion Hfrom as [|? ? Hc _]; subst. simpl in Hse, Hc.
    rewrite IH.
    + rewrite SliceFacts.slice_drop by lia. apply SliceFacts.slice_drop. lia.
    + now split.
    + eapply Forall_impl; [|exact Hall]. intros x Hx. simpl in Hx. lia.
Qed.

Lemma apart_filter (keep : nat * nat -> bool) (spans : list (nat * nat)) :
  apart spans -> apart (filter keep spans).
Proof.
  intros [Hs Hpos]. split.
  - now apply filter_sorted.
  - rewrite Forall_forall in *. intros x Hx. apply filter_In in Hx. now apply Hpos.
Qed.

Lemma paint_line_drawn (lines : list string) (highlight_data : list (nat * nat))
  (line_idx : nat) (line : string) :
  apart highlight_data ->
  drawn (paint_line lines highlight_data line_idx line) = line.
Proof.
  intros Hap. unfold paint_line. destruct (is_nil highlight_data).
  - rewrite drawn_cons. unfold drawn. simpl.
    clear. induction line as [|c t IH]; simpl; [reflexivity|now rewrite IH].
  - rewrite paint_spans_drawn.
    + reflexivity.
    + now apply apart_filter.
    + apply Forall_forall. intros [s e] Hin. apply filter_In in Hin.
      destruct Hin as [_ Hin]. apply andb_true_iff in Hin. destruct Hin as [Hin _].
      apply Nat.leb_le in Hin. simpl. lia.
Qed.

Lemma splitlines_empty : splitlines "" = [].
Proof. reflexivity. Qed.

(** The spans of a single keyword follow each other without overlap. *)
Lemma single_keyword_apart (content keyword : string) :
  highlight_spans content [keyword] = keyword_spans (PyStr.lower content) keyword
  /\ apart (highlight_spans content [keyword]).
Proof.
  unfold highlight_spans. cbn [flat_map]. rewrite app_nil_r.
  assert (StronglySorted (fun x y => (snd x <= fst y)%nat)
            (keyword_spans (PyStr.lower content) keyword)) as Hd.
  { unfold keyword_spans. destruct (PyStr.is_empty keyword); [constructor|].
    apply FindFacts.find_all_disjoint. }
  assert (forall x, In x (keyword_spans (PyStr.lower content) keyword) ->
                    (fst x <= snd x)%nat) as Hpos.
  { intros [a b] Hin. apply keyword_spans_sound in Hin. simpl. lia. }
  assert (sort_spans (keyword_spans (PyStr.lower content) keyword)
          = keyword_spans (PyStr.lower content) keyword) as ->.
  { apply SpanSortFacts.sort_spans_fixpoint.
    induction Hd as [|x l Hs IH Hall]; [constructor|].
    constructor.
    - apply IH. intros y Hy. apply Hpos. now right.
    - apply Forall_forall. intros y Hy. rewrite Forall_forall in Hall.
      specialize (Hall y Hy). specialize (Hpos x (or_introl eq_refl)). lia. }
  split; [reflexivity|]. split; [exact Hd|]. now apply Forall_forall.
Qed.

End PaintFacts.

(** X22: the delegate draws every line of an item exactly once.  When the
    spans of the highlight data follow each other without overlap, as they
    do for the data of a single keyword and for no data at all, the pieces
    that [paint] draws for a line, put together, are that line, and the
    lines are those of [splitlines] on the item's text. *)
Theorem paint_draws_lines (text : string) (highlight_data : list (nat * nat)) :
  (apart highlight_data -> map drawn (paint text highlight_data) = splitlines text)
  /\ (forall keyword,
        map drawn (paint text (highlight_spans text [keyword])) = splitlines text)
  /\ map drawn (paint text []) = splitlines text.
Proof.
  assert (H : forall spans, apart spans ->
                            map drawn (paint text spans) = splitlines text).
  { intros spans Hap. unfold paint.
    assert ((if PyStr.is_empty text then [] else splitlines text) = splitlines text)
      as -> by now destruct text.
    rewrite map_map.
    transitivity (map snd (enumerate (splitlines text)));
      [|apply PageFacts.map_snd_combine_seq].
    apply map_ext. intros [line_idx line].
    now apply PaintFacts.paint_line_drawn. }
  split; [apply H|]. split.
  - intros keyword. apply H, PaintFacts.single_keyword_apart.
  - apply H. split; constructor.
Qed.

Lemma paint_draws_lines_witness :
  map drawn (paint "an error" [(3, 8)]%nat) = splitlines "an error".
Proof.
  apply (proj1 (paint_draws_lines "an error" [(3, 8)]%nat)).
  split; repeat constructor.
Defined.

Module LineFacts.

Lemma fold_add (l : list nat) : forall a, fold_left Nat.add l a = (a + fold_left Nat.add l 0)%nat.
Proof.
  induction l as [|x l IH]; intros a; simpl; [lia|].
  rewrite (IH (a + x)%nat), (IH x). lia.
Qed.

Lemma line_offset_0 (lines : list string) : line_offset lines 0 = 0%nat.
Proof. reflexivity. Qed.

Lemma line_offset_S (l : string) (lines : list string) (k : nat) :
  line_offset (l :: lines) (S k) = (String.length l + 1 + line_offset lines k)%nat.
Proof.
  unfold line_offset. cbn [firstn map fold_left]. now rewrite fold_add.
Qed.

Lemma boundary_CR (c : ascii) : Ascii.eqb c PyStr.CR = true -> line_boundary c = true.
Proof. intros H. apply Ascii.eqb_eq in H. now subst. Qed.

Lemma splitlines_boundary (c : ascii) (r : string) :
  no_crlf (String c r) = true -> line_boundary c = true ->
  splitlines (String c r) = "" :: splitlines r.
Proof.
  intros Hno Hb. cbn [splitlines]. rewrite Hb.
  destruct (Ascii.eqb c PyStr.CR) eqn:E; [|reflexivity].
  destruct r as [|d r2]; [reflexivity|].
  cbn [no_crlf] in Hno. rewrite E in Hno.
  destruct (Ascii.eqb d PyStr.LF); [discriminate|reflexivity].
Qed.

Lemma splitlines_plain (c : ascii) (r : string) :
  line_boundary c = false ->
  splitlines (String c r)
  = match splitlines r with
    | piece :: pieces => String c piece :: pieces
    | [] => [String c ""]
    end.
Proof.
  intros Hb. cbn [splitlines]. rewrite Hb.
  destruct (Ascii.eqb c PyStr.CR) eqn:E; [|reflexivity].
  apply boundary_CR in E. congruence.
Qed.

Lemma no_crlf_tail (c : ascii) (r : string) :
  no_crlf (String c r) = true -> no_crlf r = true.
Proof.
  cbn [no_crlf]. destruct r as [|d r2]; [reflexivity|].
  intros H. now apply andb_true_iff in H.
Qed.

Lemma slice_S (a b : nat) (c : ascii) (r : string) :
  slice (S a) (S b) (String c r) = slice a b r.
Proof. reflexivity. Qed.

Lemma slice_0_S (n : nat) (c : ascii) (r : string) :
  slice 0 (S n) (String c r) = String c (slice 0 n r).
Proof. unfold slice. simpl. now rewrite Nat.sub_0_r. Qed.

(** Without a boundary of two characters, each line stands in the text at
    the offset that [paint] computes for it. *)
Lemma splitlines_slice (text : string) :
  no_crlf text = true ->
  forall k line,
    nth_error (splitlines text) k = Some line ->
    slice (line_offset (splitlines text) k)
          (line_offset (splitlines text) k + String.length line) text
    = line.
Proof.
  induction text as [|c r IH]; intros Hno k line Hk; [now destruct k|].
  pose proof (no_crlf_tail c r Hno) as Hr. specialize (IH Hr).
  destruct (line_boundary c) eqn:Hb.
  - rewrite (splitlines_boundary c r Hno Hb) in *.
    destruct k as [|k].
    + inversion Hk; subst. reflexivity.
    + cbn [nth_error] in Hk. rewrite line_offset_S. cbn [String.length].
      replace (0 + 1 + line_offset (splitlines r) k)%nat
        with (S (line_offset (splitlines r) k)) by lia.
      cbn [Nat.add]. rewrite slice_S. now apply IH.
  - rewrite (splitlines_plain c r Hb) in *.
    destruct (splitlines r) as [|piece pieces] eqn:Hs.
    + destruct k as [|k]; [|now destruct k].
      inversion Hk; subst. rewrite line_offset_0. cbn [Nat.add String.length].
      rewrite slice_0_S. reflexivity.
    + destruct k as [|k].
      * inversion Hk; subst. rewrite line_offset_0. cbn [Nat.add String.length].
        rewrite slice_0_S. f_equal.
        specialize (IH 0%nat piece eq_refl). rewrite line_offset_0 in IH. exact IH.
      * cbn [nth_error] in Hk. rewrite line_offset_S. cbn [String.length].
        replace (S (String.length piece) + 1 + line_offset pieces k)%nat
          with (S (String.length piece + 1 + line_offset pieces k)) by lia.
        cbn [Nat.add]. rewrite slice_S.
        rewrite <- line_offset_S. apply (IH (S k) line). exact Hk.
Qed.

Lemma nth_error_enumerate {A : Type} (l : list A) :
  forall start k,
    nth_error (combine (seq start (List.length l)) l) k
    = option_map (pair (start + k)%nat) (nth_error l k).
Proof.
  induction l as [|x l IH]; intros start k; [now destruct k|].
  destruct k as [|k]; simpl.
  - now rewrite Nat.add_0_r.
  - rewrite IH. now replace (S start + k)%nat with (start + S k)%nat by lia.
Qed.

Lemma highlighted_app (p q : list (bool * string)) :
  highlighted (p ++ q) = highlighted p ++ highlighted q.
Proof. unfold highlighted. now rewrite filter_app, map_app. Qed.

(** The pieces in highlight format are the pieces of the line at the
    highlights, when these lie on the line and are not empty. *)
Lemma paint_spans_highlighted (line : string) (line_start : nat) :
  forall line_highlights cursor,
    Forall (fun x => (line_start <= fst x)%nat /\ (fst x < snd x)%nat
                     /\ (snd x <= line_start + String.length line)%nat)
           line_highlights ->
    highlighted (paint_spans line line_start cursor line_highlights)
    = map (fun x => slice (fst x - line_start) (snd x - line_start) line)
          line_highlights.
Proof.
  induction line_highlights as [|[s e] rest IH]; intros cursor Hall.
  - cbn [paint_spans]. now destruct (Nat.ltb cursor (String.length line)).
  - inversion Hall as [|? ? [H1 [H2 H3]] Hrest]; subst. simpl in H1, H2, H3.
    cbn [paint_spans]. rewrite !highlighted_app, IH by exact Hrest.
    assert (PyStr.is_empty (slice (s - line_start) (e - line_start) line) = false) as ->.
    { apply SliceFacts.is_empty_length. rewrite SliceFacts.slice_length; lia. }
    now destruct (PyStr.is_empty (slice cursor (s - line_start) line)).
Qed.

End LineFacts.

(** X23: what the delegate highlights.  The highlight data that
    [_load_page] computes hold no empty span.  For such data, whatever
    they are, and a text without a carriage return followed by a line
    feed, the pieces of a line that [paint] draws in highlight format are
    the pieces of the text at the spans that lie on that line, in the
    order of the data; a span that crosses a line boundary, or reaches
    beyond the text, is not highlighted. *)
Theorem paint_highlights (text : string) (highlight_data : list (nat * nat))
  (line_idx : nat) (line : string) :
  (forall highlight_keywords,
      Forall (fun x => (fst x < snd x)%nat) (highlight_spans text highlight_keywords))
  /\ (no_crlf text = true ->
      Forall (fun x => (fst x < snd x)%nat) highlight_data ->
      nth_error (splitlines text) line_idx = Some line ->
      exists pieces,
        nth_error (paint text highlight_data) line_idx = Some pieces
        /\ pieces = paint_line (splitlines text) highlight_data line_idx line
        /\ highlighted pieces
           = map (fun span => slice (fst span) (snd span) text)
                 (filter (on_line (splitlines text) line_idx line) highlight_data)).
Proof.
  split.
  { intros highlight_keywords. apply Forall_forall. intros [a b] Hin.
    unfold highlight_spans in Hin.
    apply (Permutation_in _ (SpanSortFacts.sort_spans_perm _)) in Hin.
    apply in_flat_map in Hin. destruct Hin as [keyword [_ Hin]].
    apply keyword_spans_sound in Hin. destruct Hin as [Hne [-> _]].
    simpl. destruct keyword; [contradiction|simpl; lia]. }
  intros Hno Hpos Hline.
  exists (paint_line (splitlines text) highlight_data line_idx line).
  split; [|split; [reflexivity|]].
  - unfold paint.
    assert ((if PyStr.is_empty text then [] else splitlines text) = splitlines text)
      as -> by now destruct text.
    unfold enumerate. rewrite nth_error_map, LineFacts.nth_error_enumerate, Hline.
    reflexivity.
  - unfold paint_line. destruct highlight_data as [|x l] eqn:E; [reflexivity|].
    cbn [is_nil]. rewrite <- E in *. clear E x l.
    assert (Hf : filter (fun '(h_start, h_end) =>
                           (Nat.leb (line_offset (splitlines text) line_idx) h_start
                            && Nat.leb h_end
                                 (line_offset (splitlines text) line_idx
                                  + String.length line))%bool) highlight_data
                 = filter (on_line (splitlines text) line_idx line) highlight_data).
    { apply filter_ext. now intros [s e]. }
    rewrite Hf. rewrite LineFacts.paint_spans_highlighted.
    + apply map_ext_in. intros [s e] Hin. apply filter_In in Hin.
      destruct Hin as [Hin Hon]. unfold on_line in Hon. simpl in Hon.
      apply andb_true_iff in Hon. destruct Hon as [H1 H2].
      apply Nat.leb_le in H1, H2. rewrite Forall_forall in Hpos.
      specialize (Hpos _ Hin). simpl in Hpos. cbn [fst snd].
      rewrite <- (LineFacts.splitlines_slice text Hno line_idx line Hline) at 1.
      rewrite SliceFacts.slice_slice by lia. f_equal; lia.
    + apply Forall_forall. intros [s e] Hin. apply filter_In in Hin.
      destruct Hin as [Hin Hon]. unfold on_line in Hon. simpl in Hon.
      apply andb_true_iff in Hon. destruct Hon as [H1 H2].
      apply Nat.leb_le in H1, H2. rewrite Forall_forall in Hpos.
      specialize (Hpos _ Hin). simpl in *. lia.
Qed.

Lemma paint_highlights_witness :
  exists pieces,
    nth_error (paint ("ok" ++ nl ++ "an Error")%string [(1, 4); (6, 11)]%nat) 1
    = Some pieces
    /\ pieces = [(false, "an "); (true, "Error")]
    /\ highlighted pieces = ["Error"].
Proof.
  destruct (paint_highlights ("ok" ++ nl ++ "an Error")%string [(1, 4); (6, 11)]%nat
              1 "an Error") as [_ H].
  destruct H as [pieces [Hnth [Hpieces Hhl]]].
  - reflexivity.
  - repeat constructor.
  - reflexivity.
  - exists pieces. split; [exact Hnth|]. split; [rewrite Hpieces|rewrite Hhl];
      reflexivity.
Defined.

(* ================================================================== *)
(** ** The built-in frame pattern: what segmentation keeps *)

Module FrameFacts.

Import Sre.

Lemma step_char_some (ok : ascii -> bool) (st : mstate)
  (k : mstate -> option mstate) (r : mstate) :
  step_char ok st k = Some r ->
  exists c rest',
    rest st = String c rest' /\ ok c = true
    /\ k (mkState rest' (S (pos st)) (caps st)) = Some r.
Proof.
  unfold step_char. destruct (rest st) as [|c rest']; [discriminate|].
  destruct (ok c) eqn:E; [|discriminate]. intros H. now exists c, rest'.
Qed.

(** A repeat of a single character: the characters it takes. *)
Lemma char_loop_some (ok : ascii -> bool)
  (body : mstate -> (mstate -> option mstate) -> option mstate)
  (lo : nat) (hi : option nat) (greedy : bool) (k : mstate -> option mstate) :
  (forall st k', body st k' = step_char ok st k') ->
  forall fuel cnt st r,
    repeat_loop lo hi greedy body k fuel cnt st = Some r ->
    exists run st',
      rest st = (run ++ rest st')%string
      /\ pos st' = (pos st + String.length run)%nat
      /\ caps st' = caps st
      /\ all_chars ok run = true
      /\ (lo <= cnt + String.length run)%nat
      /\ k st' = Some r.
Proof.
  intros Hbody. induction fuel as [|fuel IH]; intros cnt st r H; [discriminate|].
  cbn [repeat_loop] in H.
  assert (Hcases :
            (if Nat.leb lo cnt then k st else None) = Some r
            \/ (if below hi cnt
                then body st (fun st' =>
                       if (Nat.leb lo (S cnt) && Nat.eqb (pos st') (pos st))%bool
                       then k st'
                       else repeat_loop lo hi greedy body k fuel (S cnt) st')
                else None) = Some r).
  { destruct greedy; unfold or_else in H.
    - destruct (if below hi cnt then _ else None) eqn:E; [right; exact H|now left].
    - destruct (if Nat.leb lo cnt then k st else None) eqn:E; [left; exact H|now right]. }
  clear H. destruct Hcases as [H|H].
  - destruct (Nat.leb lo cnt) eqn:E; [|discriminate]. apply Nat.leb_le in E.
    exists "", st. simpl. repeat split; auto; lia.
  - destruct (below hi cnt); [|discriminate]. rewrite Hbody in H.
    apply step_char_some in H. destruct H as [c [rest' [Hrest [Hc H]]]].
    cbn [pos] in H.
    assert (Nat.eqb (S (pos st)) (pos st) = false) as E by (apply Nat.eqb_neq; lia).
    rewrite E, andb_false_r in H. apply IH in H.
    destruct H as [run [st' [H1 [H2 [H3 [H4 [H5 H6]]]]]]]. cbn [rest pos caps] in *.
    exists (String c run), st'. simpl. rewrite Hrest, H1, Hc, H4.
    repeat split; auto; lia.
Qed.

Lemma take_app_length (a b : string) : PyStr.take (String.length a) (a ++ b) = a.
Proof. induction a as [|c a IH]; simpl; [now destruct b|now rewrite IH]. Qed.

Lemma length_app (a b : string) :
  String.length (a ++ b) = (String.length a + String.length b)%nat.
Proof. induction a as [|c a IH]; simpl; [reflexivity|now rewrite IH]. Qed.

Lemma app_assoc (a b c : string) : ((a ++ b) ++ c)%string = (a ++ b ++ c)%string.
Proof. induction a as [|x a IH]; simpl; [reflexivity|now rewrite IH]. Qed.

Lemma all_chars_ext (ok ok' : ascii -> bool) (s : string) :
  (forall c, ok c = ok' c) -> all_chars ok s = all_chars ok' s.
Proof. intros H. induction s as [|c s IH]; simpl; [reflexivity|now rewrite H, IH]. Qed.

(** What an attempt with the built-in frame pattern takes: a marker and
    the text that follows it up to some point; group 1 is the whole match. *)
Lemma frame_match (s : string) (start : nat) (adv : bool) (p : pattern)
  (mt : re_match) :
  compiled_frame_pattern = Some p ->
  match_at p s start adv = Some mt ->
  exists digits run post,
    s = ("%@" ++ digits ++ "%" ++ run ++ post)%string
    /\ digits <> "" /\ all_chars PyStr.isdecimal digits = true
    /\ m_group0 mt = ("%@" ++ digits ++ "%" ++ run)%string
    /\ m_groups mt = [Some ("%@" ++ digits ++ "%" ++ run)%string].
Proof.
  intros Hp H. inversion Hp; subst p. clear Hp.
  unfold match_at in H.
  destruct (m _ _ _ _ _) as [stF|] eqn:E; [|discriminate].
  cbn [option_map] in H. inversion H; subst mt. clear H.
  cbn [m p_regex p_flags] in E.
  apply step_char_some in E. destruct E as [c1 [r1 [Hr1 [Hc1 E]]]].
  apply step_char_some in E. destruct E as [c2 [r2 [Hr2 [Hc2 E]]]].
  eapply char_loop_some in E; [|intros; reflexivity].
  destruct E as [digits [st1 [Hd1 [Hd2 [_ [Hd4 [Hd5 E]]]]]]].
  apply step_char_some in E. destruct E as [c3 [r3 [Hr3 [Hc3 E]]]].
  eapply char_loop_some in E; [|intros; reflexivity].
  destruct E as [run [st2 [He1 [He2 [_ [_ [_ E]]]]]]].
  cbn [rest pos caps] in *.
  destruct (or_else _ _) as [stA|]; [|discriminate].
  destruct (adv && _)%bool; [discriminate|]. inversion E; subst stF. clear E.
  unfold literal_matches in Hc1, Hc2, Hc3. cbn [IGNORECASE] in Hc1, Hc2, Hc3.
  apply Ascii.eqb_eq in Hc1, Hc2, Hc3. subst c1 c2 c3.
  assert (Hs : s = (("%@" ++ digits ++ "%" ++ run) ++ rest st2)%string).
  { rewrite Hr1, Hr2, Hd1, Hr3, He1. simpl. now rewrite !app_assoc. }
  assert (Hn : pos st2 = String.length ("%@" ++ digits ++ "%" ++ run)%string).
  { rewrite He2, Hd2. simpl. rewrite !length_app. simpl. lia. }
  exists digits, run, (rest st2).
  split; [rewrite Hs at 1; simpl; now rewrite !app_assoc|].
  split; [intros ->; simpl in Hd5; lia|].
  split.
  { rewrite <- Hd4. apply all_chars_ext. intros c.
    unfold set_matches, in_items. cbn [IGNORECASE existsb in_item xorb in_category].
    now rewrite orb_false_r. }
  unfold build_match. cbn [m_group0 m_groups pos caps p_groups seq map lookup Nat.eqb].
  rewrite Nat.sub_0_r, Hn. rewrite Hs at 1 2. rewrite take_app_length. now split.
Qed.


(** Every match that [finditer] returns is an attempt on some suffix of
    the text. *)
Lemma finditer_matches (p : pattern) :
  forall fuel s start adv mt,
    In mt (finditer_from fuel p s start adv) ->
    exists pre s' start' adv',
      s = (pre ++ s')%string /\ match_at p s' start' adv' = Some mt.
Proof.
  induction fuel as [|fuel IH]; intros s start adv mt Hin; [contradiction|].
  cbn [finditer_from] in Hin.
  destruct (search_from p s start adv) as [mt0|] eqn:E; [|contradiction].
  destruct Hin as [<-|Hin].
  - apply SearchFacts.search_from_found in E. destruct E as [i [_ [_ E]]].
    exists (PyStr.take i s), (PyStr.drop i s). eexists. eexists.
    split; [now rewrite TakeDropFacts.take_drop|exact E].
  - apply IH in Hin. destruct Hin as [pre [s' [start' [adv' [Hs Hm]]]]].
    exists (PyStr.take (m_end mt0 - start) s ++ pre)%string, s', start', adv'.
    split; [|exact Hm].
    rewrite app_assoc, <- Hs. now rewrite TakeDropFacts.take_drop.
Qed.

Lemma prefix_nil (s : string) : String.prefix "" s = true.
Proof. now destruct s. Qed.

Lemma contains_suffix (k pre s : string) :
  String.prefix k s = true -> PyStr.contains k (pre ++ s) = true.
Proof.
  intros H. induction pre as [|c pre IH]; rewrite StrFacts.contains_unfold.
  - simpl. now rewrite H.
  - cbn [append].
    destruct (String.prefix k (String c (pre ++ s))); [reflexivity|exact IH].
Qed.

Lemma replace_crlf_unfold (c d : ascii) (r2 : string) :
  PyStr.replace_crlf (String c (String d r2))
  = if (Ascii.eqb c PyStr.CR && Ascii.eqb d PyStr.LF)%bool
    then String PyStr.LF (PyStr.replace_crlf r2)
    else String c (PyStr.replace_crlf (String d r2)).
Proof. reflexivity. Qed.

Lemma prefix_at_replace_crlf (r : string) :
  String.prefix "@" (PyStr.replace_crlf r) = String.prefix "@" r.
Proof.
  destruct r as [|d [|e r3]]; try reflexivity.
  rewrite replace_crlf_unfold.
  destruct (Ascii.eqb d PyStr.CR && Ascii.eqb e PyStr.LF)%bool eqn:E.
  - apply andb_true_iff in E. destruct E as [Ed _].
    apply Ascii.eqb_eq in Ed. subst d. reflexivity.
  - cbn [String.prefix]. destruct (ascii_dec "@" d); [|reflexivity].
    now destruct (PyStr.replace_crlf (String e r3)).
Qed.

(** Joining the line ends neither makes nor breaks a ["%@"]. *)
Lemma marker_replace_crlf :
  forall n s, (String.length s <= n)%nat ->
              PyStr.contains "%@" (PyStr.replace_crlf s) = PyStr.contains "%@" s.
Proof.
  induction n as [|n IH]; intros s Hlen.
  - destruct s; [reflexivity|simpl in Hlen; lia].
  - destruct s as [|c [|d r2]]; try reflexivity.
    simpl in Hlen. rewrite replace_crlf_unfold.
    destruct (Ascii.eqb c PyStr.CR && Ascii.eqb d PyStr.LF)%bool eqn:E.
    + apply andb_true_iff in E. destruct E as [Ec Ed].
      apply Ascii.eqb_eq in Ec, Ed. subst c d.
      rewrite (StrFacts.contains_unfold _ (String PyStr.LF (PyStr.replace_crlf r2))).
      rewrite (StrFacts.contains_unfold _ (String PyStr.CR _)).
      rewrite (StrFacts.contains_unfold _ (String PyStr.LF r2)).
      change (String.prefix "%@" (String PyStr.LF (PyStr.replace_crlf r2))) with false.
      change (String.prefix "%@" (String PyStr.CR (String PyStr.LF r2))) with false.
      change (String.prefix "%@" (String PyStr.LF r2)) with false.
      apply IH. lia.
    + rewrite (StrFacts.contains_unfold _ (String c (PyStr.replace_crlf _))).
      rewrite (StrFacts.contains_unfold _ (String c (String d r2))).
      rewrite (IH (String d r2)) by (simpl; lia).
      assert (String.prefix "%@" (String c (PyStr.replace_crlf (String d r2)))
              = String.prefix "%@" (String c (String d r2))) as ->; [|reflexivity].
      change (String.prefix "%@" (String c (PyStr.replace_crlf (String d r2))))
        with (if ascii_dec "%" c
              then String.prefix "@" (PyStr.replace_crlf (String d r2)) else false).
      rewrite prefix_at_replace_crlf. reflexivity.
Qed.

Lemma rstrip_app_nonspace (x : string) (c : ascii) (y : string) :
  PyStr.isspace c = false ->
  PyStr.rstrip (x ++ String c y) = (x ++ String c (PyStr.rstrip y))%string.
Proof.
  intros Hc. induction x as [|a x IH].
  - simpl. now rewrite Hc.
  - simpl. rewrite IH.
    assert (PyStr.is_empty (x ++ String c (PyStr.rstrip y)) = false) as ->
        by now destruct x.
    now rewrite andb_false_r.
Qed.

Lemma strip_marked (digits run : string) :
  PyStr.strip ("%@" ++ digits ++ "%" ++ run)
  = ("%@" ++ digits ++ "%" ++ PyStr.rstrip run)%string.
Proof.
  unfold PyStr.strip.
  change (PyStr.lstrip ("%@" ++ digits ++ "%" ++ run))
    with (("%@" ++ digits) ++ String "%" run)%string.
  rewrite rstrip_app_nonspace by reflexivity. reflexivity.
Qed.

Lemma mapM_all {A B : Type} (f : A -> result B) (Q : B -> Prop) (l : list A) :
  (forall x, In x l -> exists y, f x = Ok y /\ Q y) ->
  exists ys, mapM f l = Ok ys /\ Forall Q ys.
Proof.
  induction l as [|x l IH]; intros H; [exists []; now split|].
  destruct (H x (or_introl eq_refl)) as [y [Hy Qy]].
  destruct IH as [ys [Hys Qys]]; [intros z Hz; apply H; now right|].
  exists (y :: ys). simpl. rewrite Hy. simpl. rewrite Hys. simpl.
  split; [reflexivity|now constructor].
Qed.

End FrameFacts.

Lemma built_in_frame_pattern_compiles :
  compile_or_default (RE := sre_module)
    (str_or (PyStr.strip "") (LOG_REGEX_PATTERN LogAnalyzerApp.log_processor))
    (LOG_REGEX_PATTERN LogAnalyzerApp.log_processor) flag_DOTALL
  = match compiled_frame_pattern with
    | Some p => Ok p
    | None => Raise ReError
    end.
Proof. vm_compute. reflexivity. Qed.

Lemma built_in_frames_blank (text log_regex_edit time_regex_edit : string) :
  built_in_frames log_regex_edit ->
  parse_log_entries (RE := sre_module) LogAnalyzerApp.log_processor text
    log_regex_edit time_regex_edit
  = parse_log_entries (RE := sre_module) LogAnalyzerApp.log_processor text ""
      time_regex_edit.
Proof.
  intros [H|H].
  - unfold parse_log_entries. now rewrite H.
  - unfold parse_log_entries. now rewrite H.
Qed.

(** Segmentation with the built-in patterns, the frame editor left blank. *)
Lemma default_segmentation (text time_regex_edit : string) :
  exists entries,
    parse_log_entries (RE := sre_module) LogAnalyzerApp.log_processor text ""
      time_regex_edit = Ok entries
    /\ Forall begins_with_marker entries
    /\ (PyStr.contains "%@" text = false -> entries = []).
Proof.
  destruct built_in_time_pattern_some as [t Ht].
  rewrite (parse_log_entries_frames (RE := sre_module) LogAnalyzerApp.log_processor
             text "" time_regex_edit t Ht).
  rewrite built_in_frame_pattern_compiles.
  destruct compiled_frame_pattern as [p|] eqn:Hp; [|discriminate].
  cbn [bind].
  set (matches := @pattern_finditer sre_module p (PyStr.replace_crlf text)).
  assert (Hm : forall mt, In mt matches ->
                 exists digits run post pre,
                   PyStr.replace_crlf text
                   = (pre ++ "%@" ++ digits ++ "%" ++ run ++ post)%string
                   /\ digits <> "" /\ all_chars PyStr.isdecimal digits = true
                   /\ m_groups mt = [Some ("%@" ++ digits ++ "%" ++ run)%string]).
  { intros mt Hin. apply FrameFacts.finditer_matches in Hin.
    destruct Hin as [pre [s' [start' [adv' [Hs Hat]]]]].
    apply (FrameFacts.frame_match s' start' adv' p mt Hp) in Hat.
    destruct Hat as [digits [run [post [Hs' [Hne [Hdec [_ Hg]]]]]]].
    exists digits, run, post, pre. rewrite Hs, Hs'. now repeat split. }
  destruct (FrameFacts.mapM_all (fun mt => g <- group1 mt ;; strip_method g)
              begins_with_marker matches) as [entries [Hentries Hall]].
  { intros mt Hin. destruct (Hm mt Hin) as [digits [run [post [pre [_ [Hne [Hdec Hg]]]]]]].
    exists ("%@" ++ digits ++ "%" ++ PyStr.rstrip run)%string. split.
    - unfold group1. rewrite Hg. cbn [bind strip_method].
      now rewrite FrameFacts.strip_marked.
    - exists digits, (PyStr.rstrip run). now repeat split. }
  rewrite Hentries. cbn [bind]. eexists. split; [reflexivity|]. split.
  - rewrite Forall_forall in *. intros e He. apply filter_In in He. now apply Hall.
  - intros Hnone. destruct matches as [|mt rest] eqn:E.
    + cbn [mapM] in Hentries. inversion Hentries. reflexivity.
    + exfalso. destruct (Hm mt (or_introl eq_refl))
        as [digits [run [post [pre [Hs _]]]]].
      rewrite <- (FrameFacts.marker_replace_crlf (String.length text) text (le_n _))
        in Hnone.
      rewrite Hs, FrameFacts.contains_suffix in Hnone; [discriminate|].
      simpl. apply FrameFacts.prefix_nil.
Qed.



(* ================================================================== *)
(** ** The built-in frame pattern: the frames it cuts *)

Module CutFacts.

Import Sre.

Lemma digit_set (c : ascii) :
  set_matches (mkFlags true false) false [SCategory false Digit] c = PyStr.isdecimal c.
Proof.
  unfold set_matches, in_items. cbn [IGNORECASE existsb in_item xorb in_category].
  now rewrite orb_false_r.
Qed.

Lemma any_set (c : ascii) :
  set_matches (mkFlags true false) false
    [SCategory false Space; SCategory true Space] c = true.
Proof.
  unfold set_matches, in_items. cbn [IGNORECASE existsb in_item xorb in_category].
  now destruct (PyStr.isspace c).
Qed.

Lemma advance_0 (st : mstate) : advance 0 st = st.
Proof. unfold advance. rewrite Nat.add_0_r. now destruct st. Qed.

Lemma advance_S (n : nat) (st : mstate) (c : ascii) (r : string) :
  rest st = String c r ->
  advance (S n) st = advance n (mkState r (S (pos st)) (caps st)).
Proof.
  intros H. unfold advance. rewrite H. cbn [rest pos caps PyStr.drop]. f_equal. lia.
Qed.

(** A greedy run of digits before a continuation that refuses a digit:
    all the digits are taken. *)
Lemma greedy_digits
  (body : mstate -> (mstate -> option mstate) -> option mstate)
  (k : mstate -> option mstate) :
  (forall st K,
      body st K
      = step_char (set_matches (mkFlags true false) false [SCategory false Digit])
          st K) ->
  (forall st c r, rest st = String c r -> PyStr.isdecimal c = true -> k st = None) ->
  forall fuel cnt st,
    (count_digits (rest st) < fuel)%nat ->
    repeat_loop 1 None true body k fuel cnt st
    = if Nat.leb 1 (cnt + count_digits (rest st))
      then k (advance (count_digits (rest st)) st) else None.
Proof.
  intros Hbody Hk. induction fuel as [|fuel IH]; intros cnt st Hfuel; [lia|].
  cbn [repeat_loop below]. rewrite Hbody.
  unfold step_char. destruct (rest st) as [|c r] eqn:Hrest.
  - cbn [count_digits or_else]. rewrite Nat.add_0_r, advance_0. reflexivity.
  - rewrite digit_set. cbn [count_digits] in *.
    destruct (PyStr.isdecimal c) eqn:Hc.
    + cbn [pos].
      assert (Nat.eqb (S (pos st)) (pos st) = false) as -> by (apply Nat.eqb_neq; lia).
      rewrite andb_false_r. rewrite IH by (cbn [rest]; lia). cbn [rest].
      assert (Nat.leb 1 (S cnt + count_digits r) = true) as -> by (apply Nat.leb_le; lia).
      assert (Nat.leb 1 (cnt + S (count_digits r)) = true) as -> by (apply Nat.leb_le; lia).
      rewrite (advance_S _ st c r Hrest).
      destruct (k (advance (count_digits r) _)) eqn:E; cbn [or_else]; [reflexivity|].
      destruct (Nat.leb 1 cnt); [|reflexivity]. eapply Hk; eassumption.
    + cbn [or_else]. rewrite Nat.add_0_r, advance_0. reflexivity.
Qed.


Lemma count_digits_length (s : string) : (count_digits s <= String.length s)%nat.
Proof.
  induction s as [|c r IH]; simpl; [lia|]. destruct (PyStr.isdecimal c); lia.
Qed.

Lemma decimal_not_percent (c : ascii) :
  PyStr.isdecimal c = true -> Ascii.eqb "%" c = false.
Proof.
  intros H. destruct (Ascii.eqb "%" c) eqn:E; [|reflexivity].
  apply Ascii.eqb_eq in E. subst c. discriminate H.
Qed.

Lemma drop_S (n : nat) :
  forall r c r', PyStr.drop n r = String c r' -> PyStr.drop (S n) r = r'.
Proof.
  induction n as [|n IH]; intros r c r' H.
  - simpl in H. subst r. reflexivity.
  - destruct r as [|d r]; [discriminate|]. simpl in *. now apply (IH r c).
Qed.

(** A marker in sequence with what follows it. *)
Lemma marker_then (origin : nat) (after : regex) (st : mstate)
  (k : mstate -> option mstate) :
  m (mkFlags true false) origin
    (Seq (Literal "%")
       (Seq (Literal "@")
          (Seq (Repeat 1 None true (InSet false [SCategory false Digit]))
             (Seq (Literal "%") after)))) st k
  = match marker_len (rest st) with
    | Some n => m (mkFlags true false) origin after (advance n st) k
    | None => None
    end.
Proof.
  cbn [m]. unfold step_char at 1. unfold literal_matches. cbn [IGNORECASE].
  destruct (rest st) as [|a r0] eqn:Hr; [reflexivity|].
  unfold marker_len. rewrite (Ascii.eqb_sym a "%").
  destruct (Ascii.eqb "%" a) eqn:Ea; [|now destruct r0].
  unfold step_char at 1. cbn [rest pos caps].
  destruct r0 as [|b r]; [reflexivity|]. rewrite (Ascii.eqb_sym b "@").
  destruct (Ascii.eqb "@" b) eqn:Eb; [|reflexivity]. cbn [andb].
  rewrite greedy_digits.
  - cbn [rest Nat.add].
    destruct (count_digits r) as [|n] eqn:En; [reflexivity|].
    cbn [Nat.leb Nat.ltb andb]. unfold step_char. unfold advance at 1.
    cbn [rest pos caps].
    destruct (PyStr.drop (S n) r) as [|c r'] eqn:Hd; [reflexivity|].
    cbn [String.prefix]. destruct (ascii_dec "%" c) as [<-|Hne].
    + rewrite Ascii.eqb_refl, FrameFacts.prefix_nil.
      f_equal. unfold advance. rewrite Hr. cbn [rest pos caps].
      replace (S n + 3)%nat with (S (S (S (S n)))) by lia.
      change (PyStr.drop (S (S (S (S n)))) (String a (String b r)))
        with (PyStr.drop (S (S n)) r).
      rewrite (drop_S (S n) r "%" r' Hd). f_equal. lia.
    + assert (Ascii.eqb "%" c = false) as -> by now apply Ascii.eqb_neq.
      reflexivity.
  - intros st' K. reflexivity.
  - intros st' c r' Hrest Hc. unfold step_char. rewrite Hrest.
    now rewrite (decimal_not_percent c Hc).
  - cbn [rest]. pose proof (count_digits_length r). lia.
Qed.

(** The look-ahead that ends a frame. *)
Lemma lookahead (origin : nat) (st : mstate) :
  m (mkFlags true false) origin
    (Branch
       (Seq (Literal "%")
          (Seq (Literal "@")
             (Seq (Repeat 1 None true (InSet false [SCategory false Digit]))
                (Seq (Literal "%") Empty))))
       (Seq (At AT_END_STRING) Empty)) st Some
  = if ahead (rest st)
    then Some (match marker_len (rest st) with
               | Some n => advance n st
               | None => st
               end)
    else None.
Proof.
  cbn [m]. fold (m (mkFlags true false) origin).
  change (step_char (literal_matches (mkFlags true false) "%") st _)
    with (m (mkFlags true false) origin
            (Seq (Literal "%")
               (Seq (Literal "@")
                  (Seq (Repeat 1 None true (InSet false [SCategory false Digit]))
                     (Seq (Literal "%") Empty)))) st Some).
  rewrite marker_then. unfold ahead.
  destruct (marker_len (rest st)) as [n|]; [reflexivity|].
  cbn [m or_else is_some orb at_holds]. now destruct (PyStr.is_empty (rest st)).
Qed.


Lemma ahead_empty : ahead "" = true.
Proof. reflexivity. Qed.

(** The lazy body of a frame: it stops at the first place where the
    continuation, which succeeds exactly ahead of a marker or at the end,
    accepts. *)
Lemma lazy_scan
  (body : mstate -> (mstate -> option mstate) -> option mstate)
  (k : mstate -> option mstate) (G : mstate -> mstate) :
  (forall st K,
      body st K
      = step_char (set_matches (mkFlags true false) false
                     [SCategory false Space; SCategory true Space]) st K) ->
  (forall st, k st = if ahead (rest st) then Some (G st) else None) ->
  forall fuel cnt st,
    (String.length (rest st) < fuel)%nat ->
    repeat_loop 0 None false body k fuel cnt st
    = Some (G (advance (body_len (rest st)) st)).
Proof.
  intros Hbody Hk. induction fuel as [|fuel IH]; intros cnt st Hfuel; [lia|].
  cbn [repeat_loop below Nat.leb]. rewrite Hk.
  destruct (rest st) as [|c r] eqn:Hrest.
  - cbn [or_else]. rewrite ahead_empty. cbn [body_len]. rewrite ahead_empty.
    now rewrite advance_0.
  - cbn [body_len]. destruct (ahead (String c r)) eqn:Ha.
    + cbn [or_else]. now rewrite advance_0.
    + cbn [or_else]. rewrite Hbody. unfold step_char. rewrite Hrest, any_set.
      cbn [pos].
      assert (Nat.eqb (S (pos st)) (pos st) = false) as -> by (apply Nat.eqb_neq; lia).
      rewrite andb_false_r. rewrite IH by (cbn [rest]; simpl in Hfuel; lia).
      cbn [rest]. now rewrite (advance_S _ st c r Hrest).
Qed.

Lemma advance_advance (a b : nat) (st : mstate) :
  advance b (advance a st) = advance (a + b) st.
Proof.
  unfold advance. cbn [rest pos caps]. rewrite FindFacts.drop_drop. f_equal. lia.
Qed.

Lemma length_drop_le (n : nat) (s : string) :
  (String.length (PyStr.drop n s) <= String.length s)%nat.
Proof. rewrite FindFacts.length_drop. lia. Qed.

Lemma m_Seq (fl : re_flags) (origin : nat) (r1 r2 : regex) (st : mstate)
  (k : mstate -> option mstate) :
  m fl origin (Seq r1 r2) st k = m fl origin r1 st (fun st' => m fl origin r2 st' k).
Proof. reflexivity. Qed.

Lemma m_Subpattern (fl : re_flags) (origin g : nat) (r1 : regex) (st : mstate)
  (k : mstate -> option mstate) :
  m fl origin (Subpattern g r1) st k
  = m fl origin r1 st (fun st' =>
      k (mkState (rest st') (pos st')
           ((g, PyStr.take (pos st' - pos st) (rest st)) :: caps st'))).
Proof. reflexivity. Qed.

Lemma m_Repeat (fl : re_flags) (origin lo : nat) (hi : option nat) (greedy : bool)
  (r1 : regex) (st : mstate) (k : mstate -> option mstate) :
  m fl origin (Repeat lo hi greedy r1) st k
  = repeat_loop lo hi greedy (m fl origin r1) k
      (lo + String.length (rest st) + 1)%nat 0%nat st.
Proof. reflexivity. Qed.

Lemma m_Assert (fl : re_flags) (origin : nat) (r1 : regex) (st : mstate)
  (k : mstate -> option mstate) :
  m fl origin (Assert true r1) st k
  = match m fl origin r1 st Some with
    | Some st' => k (mkState (rest st) (pos st) (caps st'))
    | None => None
    end.
Proof. reflexivity. Qed.

Lemma m_Empty (fl : re_flags) (origin : nat) (st : mstate)
  (k : mstate -> option mstate) :
  m fl origin Empty st k = k st.
Proof. reflexivity. Qed.

(** One attempt with the built-in frame pattern: it succeeds exactly at a
    marker, and takes the marker and the text up to the next place ahead
    of a marker, or to the end. *)
Lemma match_at_frame (p : pattern) (s : string) (start : nat) :
  compiled_frame_pattern = Some p ->
  match_at p s start false
  = match marker_len s with
    | Some n =>
        let e := (n + body_len (PyStr.drop n s))%nat in
        Some (mkMatch start (e + start) (PyStr.take e s) [Some (PyStr.take e s)])
    | None => None
    end.
Proof.
  intros Hp. inversion Hp; subst p. clear Hp.
  unfold match_at. cbn [p_regex p_flags andb].
  rewrite m_Seq, m_Subpattern, marker_then. cbn [rest pos].
  destruct (marker_len s) as [n|]; [|reflexivity].
  rewrite m_Seq, m_Repeat.
  rewrite (lazy_scan _ _
             (fun st => mkState (rest st) (pos st)
                          ((1%nat, PyStr.take (pos st - 0) s) :: caps st))).
  - cbn [option_map]. unfold build_match, advance.
    cbn [rest pos caps p_groups seq map lookup Nat.eqb Nat.add].
    rewrite Nat.sub_0_r. reflexivity.
  - intros st K. reflexivity.
  - intros st. rewrite m_Seq, m_Assert, lookahead.
    destruct (ahead (rest st)); [|reflexivity].
    rewrite m_Empty. cbn [rest pos caps].
    now destruct (marker_len (rest st)).
  - unfold advance. cbn [rest Nat.add]. lia.
Qed.


(** The leftmost match is the attempt at the first marker. *)
Lemma search_from_frame (p : pattern) (s : string) :
  compiled_frame_pattern = Some p ->
  forall start,
    search_from p s start false
    = match_at p (PyStr.drop (body_len s) s) (start + body_len s) false.
Proof.
  intros Hp. induction s as [|c r IH]; intros start.
  - cbn [search_from body_len]. rewrite ahead_empty. cbn [PyStr.drop].
    rewrite Nat.add_0_r. now destruct (match_at p "" start false).
  - cbn [search_from body_len]. unfold ahead. cbn [PyStr.is_empty]. rewrite orb_false_r.
    rewrite (match_at_frame p (String c r) start Hp).
    destruct (marker_len (String c r)) as [n|] eqn:E; cbn [is_some].
    + cbn [PyStr.drop]. rewrite Nat.add_0_r, (match_at_frame p _ start Hp), E.
      reflexivity.
    + rewrite IH. cbn [PyStr.drop]. f_equal. lia.
Qed.

Lemma take_add (a b : nat) :
  forall s, PyStr.take (a + b) s = (PyStr.take a s ++ PyStr.take b (PyStr.drop a s))%string.
Proof.
  induction a as [|a IH]; intros s; [reflexivity|].
  destruct s as [|c s]; simpl; [now destruct b|]. now rewrite IH.
Qed.

Lemma cut_skip (k : nat) :
  forall s,
    cut k s = ((PyStr.take k s ++ fst (cut 0 (PyStr.drop k s)))%string,
               snd (cut 0 (PyStr.drop k s))).
Proof.
  induction k as [|k IH]; intros s.
  - cbn [PyStr.take PyStr.drop append]. now destruct (cut 0 s).
  - destruct s as [|c r]; [reflexivity|].
    cbn [cut PyStr.take PyStr.drop]. replace (S k - 1)%nat with k by lia.
    rewrite IH. reflexivity.
Qed.

Lemma cut_plain (c : ascii) (r : string) :
  marker_len (String c r) = None ->
  cut 0 (String c r) = (String c (fst (cut 0 r)), snd (cut 0 r)).
Proof. intros H. cbn [cut]. rewrite H. cbn [Nat.sub]. now destruct (cut 0 r). Qed.

Lemma cut_marker (c : ascii) (r : string) (n : nat) :
  marker_len (String c r) = Some n ->
  cut 0 (String c r)
  = ("", String c (fst (cut (n - 1) r)) :: snd (cut (n - 1) r)).
Proof. intros H. cbn [cut]. rewrite H. now destruct (cut (n - 1) r). Qed.

Lemma marker_len_min (s : string) (n : nat) : marker_len s = Some n -> (3 <= n)%nat.
Proof.
  unfold marker_len. destruct s as [|a [|b r]]; try discriminate.
  destruct (_ && _)%bool; [|discriminate].
  destruct (_ && _)%bool; [|discriminate]. intros H. inversion H. lia.
Qed.

(** The text before the first frame, and the frames after it. *)
Lemma cut_lead (s : string) :
  fst (cut 0 s) = PyStr.take (body_len s) s
  /\ frames s = frames (PyStr.drop (body_len s) s).
Proof.
  unfold frames. induction s as [|c r [IH1 IH2]]; [now split|].
  cbn [body_len]. unfold ahead. cbn [PyStr.is_empty]. rewrite orb_false_r.
  destruct (marker_len (String c r)) as [n|] eqn:E; cbn [is_some].
  - cbn [PyStr.take PyStr.drop]. rewrite (cut_marker c r n E). now split.
  - rewrite (cut_plain c r E). cbn [fst snd PyStr.take PyStr.drop].
    now rewrite IH1, IH2.
Qed.

Lemma lead_end (s : string) :
  marker_len (PyStr.drop (body_len s) s) = None -> PyStr.drop (body_len s) s = "".
Proof.
  induction s as [|c r IH]; [reflexivity|].
  cbn [body_len]. unfold ahead. cbn [PyStr.is_empty]. rewrite orb_false_r.
  destruct (marker_len (String c r)) as [n|] eqn:E; cbn [is_some PyStr.drop].
  - congruence.
  - exact IH.
Qed.

(** The first frame of a text that begins with a marker. *)
Lemma frames_marker (s : string) (n : nat) :
  marker_len s = Some n ->
  frames s
  = PyStr.take (n + body_len (PyStr.drop n s)) s
    :: frames (PyStr.drop (n + body_len (PyStr.drop n s)) s).
Proof.
  intros E. pose proof (marker_len_min s n E) as Hn.
  destruct s as [|c r]; [discriminate|].
  unfold frames at 1. rewrite (cut_marker c r n E), cut_skip. cbn [fst snd].
  assert (Hd : PyStr.drop (n - 1) r = PyStr.drop n (String c r)).
  { destruct n as [|n]; [lia|]. replace (S n - 1)%nat with n by lia. reflexivity. }
  rewrite Hd. destruct (cut_lead (PyStr.drop n (String c r))) as [H1 H2].
  rewrite H1. fold (frames (PyStr.drop n (String c r))). rewrite H2.
  rewrite FindFacts.drop_drop, take_add. f_equal.
  destruct n as [|n]; [lia|]. replace (S n - 1)%nat with n by lia. reflexivity.
Qed.

(** The matches of [finditer] are the frames. *)
Lemma finditer_frames (p : pattern) :
  compiled_frame_pattern = Some p ->
  forall fuel s start,
    (String.length s < fuel)%nat ->
    map (fun mt => (m_group0 mt, m_groups mt)) (finditer_from fuel p s start false)
    = map (fun f => (f, [Some f])) (frames s).
Proof.
  intros Hp. induction fuel as [|fuel IH]; intros s start Hfuel; [lia|].
  cbn [finditer_from]. rewrite (search_from_frame p s Hp), (match_at_frame p _ _ Hp).
  destruct (cut_lead s) as [_ ->].
  destruct (marker_len (PyStr.drop (body_len s) s)) as [n|] eqn:E.
  - pose proof (marker_len_min _ n E) as Hn.
    rewrite (frames_marker _ n E). cbv zeta. cbn [map m_group0 m_groups m_end m_start].
    f_equal.
    set (e := (n + body_len (PyStr.drop n (PyStr.drop (body_len s) s)))%nat).
    assert (Nat.eqb (e + (start + body_len s)) (start + body_len s) = false) as ->
        by (apply Nat.eqb_neq; lia).
    replace (e + (start + body_len s) - start)%nat with (body_len s + e)%nat by lia.
    rewrite <- FindFacts.drop_drop. apply IH.
    rewrite !FindFacts.length_drop.
    assert (String.length s <> 0)%nat; [|lia].
    intros H0. destruct s; [discriminate E|discriminate H0].
  - rewrite (lead_end s E). reflexivity.
Qed.


Lemma frames_nil : frames "" = [].
Proof. reflexivity. Qed.

(** A property of the first frame of every text that begins with a marker
    holds of all frames. *)
Lemma frames_Forall (Q : string -> Prop) :
  (forall t n, marker_len t = Some n ->
               Q (PyStr.take (n + body_len (PyStr.drop n t)) t)) ->
  forall k s, (String.length s < k)%nat -> Forall Q (frames s).
Proof.
  intros HQ. induction k as [|k IH]; intros s Hk; [lia|].
  destruct (cut_lead s) as [_ ->].
  destruct (marker_len (PyStr.drop (body_len s) s)) as [n|] eqn:E.
  - pose proof (marker_len_min _ n E) as Hn.
    rewrite (frames_marker _ n E). constructor; [now apply HQ|].
    apply IH. rewrite !FindFacts.length_drop.
    assert (String.length s <> 0)%nat; [|lia].
    intros H0. destruct s; [discriminate E|discriminate H0].
  - rewrite (lead_end s E). constructor.
Qed.

Lemma concat_nosep_cons (x : string) (l : list string) :
  String.concat "" (x :: l) = (x ++ String.concat "" l)%string.
Proof.
  destruct l as [|y l]; simpl; [|reflexivity].
  induction x as [|c x IH]; simpl; [reflexivity|now rewrite <- IH].
Qed.

(** Nothing is lost: the text before the first frame and the frames, put
    together, are the text. *)
Lemma cut_partition (s : string) :
  forall k, (fst (cut k s) ++ String.concat "" (snd (cut k s)))%string = s.
Proof.
  induction s as [|c r IH]; intros k; [reflexivity|].
  cbn [cut].
  destruct k as [|k]; [destruct (marker_len (String c r)) as [n|]|].
  - specialize (IH (n - 1)%nat). destruct (cut (n - 1) r) as [h fs].
    cbn [fst snd] in *. rewrite concat_nosep_cons. simpl. now rewrite IH.
  - specialize (IH (0 - 1)%nat). destruct (cut (0 - 1) r) as [h fs].
    cbn [fst snd] in *. simpl. now rewrite IH.
  - specialize (IH (S k - 1)%nat). destruct (cut (S k - 1) r) as [h fs].
    cbn [fst snd] in *. simpl. now rewrite IH.
Qed.

Lemma lead_marker_free (s : string) :
  forall j, (j < body_len s)%nat -> marker_len (PyStr.drop j s) = None.
Proof.
  induction s as [|c r IH]; intros j Hj.
  - cbn [body_len] in Hj. rewrite ahead_empty in Hj. lia.
  - cbn [body_len] in Hj. unfold ahead in Hj. cbn [PyStr.is_empty] in Hj.
    rewrite orb_false_r in Hj.
    destruct (marker_len (String c r)) as [n|] eqn:E; cbn [is_some] in Hj; [lia|].
    destruct j as [|j]; [exact E|]. cbn [PyStr.drop]. apply IH. lia.
Qed.

Lemma groups_entries (matches : list re_match) :
  forall fs,
    map (fun mt => (m_group0 mt, m_groups mt)) matches
    = map (fun f : string => (f, [Some f])) fs ->
    mapM (fun mt => g <- group1 mt ;; strip_method g) matches
    = Ok (map PyStr.strip fs).
Proof.
  induction matches as [|mt l IH]; intros [|f fs] H; try discriminate; [reflexivity|].
  cbn [map] in H. inversion H as [[H0 H1 H2]].
  cbn [mapM]. unfold group1 at 1. rewrite H1. cbn [bind strip_method].
  rewrite (IH fs H2). reflexivity.
Qed.

Lemma filter_kept {A : Type} (keep : A -> bool) (l : list A) :
  Forall (fun x => keep x = true) l -> filter keep l = l.
Proof.
  induction 1 as [|x l Hx _ IH]; [reflexivity|]. simpl. now rewrite Hx, IH.
Qed.

End CutFacts.

(** The entries under the built-in frame pattern are the stripped frames. *)
Lemma built_in_entries (text log_regex_edit time_regex_edit : string) :
  built_in_frames log_regex_edit ->
  parse_log_entries (RE := sre_module) LogAnalyzerApp.log_processor text
    log_regex_edit time_regex_edit
  = Ok (map PyStr.strip (frames (PyStr.replace_crlf text)))
  /\ Forall begins_with_marker (frames (PyStr.replace_crlf text)).
Proof.
  intros Hedit. set (t := PyStr.replace_crlf text).
  rewrite (built_in_frames_blank text log_regex_edit time_regex_edit Hedit).
  destruct compiled_frame_pattern as [p|] eqn:Hp; [|discriminate].
  assert (Hmarked : Forall begins_with_marker (frames t)).
  { apply (CutFacts.frames_Forall begins_with_marker) with (k := S (String.length t));
      [|lia].
    intros u n E.
    pose proof (CutFacts.match_at_frame p u 0 Hp) as Hat. rewrite E in Hat.
    apply (FrameFacts.frame_match u 0 false p _ Hp) in Hat.
    destruct Hat as [digits [run [post [_ [Hne [Hdec [Hg _]]]]]]].
    cbn [m_group0] in Hg. rewrite Hg. now exists digits, run. }
  split; [|exact Hmarked].
  destruct built_in_time_pattern_some as [tp Ht].
  rewrite (parse_log_entries_frames (RE := sre_module) LogAnalyzerApp.log_processor
             text "" time_regex_edit tp Ht).
  rewrite built_in_frame_pattern_compiles, Hp. cbn [bind].
  fold t.
  rewrite (CutFacts.groups_entries _ (frames t)).
  - cbn [bind]. f_equal. apply CutFacts.filter_kept.
    apply Forall_forall. intros e He. apply in_map_iff in He.
    destruct He as [f [<- Hf]]. rewrite Forall_forall in Hmarked.
    destruct (Hmarked f Hf) as [digits [run [-> _]]].
    now rewrite FrameFacts.strip_marked.
  - apply (CutFacts.finditer_frames p Hp). lia.
Qed.



(* ================================================================== *)
(** ** One file under the built-in patterns *)

Lemma frames_none (t : string) :
  frames t = [] <-> forall j, marker_len (PyStr.drop j t) = None.
Proof.
  destruct (CutFacts.cut_lead t) as [_ Hf]. split.
  - intros Hnil j.
    assert (Hend : marker_len (PyStr.drop (body_len t) t) = None).
    { destruct (marker_len (PyStr.drop (body_len t) t)) as [n|] eqn:E; [|reflexivity].
      rewrite Hf, (CutFacts.frames_marker _ n E) in Hnil. discriminate. }
    destruct (Nat.lt_ge_cases j (body_len t)) as [Hj|Hj].
    + now apply CutFacts.lead_marker_free.
    + pose proof (CutFacts.lead_end t Hend) as Hempty.
      replace j with (body_len t + (j - body_len t))%nat by lia.
      rewrite <- FindFacts.drop_drop, Hempty. now destruct (j - body_len t)%nat.
  - intros Hnone. rewrite Hf.
    now rewrite (CutFacts.lead_end t (Hnone (body_len t))).
Qed.



Section BuiltInIngest.

Context `{ENV : Environment}.

Variables log_regex_edit time_regex_edit : string.
Hypothesis Hedit : built_in_frames log_regex_edit.

Lemma built_in_task (stream : BytesIO) (file_name : string) :
  map (fun log => (source_file log, content log))
      (entries_of (RE := sre_module) LogAnalyzerApp.log_processor log_regex_edit
         time_regex_edit (stream, file_name))
  = map (pair file_name) (stripped_frames stream)
  /\ reported (RE := sre_module) LogAnalyzerApp.log_processor log_regex_edit
       time_regex_edit (stream, file_name)
     = if yields_nothing stream then [file_name] else [].
Proof.
  unfold entries_of, reported, process_file_content, yields_nothing, stripped_frames.
  cbn [fst snd]. destruct stream as [raw|]; [|now split].
  destruct (decode_content raw) as [text|]; [|now split].
  destruct (built_in_entries text log_regex_edit time_regex_edit Hedit) as [-> _].
  cbn [bind].
  destruct built_in_time_pattern_some as [tp Ht].
  set (entries := map PyStr.strip (frames (PyStr.replace_crlf text))).
  pose proof (extract_all_keeps (RE := sre_module) LogAnalyzerApp.log_processor tp
                entries file_name Ht) as Hkeep.
  assert (Hsrc : forall log,
             In log (extract_all (RE := sre_module) LogAnalyzerApp.log_processor
                       entries file_name) ->
             source_file log = file_name).
  { intros log Hin. now apply (extract_all_fields (RE := sre_module)) in Hin. }
  split.
  - rewrite <- Hkeep at 2. rewrite map_map. apply map_ext_in.
    intros log Hin. now rewrite (Hsrc log Hin).
  - destruct (extract_all _ entries file_name) as [|log logs] eqn:E.
    + cbn [map] in Hkeep. now rewrite <- Hkeep.
    + cbn [map] in Hkeep. now rewrite <- Hkeep.
Qed.

End BuiltInIngest.


